(** * sphinx-marimo: the notebook transformer and the gallery integration

    A shallow embedding of [src/sphinx_marimo/transform.py], of
    [src/sphinx_marimo/gallery_integration.py] and of the directive of
    [src/sphinx_marimo/directives.py].

    Python [str] values are modelled as lists of characters.  A character
    is a code point below 256 ([ascii]); the character classes used by
    [str.strip] and by the [re] module ([\s], [\w], [\b]) are CPython's
    Unicode tables restricted to that range. *)

From Stdlib Require Import Ascii String NArith ZArith Lia DecimalString DecimalNat.
From stdpp Require Import base option list gmap.

Local Open Scope char_scope.
Local Open Scope list_scope.

(** ** Python strings *)

Abbreviation str := (list ascii).

(** A string literal of the source. *)
Definition py (s : string) : str := list_ascii_of_string s.

Definition nl : ascii := "010".
Definition dquote : ascii := "034".

(** A source line followed by its line break. *)
Definition ln (s : string) : str := py s ++ [nl].

Module Str.

(** [str.isspace] on one code point ([Py_UNICODE_ISSPACE]). *)
Definition isspace (c : ascii) : bool :=
  let n := N_of_ascii c in
  ((9 <=? n) && (n <=? 13) || (28 <=? n) && (n <=? 32)
   || (n =? 133) || (n =? 160))%N.

(** [str.isalnum] on one code point ([Py_UNICODE_ISALNUM]). *)
Definition isalnum (c : ascii) : bool :=
  let n := N_of_ascii c in
  ((48 <=? n) && (n <=? 57) || (65 <=? n) && (n <=? 90)
   || (97 <=? n) && (n <=? 122)
   || (n =? 170) || (n =? 178) || (n =? 179) || (n =? 181)
   || (n =? 185) || (n =? 186) || (188 <=? n) && (n <=? 190)
   || (192 <=? n) && (n <=? 214) || (216 <=? n) && (n <=? 246)
   || (248 <=? n))%N.

(** A word character of [re]: alphanumeric or the underscore. *)
Definition isword (c : ascii) : bool := isalnum c || Ascii.eqb c "_".

(** [s.startswith(p)] *)
Fixpoint startswith (p s : str) : bool :=
  match p, s with
  | [], _ => true
  | a :: p', b :: s' => Ascii.eqb a b && startswith p' s'
  | _ :: _, [] => false
  end.

(** [p in s] *)
Fixpoint contains (p s : str) : bool :=
  startswith p s ||
  match s with
  | [] => false
  | _ :: s' => contains p s'
  end.

(** [s.lstrip()], [s.rstrip()] and [s.strip()] *)
Fixpoint lstrip (s : str) : str :=
  match s with
  | c :: s' => if isspace c then lstrip s' else s
  | [] => []
  end.

Definition rstrip (s : str) : str := rev (lstrip (rev s)).

Definition strip (s : str) : str := rstrip (lstrip s).

(** Puts [c] in front of the first string of [parts]. *)
Definition push_head (c : ascii) (parts : list str) : list str :=
  match parts with
  | p :: ps => (c :: p) :: ps
  | [] => [[c]]
  end.

(** [s.split(sep)] for a separator of one character. *)
Fixpoint split (sep : ascii) (s : str) : list str :=
  match s with
  | [] => [[]]
  | c :: s' =>
      if Ascii.eqb c sep then [] :: split sep s'
      else push_head c (split sep s')
  end.

(** [sep.join(l)] *)
Fixpoint join (sep : str) (l : list str) : str :=
  match l with
  | [] => []
  | [x] => x
  | x :: l' => x ++ sep ++ join sep l'
  end.

(** [''.join(l)] *)
Definition concat (l : list str) : str := mjoin l.

End Str.

(** ** Regular expressions of the module *)

Module Re.

(** [\b] between two neighbouring positions: exactly one side is a
    word character; outside the string counts as not a word
    character. *)
Definition is_word_opt (c : option ascii) : bool :=
  match c with
  | Some c => Str.isword c
  | None => false
  end.

Definition word_boundary (prev next : option ascii) : bool :=
  xorb (is_word_opt prev) (is_word_opt next).

(** A literal: the rest of the input after it. *)
Fixpoint lit (p s : str) : option str :=
  match p, s with
  | [], _ => Some s
  | a :: p', b :: s' => if Ascii.eqb a b then lit p' s' else None
  | _ :: _, [] => None
  end.

(** [\s+] followed by a character that is not a space: the greedy
    match takes every space, and giving one back cannot help. *)
Definition spaces1 (s : str) : option str :=
  match s with
  | c :: s' => if Str.isspace c then Some (Str.lstrip s') else None
  | [] => None
  end.

(** [\bimport\s+marimo\b] at the current position, [prev] being the
    character before it. *)
Definition import_marimo_here (prev : option ascii) (s : str) : bool :=
  word_boundary prev (head s) &&
  match lit (py "import") s with
  | Some s1 =>
      match spaces1 s1 with
      | Some s2 =>
          match lit (py "marimo") s2 with
          | Some s3 => word_boundary (Some "o") (head s3)
          | None => false
          end
      | None => false
      end
  | None => false
  end.

(** [\bimport\s+marimo\s+as\s+mo\b] at the current position. *)
Definition import_marimo_as_mo_here (prev : option ascii) (s : str) : bool :=
  word_boundary prev (head s) &&
  match lit (py "import") s with
  | Some s1 =>
      match spaces1 s1 with
      | Some s2 =>
          match lit (py "marimo") s2 with
          | Some s3 =>
              match spaces1 s3 with
              | Some s4 =>
                  match lit (py "as") s4 with
                  | Some s5 =>
                      match spaces1 s5 with
                      | Some s6 =>
                          match lit (py "mo") s6 with
                          | Some s7 => word_boundary (Some "o") (head s7)
                          | None => false
                          end
                      | None => false
                      end
                  | None => false
                  end
              | None => false
              end
          | None => false
          end
      | None => false
      end
  | None => false
  end.

(** [re.search]: the pattern is tried at every position, left to
    right. *)
Fixpoint search_from (here : option ascii → str → bool)
    (prev : option ascii) (s : str) : bool :=
  here prev s ||
  match s with
  | [] => false
  | c :: s' => search_from here (Some c) s'
  end.

Definition search (here : option ascii → str → bool) (s : str) : bool :=
  search_from here None s.

(** [[^)]*\)]: everything up to and including the first closing
    parenthesis, and the rest; [None] when there is none. *)
Fixpoint upto_close (s : str) : option (str * str) :=
  match s with
  | [] => None
  | c :: s' =>
      if Ascii.eqb c ")" then Some ([c], s')
      else match upto_close s' with
           | Some (m, rest) => Some (c :: m, rest)
           | None => None
           end
  end.

(** [(?:\([^)]*\))?] *)
Definition opt_args (s : str) : str * str :=
  match s with
  | c :: s' =>
      if Ascii.eqb c "(" then
        match upto_close s' with
        | Some (m, rest) => (c :: m, rest)
        | None => ([], s)
        end
      else ([], s)
  | [] => ([], [])
  end.

Definition MARKER : str := py "@app.cell".

(** [(@app\.cell(?:\([^)]*\))?)] at the start of [s]: the text of the
    match and the rest. *)
Definition cell_marker (s : str) : option (str * str) :=
  match lit MARKER s with
  | Some r => let '(args, rest) := opt_args r in Some (MARKER ++ args, rest)
  | None => None
  end.

(** [re.split] with the one capturing group of the pattern: the text
    before the first match, then each match followed by the text up to
    the next one.  A match is never empty, so [length s] steps are
    enough. *)
Fixpoint split_fuel (fuel : nat) (s : str) : list str :=
  match fuel with
  | 0 => [s]
  | S fuel' =>
      match cell_marker s with
      | Some (m, rest) => [] :: m :: split_fuel fuel' rest
      | None =>
          match s with
          | [] => [[]]
          | c :: s' => Str.push_head c (split_fuel fuel' s')
          end
      end
  end.

Definition split (s : str) : list str := split_fuel (length s) s.

End Re.

(** ** The notebook transformer ([transform.py]) *)

Module Transform.

Definition GUARD : str := py "if __name__".

(** The test of the inner loop of [_parse_notebook]:
    [line.strip().startswith('if __name__')]. *)
Definition is_guard_line (line : str) : bool :=
  Str.startswith GUARD (Str.strip line).

(** One turn of the loop over [cell_lines]; the state is
    [(in_postamble, actual_cell_lines, postamble_lines)]. *)
Definition guard_step (st : bool * list str * list str) (line : str)
    : bool * list str * list str :=
  let '(in_postamble, actual_cell_lines, postamble_lines) := st in
  let in_postamble := if is_guard_line line then true else in_postamble in
  if in_postamble
  then (in_postamble, actual_cell_lines, postamble_lines ++ [line])
  else (in_postamble, actual_cell_lines ++ [line], postamble_lines).

Definition split_guard (cell_lines : list str) : list str * list str :=
  let '(_, actual_cell_lines, postamble_lines) :=
    foldl guard_step (false, [], []) cell_lines in
  (actual_cell_lines, postamble_lines).

(** The loop [for i in range(1, len(parts), 2)] of [_parse_notebook],
    run on [parts[i:]]; [cells] is the list built so far.  The result is
    the pair of the cells and the postamble. *)
Fixpoint parse_cells (cells : list str) (parts : list str) : list str * str :=
  match parts with
  | [] => (cells, [])
  | [decorator] => (cells ++ [decorator], [])
  | decorator :: cell_content :: parts' =>
      if bool_decide (parts' = []) && Str.contains GUARD cell_content then
        let '(actual_cell_lines, postamble_lines) :=
          split_guard (Str.split nl cell_content) in
        let cells :=
          match actual_cell_lines with
          | [] => cells
          | _ :: _ => cells ++ [decorator ++ Str.join [nl] actual_cell_lines]
          end in
        (cells, Str.join [nl] postamble_lines)
      else parse_cells (cells ++ [decorator ++ cell_content]) parts'
  end.

(** [_parse_notebook]: preamble, cells and postamble. *)
Definition _parse_notebook (content : str) : str * list str * str :=
  let parts := Re.split content in
  let preamble := default [] (head parts) in
  let '(cells, postamble) := parse_cells [] (tail parts) in
  (preamble, cells, postamble).

(** The display cell shared by both branches of [prepend_markdown]. *)
Definition display_cell (markdown : str) : str :=
  ln "@app.cell(hide_code=True)" ++
  ln "def __(mo):" ++
  ln "    mo.md(" ++
  py "        r" ++ [dquote; dquote; dquote; nl] ++
  py "        " ++ markdown ++ [nl] ++
  py "        " ++ [dquote; dquote; dquote; nl] ++
  ln "    )" ++
  ln "    return" ++
  [nl; nl].

Definition import_cell : str :=
  ln "@app.cell" ++
  ln "def __():" ++
  ln "    import marimo as mo" ++
  ln "    return (mo,)" ++
  [nl; nl].

(** [_create_markdown_cell]: one string holding an import cell and a
    display cell. *)
Definition _create_markdown_cell (markdown_content : str) : str :=
  import_cell ++ display_cell markdown_content.

Definition has_mo_import (cells : list str) : bool :=
  existsb (Re.search Re.import_marimo_as_mo_here) cells.

(** [prepend_markdown] *)
Definition prepend_markdown (content markdown_text : str) : str :=
  let '(preamble, cells, postamble) := _parse_notebook content in
  let markdown_cell :=
    if has_mo_import cells then display_cell markdown_text
    else _create_markdown_cell markdown_text in
  let cells := markdown_cell :: cells in
  preamble ++ Str.concat cells ++ postamble.

Definition is_import_cell (cell : str) : bool :=
  Re.search Re.import_marimo_here cell.

(** One turn of the loop of [move_imports_to_top]; the state is
    [(import_cells, other_cells)]. *)
Definition sort_step (st : list str * list str) (cell : str)
    : list str * list str :=
  let '(import_cells, other_cells) := st in
  if is_import_cell cell then (import_cells ++ [cell], other_cells)
  else (import_cells, other_cells ++ [cell]).

Definition reorder (cells : list str) : list str :=
  let '(import_cells, other_cells) := foldl sort_step ([], []) cells in
  import_cells ++ other_cells.

(** [move_imports_to_top] *)
Definition move_imports_to_top (content : str) : str :=
  let '(preamble, cells, postamble) := _parse_notebook content in
  let cells := reorder cells in
  preamble ++ Str.concat cells ++ postamble.

End Transform.

(** ** Python values used by the gallery integration *)

Module Py.

(** The exceptions that occur, all of them subclasses of [Exception]. *)
Inductive exn_kind :=
  | OSError | RuntimeError | TypeError | ValueError | AttributeError.

Record exn := Exn { kind : exn_kind; message : str }.

(** The outcome of a call: a value, or an exception that was raised. *)
Inductive result (A : Type) : Type :=
  | Ok (a : A)
  | Raise (e : exn).
Arguments Ok {A} a.
Arguments Raise {A} e.

#[global] Instance result_ret : MRet result := λ A a, Ok a.
#[global] Instance result_bind : MBind result := λ A B f r,
  match r with
  | Ok a => f a
  | Raise e => Raise e
  end.

(** A [dict] with [str] keys, as the list of its items in insertion
    order; the keys are kept distinct by [dict_set]. *)
Abbreviation dict V := (list (str * V)).

Fixpoint dict_get {V} (k : str) (d : dict V) : option V :=
  match d with
  | [] => None
  | (k', v) :: d' => if decide (k = k') then Some v else dict_get k d'
  end.

(** [d[k] = v] *)
Fixpoint dict_set {V} (k : str) (v : V) (d : dict V) : dict V :=
  match d with
  | [] => [(k, v)]
  | (k', v') :: d' =>
      if decide (k = k') then (k, v) :: d' else (k', v') :: dict_set k v d'
  end.

(** The values [json.load] returns.  A [float] is kept as the text
    [repr] prints for it. *)
#[warnings="-register-all"]
Inductive json :=
  | JNull
  | JBool (b : bool)
  | JInt (n : Z)
  | JFloat (repr : str)
  | JStr (s : str)
  | JList (l : list json)
  | JDict (d : list (str * json)).

(** Truth value of an optional text, as in [if prepend_markdown:]. *)
Definition truthy (s : option str) : bool :=
  match s with
  | Some (_ :: _) => true
  | _ => false
  end.

End Py.

(** ** Paths ([pathlib]) *)

Module Path.
Import Py.

(** An absolute path, as the list of its components below the root. *)
Abbreviation path := (list str).

(** [p.name] *)
Definition name (p : path) : str := default [] (last p).

(** The text before and after the last dot of [s]. *)
Fixpoint rsplit_dot (s : str) : option (str * str) :=
  match s with
  | [] => None
  | c :: s' =>
      match rsplit_dot s' with
      | Some (a, b) => Some (c :: a, b)
      | None => if Ascii.eqb c "." then Some ([], s') else None
      end
  end.

(** [p.stem]: the name without its last suffix; a dot that begins or
    ends the name starts no suffix. *)
Definition stem_of (name : str) : str :=
  match rsplit_dot name with
  | Some (a :: before, b :: after) => a :: before
  | _ => name
  end.

Definition stem (p : path) : str := stem_of (name p).

(** [p / child] for a child that is a single component. *)
Definition div (p : path) (child : str) : path := p ++ [child].

(** [str(p)] *)
Definition to_str (p : path) : str := "/" :: Str.join (py "/") p.

(** [p.relative_to(base)]: the components of [p] below [base]. *)
Fixpoint relative_to (p base : path) {struct base} : result (list str) :=
  match base, p with
  | [], _ => Ok p
  | b :: base', c :: p' =>
      if decide (b = c) then relative_to p' base'
      else Raise (Exn ValueError (py "path is not in the subpath"))
  | _ :: _, [] => Raise (Exn ValueError (py "path is not in the subpath"))
  end.

(** [str] of a relative path. *)
Definition rel_str (parts : list str) : str :=
  match parts with
  | [] => py "."
  | _ => Str.join (py "/") parts
  end.

(** [Path(s).name] for a text [s]: the last component that is neither
    empty nor a single dot. *)
Definition name_of_text (s : str) : str :=
  default [] (last (filter (λ c, c ≠ [] ∧ c ≠ py ".") (Str.split "/" s))).

(** [name.endswith(suffix)] *)
Definition endswith (suffix s : str) : bool :=
  Str.startswith (rev suffix) (rev s).

End Path.

(** ** The file system, the log and the cache *)

Module FS.
Import Py Path.

Inductive node :=
  | File (content : str)
  | Dir.

#[global] Instance node_eq_dec : EqDecision node.
Proof. solve_decision. Defined.

Abbreviation fs := (gmap path node).

(** [p.exists()] *)
Definition exists_ (t : fs) (p : path) : bool :=
  match p with
  | [] => true
  | _ => bool_decide (is_Some (t !! p))
  end.

Definition is_dir (t : fs) (p : path) : bool :=
  match p with
  | [] => true
  | _ => match t !! p with Some Dir => true | _ => false end
  end.

Definition parent (p : path) : path := take (length p - 1) p.

Definition read_text (t : fs) (p : path) : result str :=
  match t !! p with
  | Some (File s) => Ok s
  | Some Dir => Raise (Exn OSError (py "Is a directory"))
  | None => Raise (Exn OSError (py "No such file or directory"))
  end.

(** Writing needs the directory of the file; a directory cannot be
    written. *)
Definition write_text (t : fs) (p : path) (s : str) : result fs :=
  if is_dir t (parent p) then
    match p, t !! p with
    | [], _ | _, Some Dir => Raise (Exn OSError (py "Is a directory"))
    | _, _ => Ok (<[p := File s]> t)
    end
  else Raise (Exn OSError (py "No such file or directory")).

(** [p.unlink()] *)
Definition unlink (t : fs) (p : path) : result fs :=
  match t !! p with
  | Some (File _) => Ok (delete p t)
  | Some Dir => Raise (Exn OSError (py "Is a directory"))
  | None => Raise (Exn OSError (py "No such file or directory"))
  end.

(** [p.mkdir(parents=True, exist_ok=True)]: [p] and every missing
    ancestor, the shortest first; a file in the way is an error. *)
Fixpoint mkdir_from (t : fs) (done todo : path) : result fs :=
  match todo with
  | [] => Ok t
  | c :: todo' =>
      let p := done ++ [c] in
      match t !! p with
      | Some (File _) => Raise (Exn OSError (py "File exists"))
      | Some Dir => mkdir_from t p todo'
      | None => mkdir_from (<[p := Dir]> t) p todo'
      end
  end.

Definition mkdir_parents (t : fs) (p : path) : result fs := mkdir_from t [] p.

(** [list(d.rglob("*.ipynb"))]: every entry strictly below [d] whose
    name ends in [.ipynb], in the order the file system lists them. *)
Definition rglob_ipynb (t : fs) (d : path) : list path :=
  filter (λ p, d `prefix_of` p ∧ p ≠ d ∧ endswith (py ".ipynb") (name p) = true)
         (fst <$> map_to_list t).

End FS.

Module World.
Import Py Path FS.

Inductive level := ERROR | WARNING.

(** What [joblib.Memory] hashes: the arguments of
    [_convert_notebook_impl]. *)
Abbreviation cache_key := (path * path * path * option str * bool)%type.

(** The state the integration runs in.  Of the log only the records at
    the levels ERROR and WARNING are kept.  The stores of
    [joblib.Memory] are indexed by their directory. *)
Record world := World {
  files : fs;
  log : list (level * str);
  cache : gmap (path * cache_key) path;
}.

Definition set_files (t : fs) (w : world) : world :=
  World t (log w) (cache w).

(** A computation that reads and changes the world and may raise. *)
Definition M (A : Type) : Type := world → result A * world.

#[global] Instance M_ret : MRet M := λ A a w, (Ok a, w).
#[global] Instance M_bind : MBind M := λ A B f m w,
  match m w with
  | (Ok a, w') => f a w'
  | (Raise e, w') => (Raise e, w')
  end.

Definition raise {A} (e : exn) : M A := λ w, (Raise e, w).

(** [try: m  except Exception as e: h e] *)
Definition catch {A} (m : M A) (h : exn → M A) : M A := λ w,
  match m w with
  | (Ok a, w') => (Ok a, w')
  | (Raise e, w') => h e w'
  end.

Definition lift {A} (r : result A) : M A := λ w, (r, w).

Definition get_files : M fs := λ w, (Ok (files w), w).

(** An operation of [FS] run on the files of the world. *)
Definition on_files (f : fs → result fs) : M unit := λ w,
  match f (files w) with
  | Ok t => (Ok (), set_files t w)
  | Raise e => (Raise e, w)
  end.

Definition logger (l : level) (msg : str) : M unit := λ w,
  (Ok (), World (files w) (log w ++ [(l, msg)]) (cache w)).

(** [transform_notebook] of [transform.py]. *)
Definition transform_notebook (notebook_path : path) (output_path : option path)
    (prepend_markdown : option str) (move_imports_to_top : bool) : M path :=
  t ← get_files;
  content ← lift (read_text t notebook_path);
  let content :=
    match prepend_markdown with
    | Some md =>
        if truthy prepend_markdown then Transform.prepend_markdown content md
        else content
    | None => content
    end in
  let content :=
    if move_imports_to_top then Transform.move_imports_to_top content
    else content in
  let target_path := default notebook_path output_path in
  on_files (λ t, write_text t target_path content);;
  mret target_path.

End World.

(** ** The gallery integration ([gallery_integration.py]) *)

Module Gallery.
Import Py Path FS World.

(** A value of the dictionary [sphinx_gallery_conf]: a text, a list of
    texts, or anything else (taken to be not iterable). *)
Inductive conf_value :=
  | VStr (s : str)
  | VList (l : list str)
  | VOther.

(** [app.config]; [None] stands for an attribute that is not set. *)
Record Config := {
  extensions : option (list str);
  sphinx_gallery_conf : option (dict conf_value);
  marimo_parallel_build : option bool;
  marimo_n_jobs : option Z;
  marimo_prepend_markdown : option str;
  marimo_move_imports_to_top : option bool;
}.

Record Sphinx := {
  config : Config;
  outdir : path;
}.

(** The attributes of a [GalleryMarimoIntegration]. *)
Record Integration := {
  app : Sphinx;
  gallery_detected : bool;
  gallery_notebooks_dir : option path;
  marimo_gallery_dir : option path;
  parallel_build : bool;
  n_jobs : Z;
  prepend_markdown : option str;
  move_imports_to_top : bool;
  memory : option path;
}.

(** [__init__] *)
Definition init (app : Sphinx) (parallel_build : option bool)
    (n_jobs : option Z) (cache_dir : option path) : Integration :=
  {| app := app;
     gallery_detected := false;
     gallery_notebooks_dir := None;
     marimo_gallery_dir := None;
     parallel_build :=
       match parallel_build with
       | Some b => b
       | None => default true (marimo_parallel_build (config app))
       end;
     n_jobs :=
       match n_jobs with
       | Some n => n
       | None => default (-1)%Z (marimo_n_jobs (config app))
       end;
     prepend_markdown := marimo_prepend_markdown (config app);
     move_imports_to_top :=
       default false (marimo_move_imports_to_top (config app));
     memory := cache_dir |}.

Definition set_gallery_detected (self : Integration) : Integration :=
  {| app := app self;
     gallery_detected := true;
     gallery_notebooks_dir := gallery_notebooks_dir self;
     marimo_gallery_dir := marimo_gallery_dir self;
     parallel_build := parallel_build self;
     n_jobs := n_jobs self;
     prepend_markdown := prepend_markdown self;
     move_imports_to_top := move_imports_to_top self;
     memory := memory self |}.

Definition set_directories (self : Integration) (nb out : path) : Integration :=
  {| app := app self;
     gallery_detected := gallery_detected self;
     gallery_notebooks_dir := Some nb;
     marimo_gallery_dir := Some out;
     parallel_build := parallel_build self;
     n_jobs := n_jobs self;
     prepend_markdown := prepend_markdown self;
     move_imports_to_top := move_imports_to_top self;
     memory := memory self |}.

Definition GEN_GALLERY : str := py "sphinx_gallery.gen_gallery".

(** [detect_sphinx_gallery]: the value returned and the object after
    the call.  A configuration without [extensions] raises inside the
    [try] and gives [False]. *)
Definition detect_sphinx_gallery (self : Integration) : bool * Integration :=
  match extensions (config (app self)) with
  | None => (false, self)
  | Some exts =>
      if negb (bool_decide (GEN_GALLERY ∈ exts)) then (false, self)
      else
        let gallery_conf := default [] (sphinx_gallery_conf (config (app self))) in
        match gallery_conf with
        | [] => (false, self)
        | _ :: _ => (true, set_gallery_detected self)
        end
  end.

(** [setup_gallery_directories] *)
Definition setup_gallery_directories (self : Integration) : M Integration :=
  if negb (gallery_detected self) then mret self
  else
    let nb := div (outdir (app self)) (py "_downloads") in
    let out :=
      div (div (div (outdir (app self)) (py "_static")) (py "marimo"))
          (py "gallery") in
    on_files (λ t, mkdir_parents t out);;
    mret (set_directories self nb out).

(** What a [for] loop over a configuration value goes through. *)
Definition iterate (v : conf_value) : result (list str) :=
  match v with
  | VStr s => Ok ((λ c, [c]) <$> s)
  | VList l => Ok l
  | VOther => Raise (Exn TypeError (py "object is not iterable"))
  end.

(** The loop of [should_inject_launcher]. *)
Fixpoint starts_with_any (docname : str) (gallery_dirs : list str) : bool :=
  match gallery_dirs with
  | [] => false
  | gallery_dir :: rest =>
      if Str.startswith gallery_dir docname then true
      else starts_with_any docname rest
  end.

(** [should_inject_launcher] *)
Definition should_inject_launcher (self : Integration) (docname : str)
    : result bool :=
  if negb (gallery_detected self) then Ok false
  else
    let gallery_conf := default [] (sphinx_gallery_conf (config (app self))) in
    let gallery_dirs :=
      default (VList []) (dict_get (py "gallery_dirs") gallery_conf) in
    dirs ← iterate gallery_dirs;
    Ok (starts_with_any docname dirs).

(** The result of a [subprocess.run] with [capture_output]. *)
Record CompletedProcess := {
  returncode : Z;
  stdout : str;
  stderr : str;
}.

(** The dictionary [get_notebook_info] returns. *)
Record NotebookInfo := {
  notebook_name : str;
  notebook_url : str;
}.

Definition MANIFEST : str := py "gallery_manifest.json".

(** The message of the [ValueError] of [joblib] for [n_jobs=0]. *)
Definition N_JOBS_ZERO : str := py "n_jobs == 0 in Parallel has no meaning".

(** The document [_save_gallery_manifest] serializes. *)
Definition manifest_doc (converted_notebooks : dict str) : json :=
  JDict [(py "gallery_notebooks",
          JDict ((λ kv, (kv.1, JStr kv.2)) <$> converted_notebooks));
         (py "total_count", JInt (Z.of_nat (length converted_notebooks)))].

(** [x in v] for a decoded value [v]. *)
Definition json_contains (x : str) (v : json) : result bool :=
  match v with
  | JDict d => Ok (bool_decide (is_Some (dict_get x d)))
  | JList l =>
      Ok (existsb (λ e, match e with JStr s => bool_decide (x = s) | _ => false end) l)
  | JStr s => Ok (Str.contains x s)
  | _ => Raise (Exn TypeError (py "argument is not iterable"))
  end.

(** [v[x]] for a decoded value [v] and a text [x]. *)
Definition json_index (v : json) (x : str) : result json :=
  match v with
  | JDict d =>
      match dict_get x d with
      | Some r => Ok r
      | None => Raise (Exn ValueError x)
      end
  | _ => Raise (Exn TypeError (py "indices must be integers"))
  end.

Section Environment.

(** The parts of the environment the module calls into:
    [json.dump(_, indent=n)] and [json.load]; [str] of a decoded value
    that is not a text; and the [marimo] command line, which answers a
    call, given the files it can read, by raising or by a completed
    process and the text it wrote to the path given after [-o]. *)
Context (json_dump : nat → json → str).
Context (json_load : str → option json).
Context (py_str : json → str).
Context (marimo : list str → fs → result (CompletedProcess * option str)).

Definition format_value (v : json) : str :=
  match v with
  | JStr s => s
  | _ => py_str v
  end.

(** [subprocess.run(args, capture_output=True, text=True)] for a call
    of [marimo] that writes to [out]. *)
Definition subprocess_run (args : list str) (out : path) : M CompletedProcess :=
  λ w,
    match marimo args (files w) with
    | Ok (p, Some s) => (Ok p, set_files (<[out := File s]> (files w)) w)
    | Ok (p, None) => (Ok p, w)
    | Raise e => (Raise e, w)
    end.

Definition convert_args (ipynb_file marimo_py_file : path) : list str :=
  [py "marimo"; py "convert"; to_str ipynb_file; py "-o"; to_str marimo_py_file].

Definition export_args (marimo_py_file marimo_html_file : path) : list str :=
  [py "marimo"; py "export"; py "html-wasm"; py "--mode"; py "edit";
   to_str marimo_py_file; py "-o"; to_str marimo_html_file].

(** [_convert_notebook_impl] *)
Definition _convert_notebook_impl (ipynb_file marimo_py_file marimo_html_file : path)
    (prepend_markdown : option str) (move_imports_to_top : bool) : M path :=
  t ← get_files;
  (if exists_ t marimo_py_file then on_files (λ t, unlink t marimo_py_file)
   else mret ());;
  result ← subprocess_run (convert_args ipynb_file marimo_py_file) marimo_py_file;
  (if negb (returncode result =? 0)%Z then
     logger ERROR (py "Failed to convert " ++ name ipynb_file ++ py ":");;
     logger ERROR (py "  stdout: " ++ stdout result);;
     logger ERROR (py "  stderr: " ++ stderr result);;
     raise (Exn RuntimeError (py "marimo convert failed for " ++ name ipynb_file))
   else mret ());;
  (if truthy prepend_markdown || move_imports_to_top then
     transform_notebook marimo_py_file (Some marimo_py_file)
       prepend_markdown move_imports_to_top;;
     mret ()
   else mret ());;
  result ← subprocess_run (export_args marimo_py_file marimo_html_file)
             marimo_html_file;
  (if negb (returncode result =? 0)%Z then
     logger ERROR (py "Failed to export " ++ name ipynb_file ++ py " to WASM:");;
     logger ERROR (py "  stdout: " ++ stdout result);;
     logger ERROR (py "  stderr: " ++ stderr result);;
     raise (Exn RuntimeError (py "marimo export failed for " ++ name ipynb_file))
   else mret ());;
  mret marimo_html_file.

(** [memory.cache(f)(args)]: the stored result when there is one;
    otherwise the call, whose result is stored unless it raises. *)
Definition cached (store : path) (key : cache_key) (call : M path) : M path :=
  λ w,
    match cache w !! (store, key) with
    | Some v => (Ok v, w)
    | None =>
        match call w with
        | (Ok v, w') =>
            (Ok v, World (files w') (log w') (<[(store, key) := v]> (cache w')))
        | (Raise e, w') => (Raise e, w')
        end
    end.

(** [_convert_notebook_standalone] *)
Definition _convert_notebook_standalone (ipynb_file : path)
    (marimo_gallery_dir : option path) (memory : option path)
    (prepend_markdown : option str) (move_imports_to_top : bool)
    : M (path * option path) :=
  catch
    (let notebook_name := stem ipynb_file in
     dir ← match marimo_gallery_dir with
           | Some d => mret d
           | None => raise (Exn TypeError (py "unsupported operand type(s) for /"))
           end;
     let marimo_py_file := div dir (notebook_name ++ py ".py") in
     let marimo_html_file := div dir (notebook_name ++ py ".html") in
     converted_path ←
       match memory with
       | Some store =>
           cached store
             (ipynb_file, marimo_py_file, marimo_html_file,
              prepend_markdown, move_imports_to_top)
             (_convert_notebook_impl ipynb_file marimo_py_file marimo_html_file
                prepend_markdown move_imports_to_top)
       | None =>
           _convert_notebook_impl ipynb_file marimo_py_file marimo_html_file
             prepend_markdown move_imports_to_top
       end;
     mret (ipynb_file, Some converted_path))
    (λ e,
       logger ERROR (py "Failed to convert " ++ name ipynb_file ++ py ": "
                     ++ message e);;
       mret (ipynb_file, None)).

(** [_save_gallery_manifest] *)
Definition _save_gallery_manifest (self : Integration)
    (converted_notebooks : dict str) : M unit :=
  let manifest := manifest_doc converted_notebooks in
  dir ← match marimo_gallery_dir self with
        | Some d => mret d
        | None => raise (Exn TypeError (py "unsupported operand type(s) for /"))
        end;
  let manifest_path := div dir MANIFEST in
  on_files (λ t, write_text t manifest_path (json_dump 2 manifest)).

(** The body of both loops of [convert_gallery_notebooks] once a
    notebook has been converted: the entry of the notebook is set when
    there is a converted path. *)
Definition record_converted (self : Integration) (converted_notebooks : dict str)
    (ipynb_file : path) (converted_path : option path) : result (dict str) :=
  match converted_path with
  | Some p =>
      rel_path ← relative_to p (div (outdir (app self)) (py "_static"));
      Ok (dict_set (stem ipynb_file) (rel_str rel_path) converted_notebooks)
  | None => Ok converted_notebooks
  end.

(** [Parallel(n_jobs=n, return_as="generator")(...)], up to the first
    result: [joblib] sets up its workers when the object is called, and
    refuses to do so for no worker at all. *)
Definition Parallel (n_jobs : Z) : M unit :=
  if (n_jobs =? 0)%Z then raise (Exn ValueError N_JOBS_ZERO) else mret ().

(** The loop over the results of the workers.  The workers are taken to
    run one after the other in the order of submission, which is the
    order [return_as="generator"] yields their results in, and to write
    to the log of the caller. *)
Fixpoint parallel_loop (self : Integration) (ipynb_files : list path)
    (converted_notebooks : dict str) : M (dict str) :=
  match ipynb_files with
  | [] => mret converted_notebooks
  | ipynb_file :: rest =>
      '(ipynb_file, converted_path) ←
        _convert_notebook_standalone ipynb_file (marimo_gallery_dir self)
          (memory self) (prepend_markdown self) (move_imports_to_top self);
      converted_notebooks ←
        lift (record_converted self converted_notebooks ipynb_file converted_path);
      parallel_loop self rest converted_notebooks
  end.

(** The parallel branch of [convert_gallery_notebooks]: the [for]
    statement over [Parallel(n_jobs=self.n_jobs, ...)(...)], which is
    not inside a [try]. *)
Definition convert_parallel (self : Integration) (ipynb_files : list path)
    (converted_notebooks : dict str) : M (dict str) :=
  Parallel (n_jobs self);;
  parallel_loop self ipynb_files converted_notebooks.

(** The sequential loop, whose body is guarded by a [try]. *)
Fixpoint convert_sequential (self : Integration) (ipynb_files : list path)
    (converted_notebooks : dict str) : M (dict str) :=
  match ipynb_files with
  | [] => mret converted_notebooks
  | ipynb_file :: rest =>
      converted_notebooks ←
        catch
          ('(_, converted_path) ←
             _convert_notebook_standalone ipynb_file (marimo_gallery_dir self)
               (memory self) (prepend_markdown self) (move_imports_to_top self);
           lift (record_converted self converted_notebooks ipynb_file
                   converted_path))
          (λ e,
             logger ERROR (py "Failed to convert " ++ name ipynb_file ++ py ": "
                           ++ message e);;
             mret converted_notebooks);
      convert_sequential self rest converted_notebooks
  end.

(** [convert_gallery_notebooks] *)
Definition convert_gallery_notebooks (self : Integration) : M (dict str) :=
  match gallery_detected self, gallery_notebooks_dir self with
  | true, Some nbdir =>
      t ← get_files;
      if negb (exists_ t nbdir) then
        logger WARNING (py "Gallery notebooks directory not found: "
                        ++ to_str nbdir);;
        mret []
      else
        let ipynb_files := rglob_ipynb t nbdir in
        converted_notebooks ←
          (if parallel_build self && bool_decide (0 < length ipynb_files)
           then convert_parallel self ipynb_files []
           else convert_sequential self ipynb_files []);
        _save_gallery_manifest self converted_notebooks;;
        mret converted_notebooks
  | _, _ => mret []
  end.

(** The body of the [try] of [get_notebook_info]. *)
Definition lookup_manifest (t : fs) (manifest_path : path) (notebook_name : str)
    : result (option NotebookInfo) :=
  text ← read_text t manifest_path;
  manifest ← match json_load text with
             | Some v => Ok v
             | None => Raise (Exn ValueError (py "Expecting value"))
             end;
  gallery_notebooks ←
    match manifest with
    | JDict d => Ok (default (JDict []) (dict_get (py "gallery_notebooks") d))
    | _ => Raise (Exn AttributeError (py "object has no attribute 'get'"))
    end;
  found ← json_contains notebook_name gallery_notebooks;
  if found : bool then
    entries ← json_index manifest (py "gallery_notebooks");
    value ← json_index entries notebook_name;
    Ok (Some {| notebook_name := notebook_name;
                notebook_url := py "/_static/" ++ format_value value |})
  else Ok None.

(** [get_notebook_info] *)
Definition get_notebook_info (self : Integration) (docname : str)
    : M (option NotebookInfo) :=
  match marimo_gallery_dir self with
  | None => mret None
  | Some dir =>
      inject ← lift (should_inject_launcher self docname);
      if negb inject then mret None
      else
        let notebook_name := name_of_text docname in
        let manifest_path := div dir MANIFEST in
        t ← get_files;
        if negb (exists_ t manifest_path) then mret None
        else
          catch (lift (lookup_manifest t manifest_path notebook_name))
                (λ e,
                   logger ERROR (py "Failed to load Gallery manifest: "
                                 ++ message e);;
                   mret None)
  end.

(** *** Vocabulary for the claims about a batch *)

(** The two files [_convert_notebook_standalone] derives for a
    notebook. *)
Definition py_file (dir ipynb_file : path) : path :=
  div dir (stem ipynb_file ++ py ".py").

Definition html_file (dir ipynb_file : path) : path :=
  div dir (stem ipynb_file ++ py ".html").

(** How a call of [marimo] ends, whatever the files are. *)
Definition exits_nonzero (args : list str) : Prop :=
  ∀ t, ∃ p written, marimo args t = Ok (p, written) ∧ returncode p ≠ 0%Z.

Definition exits_zero (args : list str) : Prop :=
  ∀ t, ∃ p written, marimo args t = Ok (p, written) ∧ returncode p = 0%Z.

(** [convert] exits with status zero and has written its output. *)
Definition converts (args : list str) : Prop :=
  ∀ t, ∃ p s, marimo args t = Ok (p, Some s) ∧ returncode p = 0%Z.

Definition convert_fails (dir ipynb_file : path) : Prop :=
  exits_nonzero (convert_args ipynb_file (py_file dir ipynb_file)).

Definition export_fails (dir ipynb_file : path) : Prop :=
  converts (convert_args ipynb_file (py_file dir ipynb_file)) ∧
  exits_nonzero (export_args (py_file dir ipynb_file) (html_file dir ipynb_file)).

Definition tool_succeeds (dir ipynb_file : path) : Prop :=
  converts (convert_args ipynb_file (py_file dir ipynb_file)) ∧
  exits_zero (export_args (py_file dir ipynb_file) (html_file dir ipynb_file)).

(** The output directory exists and has no directory in it. *)
Definition files_ok (dir : path) (t : fs) : Prop :=
  is_dir t dir = true ∧ ∀ child, t !! div dir child ≠ Some Dir.

(** The output directory exists and none of the names [P] is a
    directory in it. *)
Definition writable (dir : path) (P : str → Prop) (t : fs) : Prop :=
  is_dir t dir = true ∧ ∀ child, P child → t !! div dir child ≠ Some Dir.

(** The names a batch writes to in the output directory: the manifest
    and, for each notebook, the intermediate and the exported file. *)
Definition outputs (batch : list path) (child : str) : Prop :=
  child = MANIFEST ∨
  ∃ g, g ∈ batch ∧ (child = stem g ++ py ".py" ∨ child = stem g ++ py ".html").

(** The files after a call of [marimo] that wrote [written] to
    [out]. *)
Definition after_run (out : path) (written : option str) (t : fs) : fs :=
  match written with
  | Some s => <[out := File s]> t
  | None => t
  end.

(** Every stored result is the artifact named by its key, and nothing
    is stored for the notebook [ipynb_file]. *)
Definition cache_ok (ipynb_file : path) (w : world) : Prop :=
  ∀ store key v, cache w !! (store, key) = Some v →
    v = key.1.1.2 ∧ key.1.1.1.1 ≠ ipynb_file.

(** The update of the mapping for a converted notebook. *)
Definition set_entry (sub : list str) (acc : dict str) (g : path) : dict str :=
  dict_set (stem g) (rel_str (sub ++ [stem g ++ py ".html"])) acc.

(** The records [_convert_notebook_impl] logs when a call fails. *)
Definition convert_log (ipynb_file : path) (p : CompletedProcess) : list (level * str) :=
  [(ERROR, py "Failed to convert " ++ name ipynb_file ++ py ":");
   (ERROR, py "  stdout: " ++ stdout p);
   (ERROR, py "  stderr: " ++ stderr p)].

Definition export_log (ipynb_file : path) (p : CompletedProcess) : list (level * str) :=
  [(ERROR, py "Failed to export " ++ name ipynb_file ++ py " to WASM:");
   (ERROR, py "  stdout: " ++ stdout p);
   (ERROR, py "  stderr: " ++ stderr p)].

(** The entry of the manifest for a converted notebook, [sub] being
    the place of the output directory below [_static]. *)
Definition entry (sub : list str) (ipynb_file : path) : str * str :=
  (stem ipynb_file, rel_str (sub ++ [stem ipynb_file ++ py ".html"])).

End Environment.

End Gallery.

(** ** A reference JSON codec

    The text [json.dump] writes and the value [json.load] reads back,
    for documents whose numbers are integers.  It instantiates the
    environment of [Gallery] in concrete runs. *)

Module RefJson.
Import Py.

Definition hex_digit (n : N) : ascii :=
  nth (N.to_nat n) (py "0123456789abcdef") "0".

(** [ensure_ascii]: everything outside the printable ASCII range is
    escaped. *)
Definition escape_char (c : ascii) : str :=
  let n := N_of_ascii c in
  if Ascii.eqb c dquote then ["\"; dquote]
  else if Ascii.eqb c "\" then py "\\"
  else if (n =? 10)%N then py "\n"
  else if (n =? 13)%N then py "\r"
  else if (n =? 9)%N then py "\t"
  else if (n =? 8)%N then py "\b"
  else if (n =? 12)%N then py "\f"
  else if ((32 <=? n) && (n <=? 126))%N then [c]
  else py "\u00" ++ [hex_digit (n / 16); hex_digit (n mod 16)].

Definition dump_str (s : str) : str :=
  dquote :: Str.concat (escape_char <$> s) ++ [dquote].

Definition dump_int (n : Z) : str :=
  py (DecimalString.NilZero.string_of_int (Z.to_int n)).

Definition newline_indent (indent level : nat) : str :=
  nl :: replicate (indent * level) " ".

(** [json.dumps(v, indent=indent)], [level] being the nesting depth. *)
Fixpoint dump_at (indent level : nat) (v : json) {struct v} : str :=
  match v with
  | JNull => py "null"
  | JBool true => py "true"
  | JBool false => py "false"
  | JInt n => dump_int n
  | JFloat r => r
  | JStr s => dump_str s
  | JList [] => py "[]"
  | JList l =>
      py "[" ++ newline_indent indent (S level) ++
      Str.join (py "," ++ newline_indent indent (S level))
        (map (dump_at indent (S level)) l) ++
      newline_indent indent level ++ py "]"
  | JDict [] => py "{}"
  | JDict d =>
      py "{" ++ newline_indent indent (S level) ++
      Str.join (py "," ++ newline_indent indent (S level))
        (map (λ kv, match kv with
                    | (k, x) => dump_str k ++ py ": " ++ dump_at indent (S level) x
                    end) d) ++
      newline_indent indent level ++ py "}"
  end.

Definition dump (indent : nat) (v : json) : str := dump_at indent 0 v.

Definition is_ws (c : ascii) : bool :=
  let n := N_of_ascii c in ((n =? 32) || (n =? 9) || (n =? 10) || (n =? 13))%N.

Fixpoint skip_ws (s : str) : str :=
  match s with
  | c :: s' => if is_ws c then skip_ws s' else s
  | [] => []
  end.

Definition hex_value (c : ascii) : option N :=
  let n := N_of_ascii c in
  if ((48 <=? n) && (n <=? 57))%N then Some (n - 48)%N
  else if ((97 <=? n) && (n <=? 102))%N then Some (n - 87)%N
  else if ((65 <=? n) && (n <=? 70))%N then Some (n - 55)%N
  else None.

(** The text of a string after its opening quote, and the rest. *)
Fixpoint load_str (s : str) : option (str * str) :=
  match s with
  | [] => None
  | c :: s' =>
      if Ascii.eqb c dquote then Some ([], s')
      else if Ascii.eqb c "\" then
        match s' with
        | e :: s'' =>
            let plain (x : ascii) :=
              match load_str s'' with
              | Some (t, r) => Some (x :: t, r)
              | None => None
              end in
            if Ascii.eqb e dquote then plain dquote
            else if Ascii.eqb e "\" then plain "\"
            else if Ascii.eqb e "/" then plain "/"
            else if Ascii.eqb e "n" then plain "010"
            else if Ascii.eqb e "r" then plain "013"
            else if Ascii.eqb e "t" then plain "009"
            else if Ascii.eqb e "b" then plain "008"
            else if Ascii.eqb e "f" then plain "012"
            else if Ascii.eqb e "u" then
              match s'' with
              | h1 :: h2 :: h3 :: h4 :: s4 =>
                  match hex_value h1, hex_value h2, hex_value h3, hex_value h4 with
                  | Some 0%N, Some 0%N, Some a, Some b =>
                      match load_str s4 with
                      | Some (t, r) => Some (ascii_of_N (16 * a + b) :: t, r)
                      | None => None
                      end
                  | _, _, _, _ => None
                  end
              | _ => None
              end
            else None
        | [] => None
        end
      else if (N_of_ascii c <? 32)%N then None
      else
        match load_str s' with
        | Some (t, r) => Some (c :: t, r)
        | None => None
        end
  end.

Definition digit_value (c : ascii) : option Z :=
  let n := N_of_ascii c in
  if ((48 <=? n) && (n <=? 57))%N then Some (Z.of_N (n - 48)) else None.

Fixpoint load_digits (acc : Z) (s : str) : Z * str :=
  match s with
  | c :: s' =>
      match digit_value c with
      | Some d => load_digits (10 * acc + d) s'
      | None => (acc, s)
      end
  | [] => (acc, [])
  end.

(** An integer without sign; a number that goes on with a fraction or
    an exponent is not read. *)
Definition load_nat (s : str) : option (Z * str) :=
  match s with
  | c :: s' =>
      match digit_value c with
      | Some d =>
          let '(n, r) := if (d =? 0)%Z then (0%Z, s') else load_digits d s' in
          match r with
          | x :: _ =>
              if Ascii.eqb x "." || Ascii.eqb x "e" || Ascii.eqb x "E" then None
              else Some (n, r)
          | [] => Some (n, r)
          end
      | None => None
      end
  | [] => None
  end.

Fixpoint load_value (fuel : nat) (s : str) : option (json * str) :=
  match fuel with
  | 0 => None
  | S fuel =>
      match skip_ws s with
      | c :: r =>
          if Ascii.eqb c "{" then
            match skip_ws r with
            | c' :: r' =>
                if Ascii.eqb c' "}" then Some (JDict [], r')
                else load_members fuel (c' :: r') []
            | [] => None
            end
          else if Ascii.eqb c "[" then
            match skip_ws r with
            | c' :: r' =>
                if Ascii.eqb c' "]" then Some (JList [], r')
                else load_elements fuel (c' :: r') []
            | [] => None
            end
          else if Ascii.eqb c dquote then
            match load_str r with
            | Some (t, r') => Some (JStr t, r')
            | None => None
            end
          else if Ascii.eqb c "-" then
            match load_nat r with
            | Some (n, r') => Some (JInt (- n), r')
            | None => None
            end
          else
            match Re.lit (py "null") (c :: r), Re.lit (py "true") (c :: r),
                  Re.lit (py "false") (c :: r) with
            | Some r', _, _ => Some (JNull, r')
            | _, Some r', _ => Some (JBool true, r')
            | _, _, Some r' => Some (JBool false, r')
            | _, _, _ =>
                match load_nat (c :: r) with
                | Some (n, r') => Some (JInt n, r')
                | None => None
                end
            end
      | [] => None
      end
  end
with load_members (fuel : nat) (s : str) (acc : dict json) : option (json * str) :=
  match fuel with
  | 0 => None
  | S fuel =>
      match skip_ws s with
      | q :: r =>
          if Ascii.eqb q dquote then
            match load_str r with
            | Some (k, r1) =>
                match skip_ws r1 with
                | colon :: r2 =>
                    if Ascii.eqb colon ":" then
                      match load_value fuel r2 with
                      | Some (v, r3) =>
                          match skip_ws r3 with
                          | c :: r4 =>
                              if Ascii.eqb c "," then
                                load_members fuel r4 (dict_set k v acc)
                              else if Ascii.eqb c "}" then
                                Some (JDict (dict_set k v acc), r4)
                              else None
                          | [] => None
                          end
                      | None => None
                      end
                    else None
                | [] => None
                end
            | None => None
            end
          else None
      | [] => None
      end
  end
with load_elements (fuel : nat) (s : str) (acc : list json) : option (json * str) :=
  match fuel with
  | 0 => None
  | S fuel =>
      match load_value fuel s with
      | Some (v, r) =>
          match skip_ws r with
          | c :: r' =>
              if Ascii.eqb c "," then load_elements fuel r' (acc ++ [v])
              else if Ascii.eqb c "]" then Some (JList (acc ++ [v]), r')
              else None
          | [] => None
          end
      | None => None
      end
  end.

(** [json.loads]: one value and nothing but white space after it. *)
Definition load (text : str) : option json :=
  match load_value (S (length text)) text with
  | Some (v, r) =>
      match skip_ws r with
      | [] => Some v
      | _ :: _ => None
      end
  | None => None
  end.

(** [str] of a decoded value that is not a text, for the values
    without a nested container. *)
Definition to_str (v : json) : str :=
  match v with
  | JNull => py "None"
  | JBool true => py "True"
  | JBool false => py "False"
  | JInt n => dump_int n
  | JFloat r => r
  | JStr s => s
  | JList _ => py "[...]"
  | JDict _ => py "{...}"
  end.

End RefJson.

(** ** Concrete notebooks *)

Module Samples.

Definition main_guard : str :=
  py "if __name__ == " ++ [dquote] ++ py "__main__" ++ [dquote] ++ ln ":" ++
  ln "    app.run()".

Definition header : str :=
  ln "import marimo" ++
  ln "" ++
  py "__generated_with = " ++ [dquote] ++ py "0.9.0" ++ [dquote; nl] ++
  ln "app = marimo.App()" ++
  ln "" ++
  ln "".

(** A notebook as [marimo] writes it, the import cell first. *)
Definition sorted_nb : str :=
  header ++
  ln "@app.cell" ++
  ln "def __():" ++
  ln "    import marimo as mo" ++
  ln "    return (mo,)" ++
  ln "" ++
  ln "" ++
  ln "@app.cell" ++
  ln "def __():" ++
  ln "    x = 1" ++
  ln "    return (x,)" ++
  ln "" ++
  ln "" ++
  main_guard.

(** The notebook of the test that checks the preamble. *)
Definition plain_nb : str :=
  header ++
  ln "@app.cell" ++
  ln "def __():" ++
  ln "    x = 1" ++
  ln "    return x," ++
  ln "" ++
  ln "" ++
  main_guard.

(** One cell and nothing else. *)
Definition one_cell : str := ln "@app.cell" ++ ln "x = 1".

(** The guard directly below the last line of the cell. *)
Definition tight_guard : str := ln "@app.cell" ++ ln "x = 1" ++ main_guard.

(** A text without any cell. *)
Definition no_cell : str := ln "import marimo" ++ ln "app = marimo.App()".

(** The configuration of the tests. *)
Definition test_config : Gallery.Config :=
  {| Gallery.extensions := Some [py "sphinx_gallery.gen_gallery"];
     Gallery.sphinx_gallery_conf :=
       Some [(py "gallery_dirs", Gallery.VList [py "auto_examples"])];
     Gallery.marimo_parallel_build := Some false;
     Gallery.marimo_n_jobs := Some (-1)%Z;
     Gallery.marimo_prepend_markdown := None;
     Gallery.marimo_move_imports_to_top := Some false |}.

(** The configuration of the documentation of the project itself
    ([_docs/conf.py]), where [gallery_dirs] is a text. *)
Definition docs_config : Gallery.Config :=
  {| Gallery.extensions :=
       Some [py "sphinx_gallery.gen_gallery"; py "jupyterlite_sphinx";
             py "sphinx_marimo"; py "sphinx.ext.autodoc";
             py "sphinx.ext.napoleon"];
     Gallery.sphinx_gallery_conf :=
       Some [(py "examples_dirs", Gallery.VStr (py "../gallery_examples"));
             (py "gallery_dirs", Gallery.VStr (py "auto_examples"));
             (py "filename_pattern", Gallery.VStr (py "/plot_.*\.py$"));
             (py "expected_failing_examples", Gallery.VOther);
             (py "plot_gallery", Gallery.VStr (py "True"));
             (py "jupyterlite", Gallery.VOther)];
     Gallery.marimo_parallel_build := Some true;
     Gallery.marimo_n_jobs := Some (-1)%Z;
     Gallery.marimo_prepend_markdown := Some (py "Note");
     Gallery.marimo_move_imports_to_top := Some true |}.

Definition outdir : Path.path := [py "build"].

Definition gallery_dir : Path.path :=
  [py "build"; py "_static"; py "marimo"; py "gallery"].

(** An integration after detection and the set-up of its directories. *)
Definition ready (c : Gallery.Config) : Gallery.Integration :=
  Gallery.set_directories
    (Gallery.detect_sphinx_gallery
       (Gallery.init {| Gallery.config := c; Gallery.outdir := outdir |}
          None None None)).2
    [py "build"; py "_downloads"] gallery_dir.

Definition directories : FS.fs :=
  list_to_map
    [([py "build"], FS.Dir);
     ([py "build"; py "_downloads"], FS.Dir);
     ([py "build"; py "_downloads"; py "0a1b"], FS.Dir);
     ([py "build"; py "_static"], FS.Dir);
     ([py "build"; py "_static"; py "marimo"], FS.Dir);
     (gallery_dir, FS.Dir)].

Definition empty_world (t : FS.fs) : World.world :=
  {| World.files := t; World.log := []; World.cache := ∅ |}.

(** Five notebooks of a gallery. *)
Definition notebook (n : string) : Path.path :=
  [py "build"; py "_downloads"; py "0a1b"; py n].

Definition five_notebooks : FS.fs :=
  foldr (λ n t, <[notebook n := FS.File (py "{}")]> t) directories
    ["plot_a.ipynb"; "plot_b.ipynb"; "plot_c.ipynb"; "plot_d.ipynb";
     "plot_e.ipynb"]%string.

(** A [marimo] that cannot convert [plot_c.ipynb] and succeeds on
    everything else. *)
Definition marimo (args : list str) (t : FS.fs)
    : Py.result (Gallery.CompletedProcess * option str) :=
  match args with
  | [_; _; src; _; _] =>
      if bool_decide (src = Path.to_str (notebook "plot_c.ipynb")) then
        Py.Ok ({| Gallery.returncode := 1; Gallery.stdout := [];
                  Gallery.stderr := py "not a notebook" |}, None)
      else
        Py.Ok ({| Gallery.returncode := 0; Gallery.stdout := [];
                  Gallery.stderr := [] |}, Some one_cell)
  | _ =>
      Py.Ok ({| Gallery.returncode := 0; Gallery.stdout := [];
                Gallery.stderr := [] |}, Some (py "<html></html>"))
  end.

(** Five notebooks again, two of which have the same name in the
    directories of two galleries. *)
Definition colliding_notebooks : FS.fs :=
  <[[py "build"; py "_downloads"; py "9f3c"; py "plot_a.ipynb"] := FS.File (py "{}")]>
    (<[[py "build"; py "_downloads"; py "9f3c"] := FS.Dir]>
       (delete (notebook "plot_e.ipynb") five_notebooks)).

(** A manifest on disk with one notebook. *)
Definition with_manifest : FS.fs :=
  <[Path.div gallery_dir Gallery.MANIFEST :=
      FS.File (RefJson.dump 2
                 (Gallery.manifest_doc
                    [(py "plot_scatter", py "marimo/gallery/plot_scatter.html")]))]>
    directories.

Definition two_notebooks : Py.dict str :=
  [(py "example1", py "marimo/gallery/example1.html");
   (py "example2", py "marimo/gallery/example2.html")].

End Samples.

(** ** Auxiliary notions used to reason about the transformer *)

Module Cells.

(** The lines before the first guard line, and the lines from it on. *)
Fixpoint span_guard (lines : list str) : list str * list str :=
  match lines with
  | [] => ([], [])
  | line :: ls =>
      if Transform.is_guard_line line then ([], lines)
      else let '(a, p) := span_guard ls in (line :: a, p)
  end.

(** A notebook body seen as pairs of a cell marker and the text that
    follows it. *)
Definition cat (p : str * str) : str := p.1 ++ p.2.

Definition flat (ps : list (str * str)) : str := Str.concat (cat <$> ps).

Definition parts_of (ps : list (str * str)) : list str :=
  ps ≫= λ p, [p.1; p.2].

(** [chain ps]: read from the left, the text [flat ps] splits into
    exactly the markers and texts of [ps]. *)
Inductive chain : list (str * str) → Prop :=
  | chain_nil : chain []
  | chain_cons d c ps :
      Re.cell_marker (d ++ c ++ flat ps) = Some (d, c ++ flat ps) →
      Str.contains Re.MARKER c = false →
      chain ps →
      chain ((d, c) :: ps).

(** [x'] is [x] with some characters removed after the first one. *)
Definition shrinks (x x' : str) : Prop :=
  head x' = head x ∧ ∀ ch, ch ∈ x' → ch ∈ x.

(** The cells put in front by [prepend_markdown]. *)
Definition new_cells (cells : list str) (markdown : str) : list str :=
  if Transform.has_mo_import cells then [Transform.display_cell markdown]
  else [Transform.import_cell; Transform.display_cell markdown].

(** The same cells as pairs of a marker and a text. *)
Definition import_pair : str * str :=
  (py "@app.cell",
   [nl] ++
   ln "def __():" ++
   ln "    import marimo as mo" ++
   ln "    return (mo,)" ++
   [nl; nl]).

Definition display_pair (markdown : str) : str * str :=
  (py "@app.cell(hide_code=True)",
   [nl] ++
   ln "def __(mo):" ++
   ln "    mo.md(" ++
   py "        r" ++ [dquote; dquote; dquote; nl] ++
   py "        " ++ markdown ++ [nl] ++
   py "        " ++ [dquote; dquote; dquote; nl] ++
   ln "    )" ++
   ln "    return" ++
   [nl; nl]).

(** The text of the display cell before and after the markdown. *)
Definition display_head : str :=
  [nl] ++ ln "def __(mo):" ++ ln "    mo.md(" ++ py "        r" ++
  [dquote; dquote; dquote; nl] ++ py "        ".

Definition display_tail : str :=
  py "        " ++ [dquote; dquote; dquote; nl] ++
  ln "    )" ++ ln "    return" ++ [nl; nl].

Definition new_pairs (cells : list str) (markdown : str) : list (str * str) :=
  if Transform.has_mo_import cells then [display_pair markdown]
  else [import_pair; display_pair markdown].

(** A cell of the output next to the cell of the input it comes from:
    the same text, or the text without its last line break. *)
Definition same_cell (c' c : str) : Prop := c' = c ∨ c = c' ++ [nl].

End Cells.

(** ** The directive ([directives.py]) *)

Module Directive.

(** [s.replace(old, new)] for a pattern [old] that is not empty: the
    occurrences are taken from the left and do not overlap.  [skip] is
    the number of characters of the last match still to be passed. *)
Fixpoint replace_from (old new : str) (skip : nat) (s : str) : str :=
  match s with
  | [] => []
  | c :: s' =>
      match skip with
      | S k => replace_from old new k s'
      | 0 =>
          if Str.startswith old s
          then new ++ replace_from old new (length old - 1) s'
          else c :: replace_from old new 0 s'
      end
  end.

Definition replace (old new s : str) : str := replace_from old new 0 s.

(** [self.options], with the keys of [option_spec], and the two values
    of [self.config] that [run] reads. *)
Record Options := {
  height : option str;
  width : option str;
  class : option str;
  theme : option str;
}.

Record DirectiveConfig := {
  marimo_default_height : str;
  marimo_default_width : str;
}.

(** [str(n)] for a serial number. *)
Definition str_of_nat (n : nat) : str :=
  py (NilEmpty.string_of_uint (Nat.to_uint n)).

(** [notebook_path.replace("/", "_").replace(".py", "")] *)
Definition notebook_name (notebook_path : str) : str :=
  replace (py ".py") [] (replace (py "/") (py "_") notebook_path).

Definition container_id (notebook_path : str) (serialno : nat) : str :=
  py "marimo-" ++ notebook_name notebook_path ++ py "-" ++ str_of_nat serialno.

(** A value between double quotes. *)
Definition quoted (s : str) : str := dquote :: s ++ [dquote].

(** The text of the raw node. *)
Definition html (css_class container_id notebook_name theme width height : str)
    : str :=
  [nl] ++
  py "<div class=" ++ quoted css_class ++ py " id=" ++ quoted container_id ++
  py " data-notebook=" ++ quoted notebook_name ++
  py " data-theme=" ++ quoted theme ++ ln ">" ++
  ln "    <iframe" ++
  py "        src=" ++
  quoted (py "/_static/marimo/notebooks/" ++ notebook_name ++ py ".html") ++ [nl] ++
  py "        style=" ++
  quoted (py "width: " ++ width ++ py "; height: " ++ height ++
          py "; border: 1px solid #e0e0e0; border-radius: 4px;") ++ [nl] ++
  py "        frameborder=" ++ quoted (py "0") ++ [nl] ++
  py "        loading=" ++ quoted (py "lazy") ++ [nl] ++
  py "        allow=" ++ quoted (py "fullscreen") ++ ln ">" ++
  ln "    </iframe>" ++
  ln "</div>" ++
  ln "<script>" ++
  ln "    (function() {" ++
  py "        const container = document.getElementById('" ++ container_id ++
  ln "');" ++
  ln "        if (window.MarimoLoader) {" ++
  py "            window.MarimoLoader.load(container, '" ++ notebook_name ++
  ln "');" ++
  ln "        }" ++
  ln "    })();" ++
  ln "</script>".

(** [run]: the text of the node and the next serial number of the
    environment ([env.new_serialno] returns the current number and
    counts on). *)
Definition run (notebook_path : str) (options : Options)
    (config : DirectiveConfig) (serialno : nat) : str * nat :=
  let height := default (marimo_default_height config) (height options) in
  let width := default (marimo_default_width config) (width options) in
  let css_class := default (py "marimo-embed") (class options) in
  let theme := default (py "light") (theme options) in
  (html css_class (container_id notebook_path serialno)
     (notebook_name notebook_path) theme width height,
   S serialno).

End Directive.

(** ** Auxiliary notions used by the further properties *)

Module Notions.
Import Py Path FS World Gallery.

(** A cell whose marker has no argument list and whose text begins with
    an opening parenthesis. *)
Definition open_cell (p : str * str) : Prop :=
  p.1 = Re.MARKER ∧ head p.2 = Some "(".

#[global] Instance open_cell_dec p : Decision (open_cell p).
Proof. unfold open_cell. apply _. Defined.

(** The text [transform_notebook] writes for the text it has read. *)
Definition transformed (prepend_markdown : option str) (move_imports_to_top : bool)
    (content : str) : str :=
  let content :=
    match prepend_markdown with
    | Some md =>
        if truthy prepend_markdown then Transform.prepend_markdown content md
        else content
    | None => content
    end in
  if move_imports_to_top then Transform.move_imports_to_top content else content.

(** The dictionary [get_notebook_info] returns for a notebook whose
    entry in the manifest is [url]. *)
Definition info_for (docname : str) (url : str) : NotebookInfo :=
  {| notebook_name := name_of_text docname;
     notebook_url := py "/_static/" ++ url |}.

(** Every stored result is the artifact named by its key. *)
Definition cache_sound (w : world) : Prop :=
  ∀ store key v, cache w !! (store, key) = Some v → v = key.1.1.2.

(** A computation that leaves the cache as it is and that, run in an
    output directory that exists and in which none of the names [P] is
    a directory, leaves it so. *)
Definition tidy {A} (dir : path) (P : str → Prop) (m : M A) : Prop :=
  ∀ w, cache (m w).2 = cache w ∧
       (writable dir P (files w) → writable dir P (files (m w).2)).


(** The results of the workers for a batch:
    [_convert_notebook_standalone] called for one notebook after the
    other with the attributes of the object, each call in the world the
    call before it has left, together with the world after the last
    call. *)
Fixpoint results (marimo : list str → fs → result (CompletedProcess * option str))
    (self : Integration) (batch : list path) (w : world)
    : list (path * option path) * world :=
  match batch with
  | [] => ([], w)
  | ipynb_file :: rest =>
      match _convert_notebook_standalone marimo ipynb_file (marimo_gallery_dir self)
              (memory self) (prepend_markdown self) (move_imports_to_top self) w with
      | (Ok r, w1) =>
          let '(rs, w2) := results marimo self rest w1 in (r :: rs, w2)
      | (Raise _, w1) => ([], w1)
      end
  end.

(** The notebooks of a list of results for which a path came back. *)
Definition with_path (rs : list (path * option path)) : list path :=
  fst <$> filter (λ r, is_Some r.2) rs.


(** A notebook without the entry-point guard, the import cell last. *)
Definition unsorted_nb : str :=
  Samples.header ++
  ln "@app.cell" ++
  ln "def __():" ++
  ln "    x = 1" ++
  ln "    return (x,)" ++
  ln "" ++
  ln "" ++
  ln "@app.cell" ++
  ln "def __():" ++
  ln "    import marimo as mo" ++
  ln "    return (mo,)".



End Notions.

(* ================================================================== *)
(** * Properties *)
(* ================================================================== *)

Module StrFacts.
Import Str.

(** Closes [c ∉ l] for a character and a string that are both given. *)
Ltac not_in_literal :=
  let H := fresh in
  intros H; cbv in H;
  repeat (apply elem_of_cons in H as [H|H]; [discriminate H|]);
  by apply elem_of_nil in H.

Lemma eqb_refl' (c : ascii) : Ascii.eqb c c = true.
Proof. apply Ascii.eqb_eq. reflexivity. Qed.

Lemma startswith_spec p s : startswith p s = true ↔ ∃ r, s = p ++ r.
Proof.
  revert s. induction p as [|a p IH]; intros s; simpl.
  - split; [intros _; by exists s | done].
  - destruct s as [|b s]; simpl.
    + split; [done | intros [r Hr]; discriminate].
    + rewrite andb_true_iff, Ascii.eqb_eq, IH. split.
      * intros [-> [r ->]]. by exists r.
      * intros [r Hr]. injection Hr as -> ->. eauto.
Qed.

Lemma startswith_app_same p r : startswith p (p ++ r) = true.
Proof. apply startswith_spec. by exists r. Qed.

Lemma lit_spec p s r : Re.lit p s = Some r ↔ s = p ++ r.
Proof.
  revert s. induction p as [|a p IH]; intros s; simpl.
  - split; [by intros [= ->] | by intros ->].
  - destruct s as [|b s]; simpl; [split; discriminate|].
    destruct (Ascii.eqb a b) eqn:E.
    + apply Ascii.eqb_eq in E as ->. rewrite IH. split; [by intros -> | by intros [= ->]].
    + apply Ascii.eqb_neq in E. split; [discriminate | intros [= -> ->]; done].
Qed.

Lemma lit_app p r : Re.lit p (p ++ r) = Some r.
Proof. by apply lit_spec. Qed.

Lemma lit_None p s : Re.lit p s = None ↔ startswith p s = false.
Proof.
  destruct (Re.lit p s) as [r|] eqn:E, (startswith p s) eqn:F; try done.
  - apply lit_spec in E as ->. by rewrite startswith_app_same in F.
  - apply startswith_spec in F as [r ->]. by rewrite lit_app in E.
Qed.

(** A separator that does not occur in the pattern stops any match. *)
Lemma startswith_sep p ch X Y :
  ch ∉ p → startswith p (X ++ ch :: Y) = startswith p X.
Proof.
  revert X. induction p as [|a p IH]; intros X Hch; [by destruct X|].
  apply not_elem_of_cons in Hch as [Hne Hch].
  destruct X as [|x X]; simpl.
  - destruct (Ascii.eqb a ch) eqn:E; [|done].
    apply Ascii.eqb_eq in E. congruence.
  - by rewrite IH.
Qed.

Lemma contains_nil_r p : contains p [] = startswith p [].
Proof. simpl. by rewrite orb_false_r. Qed.

Lemma contains_sep p ch X Y :
  ch ∉ p → contains p (X ++ ch :: Y) = contains p X || contains p Y.
Proof.
  intros Hch. induction X as [|x X IH].
  - pose proof (startswith_sep p ch [] Y Hch) as H.
    cbn [app] in *. cbn [contains]. by rewrite H, orb_false_r.
  - pose proof (startswith_sep p ch (x :: X) Y Hch) as H.
    cbn [app] in *. cbn [contains]. by rewrite IH, H, orb_assoc.
Qed.

(** Text without the first character of the pattern cannot start a
    match. *)
Lemma contains_skip c0 p X Y :
  c0 ∉ X → contains (c0 :: p) (X ++ Y) = contains (c0 :: p) Y.
Proof.
  induction X as [|x X IH]; intros Hc; [done|].
  apply not_elem_of_cons in Hc as [Hne Hc].
  cbn [app contains startswith].
  destruct (Ascii.eqb c0 x) eqn:E.
  - apply Ascii.eqb_eq in E. congruence.
  - simpl. by apply IH.
Qed.

Lemma contains_spec p s : contains p s = true ↔ ∃ a b, s = a ++ p ++ b.
Proof.
  induction s as [|c s IH]; simpl.
  - rewrite orb_false_r, startswith_spec. split.
    + intros [r Hr]. by exists [], r.
    + intros (a & b & Hab). symmetry in Hab.
      apply app_eq_nil in Hab as [-> Hab]. eauto.
  - rewrite orb_true_iff, startswith_spec, IH. split.
    + intros [[r Hr] | (a & b & ->)]; [by exists [], r | by exists (c :: a), b].
    + intros (a & b & Hab). destruct a as [|a0 a]; [left; by exists b|].
      injection Hab as -> ->. right; eauto.
Qed.

Lemma contains_app_r p X Y : contains p Y = true → contains p (X ++ Y) = true.
Proof.
  rewrite !contains_spec. intros (a & b & ->). exists (X ++ a), b.
  by rewrite <- app_assoc.
Qed.

Lemma contains_app_l p X Y : contains p X = true → contains p (X ++ Y) = true.
Proof.
  rewrite !contains_spec. intros (a & b & ->). exists a, (b ++ Y).
  by rewrite <- !app_assoc.
Qed.

Lemma contains_app_false p X Y :
  contains p (X ++ Y) = false → contains p X = false ∧ contains p Y = false.
Proof.
  intros H. split.
  - destruct (contains p X) eqn:E; [|done].
    by rewrite (contains_app_l _ _ Y E) in H.
  - destruct (contains p Y) eqn:E; [|done].
    by rewrite (contains_app_r _ X _ E) in H.
Qed.

(** *** [split] and [join] *)

Lemma split_nonempty sep s : split sep s ≠ [].
Proof.
  destruct s as [|c s]; simpl; [done|].
  destruct (Ascii.eqb c sep); [done|]. by destruct (split sep s).
Qed.

Lemma join_cons sep x l :
  l ≠ [] → join sep (x :: l) = x ++ sep ++ join sep l.
Proof. by destruct l. Qed.

Lemma join_push_head sep c l :
  l ≠ [] → join sep (push_head c l) = c :: join sep l.
Proof. destruct l as [|x [|y l]]; done. Qed.

Lemma join_split sep s : join [sep] (split sep s) = s.
Proof.
  induction s as [|c s IH]; [done|]. cbn [split].
  destruct (Ascii.eqb c sep) eqn:E.
  - apply Ascii.eqb_eq in E as ->.
    rewrite join_cons by apply split_nonempty. by rewrite IH.
  - rewrite join_push_head by apply split_nonempty. by rewrite IH.
Qed.

Lemma join_app sep l1 l2 :
  l1 ≠ [] → l2 ≠ [] → join sep (l1 ++ l2) = join sep l1 ++ sep ++ join sep l2.
Proof.
  intros H1 H2. induction l1 as [|x l1 IH]; [done|].
  destruct l1 as [|y l1].
  - cbn [app]. by rewrite join_cons.
  - rewrite <- app_comm_cons, !join_cons, IH by done.
    by rewrite <- !app_assoc.
Qed.

Lemma split_no_sep sep s : Forall (λ l, sep ∉ l) (split sep s).
Proof.
  induction s as [|c s IH]; simpl.
  - constructor; [apply not_elem_of_nil | constructor].
  - destruct (Ascii.eqb c sep) eqn:E.
    + constructor; [apply not_elem_of_nil | done].
    + apply Ascii.eqb_neq in E.
      destruct (split sep s) as [|l ls]; simpl.
      * constructor; [|constructor]. rewrite list_elem_of_singleton. congruence.
      * inversion IH; subst. constructor; [|done].
        rewrite elem_of_cons. intros [?|?]; congruence.
Qed.

Lemma split_line sep l : sep ∉ l → split sep l = [l].
Proof.
  induction l as [|c l IH]; intros H; [done|].
  apply not_elem_of_cons in H as [Hne H]. simpl.
  destruct (Ascii.eqb c sep) eqn:E.
  - apply Ascii.eqb_eq in E. congruence.
  - by rewrite IH.
Qed.

Lemma split_app_sep sep l s :
  sep ∉ l → split sep (l ++ sep :: s) = l :: split sep s.
Proof.
  induction l as [|c l IH]; intros H.
  - simpl. by rewrite eqb_refl'.
  - apply not_elem_of_cons in H as [Hne H]. simpl.
    destruct (Ascii.eqb c sep) eqn:E.
    + apply Ascii.eqb_eq in E. congruence.
    + by rewrite IH.
Qed.

Lemma split_join sep ls :
  ls ≠ [] → Forall (λ l, sep ∉ l) ls → split sep (join [sep] ls) = ls.
Proof.
  intros Hne H. induction H as [|l ls Hl Hls IH]; [done|].
  destruct ls as [|l' ls].
  - by apply split_line.
  - rewrite join_cons by done. cbn [app].
    rewrite split_app_sep by done. by rewrite IH.
Qed.

(** *** [strip] *)

Lemma lstrip_suffix s : ∃ a, s = a ++ lstrip s.
Proof.
  induction s as [|c s [a IH]]; [by exists []|]. simpl.
  destruct (isspace c); [|by exists []].
  exists (c :: a). simpl. by rewrite <- IH.
Qed.

Lemma rstrip_prefix s : ∃ b, s = rstrip s ++ b.
Proof.
  unfold rstrip. destruct (lstrip_suffix (rev s)) as [a Ha].
  exists (rev a). rewrite <- rev_app_distr, <- Ha. by rewrite rev_involutive.
Qed.

Lemma strip_infix s : ∃ a b, s = a ++ strip s ++ b.
Proof.
  unfold strip. destruct (lstrip_suffix s) as [a Ha].
  destruct (rstrip_prefix (lstrip s)) as [b Hb].
  exists a, b. by rewrite <- Hb.
Qed.

End StrFacts.

Module ReFacts.
Import Str StrFacts Re Cells.

Lemma upto_close_None s : upto_close s = None ↔ ")" ∉ s.
Proof.
  induction s as [|c s IH]; simpl.
  - split; [intros _; apply not_elem_of_nil | done].
  - rewrite not_elem_of_cons. destruct (Ascii.eqb c ")") eqn:E.
    + apply Ascii.eqb_eq in E as ->. split; [done | by intros [? _]].
    + apply Ascii.eqb_neq in E. destruct (upto_close s) as [[m r]|].
      * split; [done|]. intros [_ H]. by apply IH in H.
      * split; [|done]. intros _. split; [congruence | by apply IH].
Qed.

Lemma upto_close_app m x x' :
  upto_close (m ++ x) = Some (m, x) → upto_close (m ++ x') = Some (m, x').
Proof.
  induction m as [|c m IH]; simpl.
  - destruct x as [|c x]; simpl; [done|].
    destruct (Ascii.eqb c ")"); [by intros [= ?]|].
    destruct (upto_close x) as [[??]|]; by intros [= ?].
  - destruct (Ascii.eqb c ")") eqn:E.
    + intros [= Hm _]. by destruct m.
    + destruct (upto_close (m ++ x)) as [[m' r]|] eqn:F; [|done].
      intros [= -> ->]. by rewrite IH.
Qed.

Lemma upto_close_inv s m rest : upto_close s = Some (m, rest) → s = m ++ rest ∧ m ≠ [].
Proof.
  revert m. induction s as [|c s IH]; intros m; simpl; [done|].
  destruct (Ascii.eqb c ")").
  - by intros [= <- <-].
  - destruct (upto_close s) as [[m' r]|]; [|done].
    intros [= <- <-]. destruct (IH m' eq_refl) as [-> _]. done.
Qed.

Lemma opt_args_inv s args rest : opt_args s = (args, rest) → s = args ++ rest.
Proof.
  destruct s as [|c s]; simpl; [by intros [= <- <-]|].
  destruct (Ascii.eqb c "("); [|by intros [= <- <-]].
  destruct (upto_close s) as [[m r]|] eqn:E; intros [= <- <-]; [|done].
  apply upto_close_inv in E as [-> _]. done.
Qed.

(** The optional argument list depends on what follows only through
    its first character and the presence of a closing parenthesis. *)
Lemma opt_args_stable args x x' :
  opt_args (args ++ x) = (args, x) → shrinks x x' →
  opt_args (args ++ x') = (args, x').
Proof.
  intros H [Hhd Hin]. destruct args as [|a args].
  - cbn [app] in *. destruct x' as [|c t']; [done|].
    destruct x as [|c0 t]; [done|]. injection Hhd as <-.
    simpl in *. destruct (Ascii.eqb c "(") eqn:E; [|done].
    apply Ascii.eqb_eq in E as ->.
    destruct (upto_close t) as [[m r]|] eqn:F; [done|].
    apply upto_close_None in F.
    assert (upto_close t' = None) as ->; [|done].
    apply upto_close_None. intros Ht'.
    assert (")" ∈ "(" :: t) as Hc by (apply Hin; by right).
    apply elem_of_cons in Hc as [?|?]; done.
  - simpl in *. destruct (Ascii.eqb a "("); [|by injection H].
    destruct (upto_close (args ++ x)) as [[m r]|] eqn:F.
    + injection H as -> ->. by rewrite (upto_close_app _ _ x' F).
    + by injection H.
Qed.

Lemma cell_marker_inv s m rest :
  cell_marker s = Some (m, rest) →
  s = m ++ rest ∧ ∃ args, m = MARKER ++ args ∧ opt_args (args ++ rest) = (args, rest).
Proof.
  unfold cell_marker. destruct (lit MARKER s) as [r|] eqn:E; [|done].
  apply lit_spec in E as ->.
  destruct (opt_args r) as [args rest'] eqn:F. intros [= <- <-].
  pose proof (opt_args_inv _ _ _ F) as ->.
  split; [reflexivity | by exists args].
Qed.

Lemma cell_marker_intro args rest :
  opt_args (args ++ rest) = (args, rest) →
  cell_marker ((MARKER ++ args) ++ rest) = Some (MARKER ++ args, rest).
Proof.
  intros H. unfold cell_marker. rewrite <- app_assoc, lit_app. by rewrite H.
Qed.

Lemma cell_marker_None s : cell_marker s = None ↔ startswith MARKER s = false.
Proof.
  unfold cell_marker. rewrite <- lit_None.
  destruct (lit MARKER s); [|done]. by destruct (opt_args _).
Qed.

Lemma cell_marker_stable d x x' :
  cell_marker (d ++ x) = Some (d, x) → shrinks x x' →
  cell_marker (d ++ x') = Some (d, x').
Proof.
  intros H Hs. apply cell_marker_inv in H as (_ & args & -> & H).
  apply cell_marker_intro. by apply opt_args_stable with x.
Qed.

Lemma cell_marker_length s m rest :
  cell_marker s = Some (m, rest) → length rest < length s.
Proof.
  intros H. apply cell_marker_inv in H as (-> & args & -> & _).
  rewrite !length_app. simpl. lia.
Qed.

(** *** [re.split] *)

Lemma split_fuel_enough n k s :
  length s ≤ n → length s ≤ k → split_fuel n s = split_fuel k s.
Proof.
  revert k s. induction n as [|n IH]; intros k s Hn Hk.
  - destruct s; [|simpl in Hn; lia]. by destruct k.
  - destruct k as [|k].
    + destruct s; [done | simpl in Hk; lia].
    + cbn [split_fuel].
      destruct (cell_marker s) as [[m rest]|] eqn:E.
      * apply cell_marker_length in E. by rewrite (IH k rest) by lia.
      * destruct s as [|c s]; [done|]. simpl in Hn, Hk.
        by rewrite (IH k s) by lia.
Qed.

(** The equation of [re.split]: it does not depend on the fuel. *)
Lemma split_eq s :
  split s =
  match cell_marker s with
  | Some (m, rest) => [] :: m :: split rest
  | None =>
      match s with
      | [] => [[]]
      | c :: s' => push_head c (split s')
      end
  end.
Proof.
  unfold split. destruct s as [|c s]; [done|].
  cbn [length split_fuel].
  destruct (cell_marker (c :: s)) as [[m rest]|] eqn:E; [|done].
  apply cell_marker_length in E. simpl in E.
  by rewrite (split_fuel_enough (length s) (length rest) rest) by lia.
Qed.

Lemma split_not_nil s : split s ≠ [].
Proof.
  rewrite split_eq. destruct (cell_marker s) as [[??]|]; [done|].
  destruct s as [|c s]; [done|]. unfold push_head. by destruct (split s).
Qed.

Lemma contains_startswith p s : contains p s = false → startswith p s = false.
Proof. destruct s; simpl; by intros [??]%orb_false_iff. Qed.

Lemma split_no_marker s : contains MARKER s = false → split s = [s].
Proof.
  induction s as [|c s IH]; intros H; [done|].
  rewrite split_eq.
  assert (cell_marker (c :: s) = None) as ->
    by (by apply cell_marker_None, contains_startswith).
  cbn [contains] in H. apply orb_false_iff in H as [_ H].
  by rewrite IH.
Qed.

(** A match cannot begin in a text that has none and run into a
    following text that begins with the first character of the marker. *)
Lemma startswith_sep_tail a p x X ch Y :
  ch ∉ p →
  startswith (a :: p) ((x :: X) ++ ch :: Y) = startswith (a :: p) (x :: X).
Proof. intros H. simpl. by rewrite startswith_sep. Qed.

Lemma marker_no_cross X Y :
  X ≠ [] → (Y = [] ∨ head Y = Some "@") →
  startswith MARKER (X ++ Y) = startswith MARKER X.
Proof.
  intros HX [->|HY]; [by rewrite app_nil_r|].
  destruct Y as [|ch Y]; [done|]. injection HY as ->.
  destruct X as [|x X]; [done|].
  apply startswith_sep_tail. not_in_literal.
Qed.

Lemma flat_cons d c ps : flat ((d, c) :: ps) = d ++ c ++ flat ps.
Proof. unfold flat, Str.concat, cat. simpl. by rewrite <- app_assoc. Qed.

Lemma flat_app ps qs : flat (ps ++ qs) = flat ps ++ flat qs.
Proof.
  induction ps as [|[d c] ps IH]; [done|].
  rewrite <- app_comm_cons, !flat_cons, IH. by rewrite <- !app_assoc.
Qed.

Lemma chain_head d c ps : chain ((d, c) :: ps) → head (flat ((d, c) :: ps)) = Some "@".
Proof.
  inversion 1 as [|d' c' ps' Hd Hc Hps]; subst.
  apply cell_marker_inv in Hd as (_ & args & -> & _).
  by rewrite flat_cons.
Qed.

Lemma chain_flat_start ps : chain ps → flat ps = [] ∨ head (flat ps) = Some "@".
Proof. destruct 1 as [|d c ps H1 H2 H3]; [by left | right]. eapply chain_head. by constructor. Qed.

Lemma split_app_free pre Y :
  contains MARKER pre = false → (Y = [] ∨ head Y = Some "@") →
  split (pre ++ Y) = match split Y with p :: ps => (pre ++ p) :: ps | [] => [pre] end.
Proof.
  intros Hpre HY. induction pre as [|c pre IH].
  - simpl. destruct (split Y) eqn:E; [|done]. by apply split_not_nil in E.
  - cbn [contains] in Hpre. apply orb_false_iff in Hpre as [Hst Hpre].
    rewrite split_eq.
    assert (cell_marker ((c :: pre) ++ Y) = None) as ->.
    { apply cell_marker_None. by rewrite marker_no_cross. }
    cbn [app]. rewrite IH by done. by destruct (split Y).
Qed.

(** Soundness of [chain]: such a text splits into its pairs. *)
Lemma split_chain ps :
  chain ps → ∀ pre, contains MARKER pre = false →
  split (pre ++ flat ps) = pre :: parts_of ps.
Proof.
  induction 1 as [|d c ps Hd Hc Hps IH]; intros pre Hpre.
  - unfold flat. simpl. rewrite app_nil_r. by apply split_no_marker.
  - rewrite split_app_free; [|done|].
    + rewrite flat_cons, split_eq, Hd, IH by done. simpl. by rewrite app_nil_r.
    + right. eapply chain_head. by constructor.
Qed.

(** Completeness: every text is a marker-free preamble followed by a
    chain. *)
Lemma split_decomp s :
  ∃ pre ps, s = pre ++ flat ps ∧ split s = pre :: parts_of ps ∧
            contains MARKER pre = false ∧ chain ps.
Proof.
  remember (length s) as n eqn:Hn. revert s Hn.
  induction (lt_wf n) as [n _ IH]. intros s ->.
  assert (∀ s', length s' < length s → ∃ pre ps, s' = pre ++ flat ps ∧
     split s' = pre :: parts_of ps ∧ contains MARKER pre = false ∧ chain ps) as IH'.
  { intros s' Hlt. by eapply IH. }
  clear IH. rewrite split_eq.
  destruct (cell_marker s) as [[m rest]|] eqn:E.
  - destruct (IH' rest) as (pre & ps & Hrest & Hsp & Hpre & Hps).
    { by apply cell_marker_length in E. }
    pose proof (cell_marker_inv _ _ _ E) as (Hs & _).
    exists [], ((m, pre) :: ps). split_and!.
    + rewrite flat_cons. simpl. by rewrite <- Hrest.
    + by rewrite Hsp.
    + done.
    + constructor; [|done..]. by rewrite <- Hrest, <- Hs.
  - destruct s as [|c s].
    { exists [], []. split_and!; [done..|constructor]. }
    destruct (IH' s) as (pre & ps & Hrest & Hsp & Hpre & Hps); [simpl; lia|].
    exists (c :: pre), ps. split_and!.
    + by rewrite Hrest.
    + by rewrite Hsp.
    + simpl. rewrite Hpre, orb_false_r.
      apply cell_marker_None in E. rewrite Hrest in E.
      destruct (chain_flat_start ps Hps) as [H0|H0].
      * by rewrite H0, app_nil_r in E.
      * change (c :: pre ++ flat ps) with ((c :: pre) ++ flat ps) in E.
        rewrite marker_no_cross in E; [done | done | by right].
    + done.
Qed.

End ReFacts.

Module TransformFacts.
Import Str StrFacts Re ReFacts Cells Transform.

(** *** The loop over the lines of the last cell *)

Lemma guard_loop_in_postamble lines a p :
  foldl guard_step (true, a, p) lines = (true, a, p ++ lines).
Proof.
  revert p. induction lines as [|l ls IH]; intros p; simpl.
  - by rewrite app_nil_r.
  - destruct (is_guard_line l); rewrite IH; by rewrite <- app_assoc.
Qed.

Lemma guard_loop lines a p :
  ∃ b, foldl guard_step (false, a, p) lines =
       (b, a ++ (span_guard lines).1, p ++ (span_guard lines).2).
Proof.
  revert a. induction lines as [|l ls IH]; intros a; simpl.
  - exists false. by rewrite !app_nil_r.
  - destruct (is_guard_line l) eqn:E; simpl.
    + exists true. by rewrite guard_loop_in_postamble, app_nil_r, <- app_assoc.
    + destruct (IH (a ++ [l])) as [b ->]. exists b.
      destruct (span_guard ls) as [a' p']. simpl. by rewrite <- app_assoc.
Qed.

Lemma split_guard_span lines : split_guard lines = span_guard lines.
Proof.
  unfold split_guard. destruct (guard_loop lines [] []) as [b ->].
  by destruct (span_guard lines).
Qed.

Lemma span_guard_app a g r :
  Forall (λ l, is_guard_line l = false) a → is_guard_line g = true →
  span_guard (a ++ g :: r) = (a, g :: r).
Proof.
  intros Ha Hg. induction Ha as [|l a Hl Ha IH]; simpl.
  - by rewrite Hg.
  - by rewrite Hl, IH.
Qed.

Lemma span_guard_inv lines a p :
  span_guard lines = (a, p) →
  lines = a ++ p ∧ Forall (λ l, is_guard_line l = false) a ∧
  (p = [] ∨ ∃ g r, p = g :: r ∧ is_guard_line g = true).
Proof.
  revert a. induction lines as [|l ls IH]; intros a; simpl.
  - intros [= <- <-]. split_and!; [done | constructor | by left].
  - destruct (is_guard_line l) eqn:E.
    + intros [= <- <-]. split_and!; [done | constructor | right; eauto].
    + destruct (span_guard ls) as [a' p']. intros [= <- <-].
      destruct (IH a' eq_refl) as (-> & Ha & Hp).
      split_and!; [done | by constructor | done].
Qed.

Lemma guard_line_contains g : is_guard_line g = true → contains GUARD g = true.
Proof.
  unfold is_guard_line. intros [r Hr]%startswith_spec.
  destruct (strip_infix g) as (a & b & Hg). apply contains_spec.
  exists a, (r ++ b). by rewrite Hg, Hr, <- !app_assoc.
Qed.

Lemma join_head sep g r : ∃ t, join sep (g :: r) = g ++ t.
Proof.
  destruct r as [|x r]; [exists []; simpl; by rewrite app_nil_r|].
  rewrite join_cons by done. eauto.
Qed.

(** *** The loop over the parts *)

Lemma parts_of_app ps qs : parts_of (ps ++ qs) = parts_of ps ++ parts_of qs.
Proof. unfold parts_of. by rewrite bind_app. Qed.

Lemma parts_of_nil ps : parts_of ps = [] → ps = [].
Proof. by destruct ps. Qed.

Lemma parse_cells_app acc ps qs :
  qs ≠ [] →
  parse_cells acc (parts_of (ps ++ qs)) = parse_cells (acc ++ (cat <$> ps)) (parts_of qs).
Proof.
  intros Hqs. revert acc. induction ps as [|[d c] ps IH]; intros acc.
  - simpl. by rewrite app_nil_r.
  - change (parts_of (((d, c) :: ps) ++ qs)) with (d :: c :: parts_of (ps ++ qs)).
    cbn [parse_cells]. rewrite bool_decide_eq_false_2.
    + simpl. rewrite IH. by rewrite <- app_assoc.
    + intros H%parts_of_nil. by destruct ps, qs.
Qed.

(** The last cell when its text holds no guard line. *)
Lemma parse_cells_last_plain acc d c :
  (span_guard (Str.split nl c)).2 = [] →
  parse_cells acc (parts_of [(d, c)]) = (acc ++ [d ++ c], []).
Proof.
  intros H. cbn [parts_of mbind list_bind app fst snd parse_cells].
  rewrite bool_decide_eq_true_2 by done. simpl.
  destruct (contains GUARD c); [|done].
  rewrite split_guard_span. destruct (span_guard (Str.split nl c)) as [a p] eqn:E.
  simpl in H. subst p. apply span_guard_inv in E as (E & _ & _).
  rewrite app_nil_r in E. subst a.
  rewrite join_split. by destruct (Str.split nl c) eqn:F; [apply split_nonempty in F|].
Qed.

(** The last cell when a guard line follows at least one other line. *)
Lemma parse_cells_last_guard acc d c a g r :
  Str.split nl c = a ++ g :: r → a ≠ [] →
  Forall (λ l, is_guard_line l = false) a → is_guard_line g = true →
  parse_cells acc (parts_of [(d, c)]) =
    (acc ++ [d ++ join [nl] a], join [nl] (g :: r)).
Proof.
  intros Hc Ha Hng Hg. cbn [parts_of mbind list_bind app fst snd parse_cells].
  rewrite bool_decide_eq_true_2 by done. simpl.
  assert (contains GUARD c = true) as ->.
  { rewrite <- (join_split nl c), Hc, join_app by done.
    apply contains_app_r, contains_app_r.
    destruct (join_head [nl] g r) as [t ->].
    by apply contains_app_l, guard_line_contains. }
  rewrite split_guard_span, Hc, span_guard_app by done. by destruct a.
Qed.

Lemma parse_notebook_decomp content :
  ∃ pre ps, content = pre ++ flat ps ∧ contains MARKER pre = false ∧ chain ps ∧
    Re.split content = pre :: parts_of ps ∧
    _parse_notebook content =
      (pre, (parse_cells [] (parts_of ps)).1, (parse_cells [] (parts_of ps)).2).
Proof.
  destruct (split_decomp content) as (pre & ps & Hc & Hs & Hpre & Hps).
  exists pre, ps. split_and!; [done..|].
  unfold _parse_notebook. rewrite Hs. simpl.
  by destruct (parse_cells [] (parts_of ps)).
Qed.

(** *** The partition of [move_imports_to_top] *)

Lemma sort_loop cells imports others :
  foldl sort_step (imports, others) cells =
    (imports ++ filter (λ c, is_import_cell c = true) cells,
     others ++ filter (λ c, is_import_cell c ≠ true) cells).
Proof.
  revert imports others. induction cells as [|c cells IH]; intros imports others.
  - simpl. by rewrite !app_nil_r.
  - cbn [foldl]. unfold sort_step at 2. rewrite !filter_cons.
    destruct (is_import_cell c) eqn:E; rewrite IH;
      repeat case_decide; try congruence; by rewrite <- app_assoc.
Qed.

Lemma reorder_filter cells :
  reorder cells = filter (λ c, is_import_cell c = true) cells ++
                  filter (λ c, is_import_cell c ≠ true) cells.
Proof. unfold reorder. by rewrite sort_loop. Qed.

Lemma move_imports_to_top_eq content pre cells post :
  _parse_notebook content = (pre, cells, post) →
  move_imports_to_top content = pre ++ Str.concat (reorder cells) ++ post.
Proof. unfold move_imports_to_top. by intros ->. Qed.

Lemma prepend_markdown_eq content md pre cells post :
  _parse_notebook content = (pre, cells, post) →
  prepend_markdown content md =
    pre ++ Str.concat (new_cells cells md) ++ Str.concat cells ++ post.
Proof.
  unfold prepend_markdown, new_cells, _create_markdown_cell. intros ->.
  unfold Str.concat. destruct (has_mo_import cells); simpl;
    rewrite ?app_nil_r, <- ?app_assoc; done.
Qed.

(** *** Re-parsing the output of [prepend_markdown] *)

Lemma parse_cells_acc acc parts :
  parse_cells acc parts =
    (acc ++ (parse_cells [] parts).1, (parse_cells [] parts).2).
Proof.
  remember (length parts) as n eqn:Hn. revert acc parts Hn.
  induction (lt_wf n) as [n _ IH]. intros acc parts ->.
  destruct parts as [|d [|c parts]].
  - simpl. by rewrite app_nil_r.
  - done.
  - cbn [parse_cells]. destruct (bool_decide (parts = []) && contains GUARD c).
    + destruct (split_guard (Str.split nl c)) as [a p]. destruct a; simpl;
        by rewrite ?app_nil_r.
    + change ([] ++ [d ++ c]) with [d ++ c].
      rewrite (IH (length parts) ltac:(simpl; lia) (acc ++ _) parts eq_refl).
      rewrite (IH (length parts) ltac:(simpl; lia) [d ++ c] parts eq_refl).
      simpl. by rewrite <- app_assoc.
Qed.

Lemma parse_cells_last_noguard acc (p : str * str) :
  contains GUARD p.2 = false →
  parse_cells acc (parts_of [p]) = (acc ++ [cat p], []).
Proof.
  destruct p as [d c]. intros H.
  cbn [parts_of mbind list_bind app fst snd parse_cells] in *.
  by rewrite H, andb_false_r.
Qed.

Lemma new_pairs_cells cells md : cat <$> new_pairs cells md = new_cells cells md.
Proof. unfold new_pairs, new_cells. by destruct (has_mo_import cells). Qed.

Lemma new_pairs_last cells md :
  ∃ qs, new_pairs cells md = qs ++ [display_pair md].
Proof.
  unfold new_pairs. destruct (has_mo_import cells);
    [by exists [] | by exists [import_pair]].
Qed.

Lemma display_body_eq md :
  (display_pair md).2 = display_head ++ md ++ nl :: display_tail.
Proof. reflexivity. Qed.

Lemma display_body_free c0 p md :
  c0 ∉ display_head → nl ∉ c0 :: p →
  contains (c0 :: p) display_tail = false →
  contains (c0 :: p) md = false →
  contains (c0 :: p) (display_pair md).2 = false.
Proof.
  intros Hc0 Hnl Htail Hmd. rewrite display_body_eq.
  rewrite contains_skip by done. rewrite contains_sep by done.
  by rewrite Hmd, Htail.
Qed.

Lemma display_body_no_marker md :
  contains MARKER md = false → contains MARKER (display_pair md).2 = false.
Proof.
  apply (display_body_free "@" (py "app.cell"));
    [not_in_literal | not_in_literal | by vm_compute].
Qed.

Lemma display_body_no_guard md :
  contains GUARD md = false → contains GUARD (display_pair md).2 = false.
Proof.
  apply (display_body_free "i" (py "f __name__"));
    [not_in_literal | not_in_literal | by vm_compute].
Qed.

(** The new cells split as intended whatever follows them. *)
Lemma chain_new_pairs cells md ps :
  contains MARKER md = false → chain ps → chain (new_pairs cells md ++ ps).
Proof.
  intros Hmd Hps.
  assert (chain (display_pair md :: ps)) as Hdisp.
  { constructor; [reflexivity | by apply display_body_no_marker | done]. }
  unfold new_pairs. destruct (has_mo_import cells); [done|].
  constructor; [reflexivity | by vm_compute | done].
Qed.

Lemma shrinks_refl x : shrinks x x.
Proof. by split. Qed.

Lemma shrinks_app X c c' : shrinks c c' → shrinks (X ++ c) (X ++ c').
Proof.
  intros [Hh Hin]. split.
  - by destruct X.
  - intros ch. rewrite !elem_of_app. intros [?|?]; [by left | right; by apply Hin].
Qed.

Lemma chain_app_r ps qs : chain (ps ++ qs) → chain qs.
Proof.
  induction ps as [|[d c] ps IH]; [done|].
  intros H. inversion H as [|??? _ _ Hps]; subst. auto.
Qed.

Lemma chain_last ps d c :
  chain (ps ++ [(d, c)]) →
  cell_marker (d ++ c) = Some (d, c) ∧ contains MARKER c = false.
Proof.
  intros H%chain_app_r. inversion H as [|??? Hd Hc _]; subst.
  change (flat []) with (@nil ascii) in Hd. by rewrite app_nil_r in Hd.
Qed.

Lemma chain_shrink_last ps d c c' :
  chain (ps ++ [(d, c)]) → shrinks c c' → contains MARKER c' = false →
  chain (ps ++ [(d, c')]).
Proof.
  intros Hch Hs Hc'. induction ps as [|[d0 c0] ps IH].
  - inversion Hch as [|??? Hd _ _]; subst. constructor; [|done|constructor].
    change (flat []) with (@nil ascii) in *. rewrite app_nil_r in *.
    by eapply cell_marker_stable.
  - inversion Hch as [|??? Hd Hc0 Hrest]; subst.
    constructor; [|done|by apply IH].
    eapply cell_marker_stable; [exact Hd|].
    rewrite !flat_app, !flat_cons. change (flat []) with (@nil ascii).
    rewrite !app_nil_r. by do 3 apply shrinks_app.
Qed.

Lemma upto_close_last s m rest : upto_close s = Some (m, rest) → last m = Some ")".
Proof.
  revert m. induction s as [|c s IH]; intros m; simpl; [done|].
  destruct (Ascii.eqb c ")") eqn:E.
  - apply Ascii.eqb_eq in E as ->. by intros [= <- <-].
  - destruct (upto_close s) as [[m' r]|] eqn:F; [|done].
    intros [= <- <-]. pose proof (IH m' eq_refl) as Hl.
    destruct m'; [done|]. by rewrite last_cons_cons.
Qed.

(** A marker never ends in a line break. *)
Lemma marker_last s d rest X :
  cell_marker s = Some (d, rest) → last (X ++ d) ≠ Some nl.
Proof.
  intros (_ & args & -> & H)%cell_marker_inv.
  destruct args as [|a args].
  { rewrite app_nil_r, last_app. by vm_compute. }
  simpl in H. destruct (Ascii.eqb a "("); [|by injection H].
  destruct (upto_close (args ++ rest)) as [[m r]|] eqn:F; [|by injection H].
  injection H as -> ->. apply upto_close_last in F.
  rewrite (assoc_L (++)), last_app_cons, last_cons, F. discriminate.
Qed.

Lemma ends_nl_line X l t : X ++ l = t ++ [nl] → nl ∉ l → l = [] ∧ X = t ++ [nl].
Proof.
  intros H Hl. destruct l as [|c l] using rev_ind.
  - by rewrite app_nil_r in H.
  - rewrite (assoc_L (++)) in H. apply app_inj_tail in H as [_ ->].
    exfalso. apply Hl. rewrite elem_of_app, list_elem_of_singleton. by right.
Qed.

Lemma concat_app (l1 l2 : list str) :
  Str.concat (l1 ++ l2) = Str.concat l1 ++ Str.concat l2.
Proof.
  unfold Str.concat. induction l1 as [|x l1 IH]; [done|].
  simpl. by rewrite IH, (assoc_L (++)).
Qed.

Lemma concat_singleton (x : str) : Str.concat [x] = x.
Proof. unfold Str.concat. simpl. by rewrite app_nil_r. Qed.

Lemma flat_concat ps : flat ps = Str.concat (cat <$> ps).
Proof. done. Qed.

Lemma flat_snoc ps d c : flat (ps ++ [(d, c)]) = flat ps ++ d ++ c.
Proof.
  rewrite flat_app, flat_cons. change (flat []) with (@nil ascii).
  by rewrite app_nil_r.
Qed.

Lemma same_cell_refl cells : Forall2 same_cell cells cells.
Proof. apply Forall_Forall2_diag, Forall_forall. intros c _. by left. Qed.

(** The last cell when the guard is on the first line after the
    marker: the marker is dropped with it. *)
Lemma parse_cells_last_dropped acc d c g r :
  Str.split nl c = g :: r → is_guard_line g = true →
  parse_cells acc (parts_of [(d, c)]) = (acc, c).
Proof.
  intros Hc Hg. cbn [parts_of mbind list_bind app fst snd parse_cells].
  rewrite bool_decide_eq_true_2 by done. simpl.
  assert (contains GUARD c = true) as ->.
  { rewrite <- (join_split nl c), Hc.
    destruct (join_head [nl] g r) as [t ->].
    by apply contains_app_l, guard_line_contains. }
  rewrite split_guard_span, Hc. cbn [span_guard]. rewrite Hg.
  by rewrite <- Hc, join_split.
Qed.

Lemma guard_text_nonempty g r : is_guard_line g = true → join [nl] (g :: r) ≠ [].
Proof.
  intros Hg%guard_line_contains. destruct (join_head [nl] g r) as [t ->].
  destruct g; [by vm_compute in Hg | done].
Qed.

(** The body of the notebook as [prepend_markdown] writes it back:
    when the postamble is empty or follows an empty line, it is again a
    chain, with the same cells up to the last line break before the
    postamble. *)
Lemma tail_stable ps cells post :
  chain ps → parse_cells [] (parts_of ps) = (cells, post) →
  (post ≠ [] → flat ps = Str.concat cells ++ nl :: post ∧
               ∃ t, Str.concat cells = t ++ [nl]) →
  ∃ ps' cells',
    flat ps' = Str.concat cells ++ post ∧ chain ps' ∧
    parse_cells [] (parts_of ps') = (cells', post) ∧
    Forall2 same_cell cells' cells ∧
    (ps' = [] → cells = [] ∧ post = []).
Proof.
  intros Hch Hparse Hpost.
  destruct ps as [|[d c] ps _] using rev_ind.
  { injection Hparse as <- <-. exists [], [].
    split_and!; [done | constructor | done | constructor | done]. }
  rewrite parse_cells_app in Hparse by done. cbn [app] in Hparse.
  destruct (span_guard (Str.split nl c)) as [a p] eqn:E.
  pose proof (span_guard_inv _ _ _ E) as (Hlines & Hng & [->|(g & r & -> & Hg)]).
  - (* no guard line *)
    rewrite parse_cells_last_plain in Hparse by (by rewrite E).
    injection Hparse as <- <-. exists (ps ++ [(d, c)]), ((cat <$> ps) ++ [d ++ c]).
    split_and!.
    + by rewrite app_nil_r, flat_concat, fmap_app.
    + done.
    + rewrite parse_cells_app by done. cbn [app].
      by rewrite parse_cells_last_plain by (by rewrite E).
    + apply same_cell_refl.
    + by destruct ps.
  - destruct a as [|l0 a0] using rev_ind.
    + (* the guard is on the line of the marker *)
      exfalso. cbn [app] in Hlines.
      rewrite (parse_cells_last_dropped _ _ _ _ _ Hlines Hg) in Hparse.
      injection Hparse as <- <-.
      destruct Hpost as [Hflat _].
      { rewrite <- (join_split nl c), Hlines. by apply guard_text_nonempty. }
      rewrite flat_snoc, <- flat_concat in Hflat.
      apply app_inv_head in Hflat.
      apply chain_last in Hch as [Hd _].
      apply cell_marker_inv in Hd as (_ & args & -> & _).
      apply (f_equal length) in Hflat. rewrite !length_app in Hflat.
      simpl in Hflat. lia.
    + (* the guard follows other lines *)
      clear IHa0.
      assert (a0 ++ [l0] ≠ []) as Hne by (by destruct a0).
      rewrite (parse_cells_last_guard _ _ _ _ _ _ Hlines Hne Hng Hg) in Hparse.
      injection Hparse as <- <-.
      destruct Hpost as [Hflat [t Ht]]; [by apply guard_text_nonempty|].
      pose proof (split_no_sep nl c) as Hsep. rewrite Hlines in Hsep.
      apply Forall_app in Hsep as [Hsepa Hsepp].
      apply Forall_app in Hsepa as [Hsepa0 Hsepl].
      apply Forall_app in Hng as [Hng0 _].
      apply Forall_inv in Hsepl.
      (* the line before the guard is empty and is not the first one *)
      assert (l0 = [] ∧ a0 ≠ []) as [-> Ha0].
      { rewrite concat_app, concat_singleton in Ht.
        destruct a0 as [|l1 a1].
        - cbn [app join] in Ht. rewrite !(assoc_L (++)) in Ht.
          apply ends_nl_line in Ht as [-> Ht]; [|done]. exfalso.
          apply chain_last in Hch as [Hd _].
          eapply marker_last; [exact Hd|]. by rewrite Ht, last_snoc.
        - split; [|done].
          rewrite (join_app [nl] (l1 :: a1) [l0]) in Ht by done.
          cbn [join] in Ht. rewrite !(assoc_L (++)) in Ht.
          by apply ends_nl_line in Ht as [-> _]. }
      set (J := join [nl] (g :: r)) in *.
      set (c' := join [nl] a0 ++ nl :: J).
      assert (c = (join [nl] a0 ++ [nl]) ++ nl :: J) as Hc.
      { rewrite <- (join_split nl c), Hlines.
        rewrite join_app by done. rewrite join_app by done.
        by rewrite app_nil_r, <- !(assoc_L (++)). }
      assert (join [nl] (a0 ++ [[]]) = join [nl] a0 ++ [nl]) as Hja.
      { rewrite join_app by done. by rewrite app_nil_r. }
      exists (ps ++ [(d, c')]), ((cat <$> ps) ++ [d ++ join [nl] a0]).
      split_and!.
      * rewrite flat_snoc, concat_app, concat_singleton, Hja, <- flat_concat.
        unfold c'. by rewrite <- !(assoc_L (++)).
      * apply chain_shrink_last with c; [done | |].
        -- rewrite Hc. unfold c'. split.
           ++ rewrite <- (assoc_L (++)). by destruct (join [nl] a0).
           ++ intros ch. rewrite !elem_of_app, !elem_of_cons, ?elem_of_app,
                 ?list_elem_of_singleton. tauto.
        -- apply chain_last in Hch as [_ Hcm].
           rewrite Hc in Hcm. rewrite contains_sep in Hcm by not_in_literal.
           apply orb_false_iff in Hcm as [Hcm1 Hcm2].
           apply contains_app_false in Hcm1 as [Hcm1 _].
           unfold c'. rewrite contains_sep by not_in_literal.
           by rewrite Hcm1, Hcm2.
      * rewrite parse_cells_app by done. cbn [app].
        apply parse_cells_last_guard; [|done..].
        unfold c', J.
        replace (join [nl] a0 ++ nl :: join [nl] (g :: r))
          with (join [nl] (a0 ++ g :: r)) by (by rewrite join_app).
        apply split_join; [by destruct a0 | by apply Forall_app].
      * apply Forall2_app; [apply same_cell_refl|].
        constructor; [|constructor]. right.
        by rewrite Hja, !(assoc_L (++)).
      * by destruct ps.
Qed.

End TransformFacts.

(** ** The claims about the transformer *)

Module TransformClaims.
Import Str StrFacts Re ReFacts Cells Transform TransformFacts.

(** Decides by computation that two given texts differ. *)
Ltac differ :=
  match goal with
  | |- ?a ≠ ?b =>
      apply (proj1 (bool_decide_eq_false (a = b))); vm_compute; reflexivity
  end.

(** C9.  [move_imports_to_top] writes the preamble, then the cells that
    import the runtime module, then the other cells, then the
    postamble; each of the two groups lists its cells in the order they
    have in the notebook, and together they are the cells of the
    notebook. *)
Theorem move_imports_to_top_partition content :
  ∃ pre cells post,
    _parse_notebook content = (pre, cells, post) ∧
    let imports := filter (λ c, is_import_cell c = true) cells in
    let others := filter (λ c, is_import_cell c ≠ true) cells in
    move_imports_to_top content = pre ++ Str.concat (imports ++ others) ++ post ∧
    imports `sublist_of` cells ∧
    others `sublist_of` cells ∧
    imports ++ others ≡ₚ cells.
Proof.
  destruct (_parse_notebook content) as [[pre cells] post] eqn:E.
  exists pre, cells, post. split; [done|]. cbn zeta. split_and!.
  - by rewrite (move_imports_to_top_eq _ _ _ _ E), reorder_filter.
  - apply sublist_filter.
  - apply sublist_filter.
  - apply (filter_app_complement (λ c, is_import_cell c = true)).
Qed.

Lemma parts_of_snoc pre ps parts d c :
  pre :: parts_of ps = parts ++ [d; c] →
  ∃ ps', ps = ps' ++ [(d, c)] ∧ parts = pre :: parts_of ps'.
Proof.
  destruct ps as [|[d' c'] ps' _] using rev_ind.
  - intros H. apply (f_equal length) in H. rewrite length_app in H.
    simpl in H. lia.
  - rewrite parts_of_app. cbn [parts_of mbind list_bind app fst snd].
    rewrite app_comm_cons. intros H.
    apply app_inj_2 in H as [H1 H2]; [|done].
    injection H2 as -> ->. by exists ps'.
Qed.

(** C10.  When the text after the last cell marker has a guard line
    that is not its first line, the text is the preamble, the cells, one
    line break and the postamble; writing the parse back, as
    [move_imports_to_top] and [prepend_markdown] do, leaves that line
    break out, so the result differs from the text even when the order
    of the cells is unchanged. *)
Theorem reassembly_drops_newline content parts d c actual g rest :
  Re.split content = parts ++ [d; c] →
  Str.split nl c = actual ++ g :: rest →
  actual ≠ [] →
  Forall (λ l, is_guard_line l = false) actual →
  is_guard_line g = true →
  ∃ pre cells post,
    _parse_notebook content = (pre, cells, post) ∧
    post = Str.join [nl] (g :: rest) ∧
    content = (pre ++ Str.concat cells) ++ nl :: post ∧
    (pre ++ Str.concat cells) ++ post ≠ content ∧
    (reorder cells = cells →
     move_imports_to_top content = (pre ++ Str.concat cells) ++ post) ∧
    (∀ md, prepend_markdown content md =
           pre ++ Str.concat (new_cells cells md) ++ Str.concat cells ++ post).
Proof.
  intros Hsplit Hlines Hne Hng Hg.
  destruct (parse_notebook_decomp content) as (pre & ps & Hc & _ & _ & Hs & Hp).
  rewrite Hs in Hsplit. apply parts_of_snoc in Hsplit as (ps' & -> & _).
  rewrite parse_cells_app in Hp by done. cbn [app] in Hp.
  rewrite (parse_cells_last_guard _ _ _ _ _ _ Hlines Hne Hng Hg) in Hp.
  cbn [fst snd] in Hp.
  exists pre, ((cat <$> ps') ++ [d ++ Str.join [nl] actual]), (Str.join [nl] (g :: rest)).
  assert (content = (pre ++ Str.concat ((cat <$> ps') ++ [d ++ Str.join [nl] actual]))
                    ++ nl :: Str.join [nl] (g :: rest)) as Hcontent.
  { rewrite Hc, flat_snoc, concat_app, concat_singleton, <- flat_concat.
    rewrite <- (join_split nl c) at 1. rewrite Hlines, join_app by done.
    by rewrite <- !(assoc_L (++)). }
  split_and!; [done | done | done | | |].
  - intros H. rewrite Hcontent in H. apply app_inv_head in H.
    apply (f_equal length) in H. simpl in H. lia.
  - intros Hre. rewrite (move_imports_to_top_eq _ _ _ _ Hp), Hre.
    by rewrite (assoc_L (++)).
  - intros md. by apply prepend_markdown_eq.
Qed.

Lemma reassembly_drops_newline_witness :
  ∃ pre cells post,
    _parse_notebook Samples.sorted_nb = (pre, cells, post) ∧
    post = Samples.main_guard ∧
    Samples.sorted_nb = (pre ++ Str.concat cells) ++ nl :: post ∧
    move_imports_to_top Samples.sorted_nb = (pre ++ Str.concat cells) ++ post.
Proof.
  destruct (reassembly_drops_newline Samples.sorted_nb
    [Samples.header; py "@app.cell";
     [nl] ++ ln "def __():" ++ ln "    import marimo as mo" ++
     ln "    return (mo,)" ++ ln "" ++ ln ""]
    (py "@app.cell")
    ([nl] ++ ln "def __():" ++ ln "    x = 1" ++ ln "    return (x,)" ++
     ln "" ++ ln "" ++ Samples.main_guard)
    [py ""; py "def __():"; py "    x = 1"; py "    return (x,)"; py ""; py ""]
    (py "if __name__ == " ++ [dquote] ++ py "__main__" ++ [dquote] ++ py ":")
    [py "    app.run()"; py ""])
    as (pre & cells & post & Hp & Hpost & Hc & _ & Hmove & _).
  - vm_compute. reflexivity.
  - vm_compute. reflexivity.
  - discriminate.
  - repeat (constructor; [vm_compute; reflexivity|]). constructor.
  - vm_compute. reflexivity.
  - exists pre, cells, post. split_and!; [done | | done |].
    + rewrite Hpost. vm_compute. reflexivity.
    + apply Hmove. clear -Hp.
      vm_compute in Hp. injection Hp as _ <- _. vm_compute. reflexivity.
Defined.

(** C3, amended.  A text without a cell marker parses as a preamble
    with no cell and an empty postamble; [move_imports_to_top] returns
    it unchanged; [prepend_markdown] returns it followed by a new import
    cell and a new display cell; [transform_notebook], once the file is
    read, fails only if the target cannot be written, writes the text
    itself when no markdown is to be prepended, and otherwise writes a
    text that begins with it. *)
Theorem no_marker_passthrough text :
  Str.contains MARKER text = false →
  _parse_notebook text = (text, [], []) ∧
  move_imports_to_top text = text ∧
  (∀ md, prepend_markdown text md = text ++ _create_markdown_cell md) ∧
  (∀ notebook_path output_path md move w,
     FS.read_text (World.files w) notebook_path = Py.Ok text →
     ∃ written,
       World.transform_notebook notebook_path output_path md move w =
         (World.on_files (λ t, FS.write_text t (default notebook_path output_path)
                                 written);;
          mret (default notebook_path output_path)) w ∧
       text `prefix_of` written ∧
       (Py.truthy md = false → written = text)).
Proof.
  intros Hfree.
  assert (_parse_notebook text = (text, [], [])) as Hparse.
  { unfold _parse_notebook. by rewrite split_no_marker. }
  assert (move_imports_to_top text = text) as Hmove.
  { rewrite (move_imports_to_top_eq _ _ _ _ Hparse). simpl. by rewrite app_nil_r. }
  assert (∀ md, prepend_markdown text md = text ++ _create_markdown_cell md) as Hprep.
  { intros md. unfold prepend_markdown. rewrite Hparse. simpl.
    by rewrite !app_nil_r. }
  split_and!; [done..|].
  intros notebook_path output_path md move w Hread.
  unfold World.transform_notebook.
  assert (∀ s, (∃ Y, s = text ++ Y ∧ (Y = [] ∨ head Y = Some "@")) →
               text `prefix_of` (if move then move_imports_to_top s else s)) as Hpre.
  { intros s (Y & -> & HY). destruct move; [|by exists Y].
    destruct (_parse_notebook (text ++ Y)) as [[pre cells] post] eqn:E.
    rewrite (move_imports_to_top_eq _ _ _ _ E).
    unfold _parse_notebook in E. rewrite split_app_free in E by done.
    destruct (Re.split Y) as [|p ps] eqn:F; [by apply split_not_nil in F|].
    simpl in E. destruct (parse_cells [] ps). injection E as <- <- <-.
    rewrite <- !(assoc_L (++)). by eexists. }
  destruct md as [[|c md]|]; cbn [Py.truthy].
  - exists (if move then move_imports_to_top text else text).
    split_and!.
    + unfold mbind, World.M_bind, World.get_files, World.lift. by rewrite Hread.
    + apply Hpre. exists []. split; [by rewrite app_nil_r | by left].
    + intros _. by destruct move.
  - exists (if move then move_imports_to_top (prepend_markdown text (c :: md))
            else prepend_markdown text (c :: md)).
    split_and!.
    + unfold mbind, World.M_bind, World.get_files, World.lift. by rewrite Hread.
    + apply Hpre. rewrite Hprep. eexists. split; [done | by right].
    + done.
  - exists (if move then move_imports_to_top text else text).
    split_and!.
    + unfold mbind, World.M_bind, World.get_files, World.lift. by rewrite Hread.
    + apply Hpre. exists []. split; [by rewrite app_nil_r | by left].
    + intros _. by destruct move.
Qed.

Lemma no_marker_passthrough_witness :
  _parse_notebook Samples.no_cell = (Samples.no_cell, [], []) ∧
  move_imports_to_top Samples.no_cell = Samples.no_cell ∧
  prepend_markdown Samples.no_cell (py "Warning") =
    Samples.no_cell ++ _create_markdown_cell (py "Warning").
Proof.
  destruct (no_marker_passthrough Samples.no_cell) as (H1 & H2 & H3 & _).
  - vm_compute. reflexivity.
  - split_and!; [exact H1 | exact H2 | apply H3].
Defined.

(** C3 as stated fails: on a text without a cell marker
    [prepend_markdown] is not a no-op. *)
Lemma prepend_markdown_changes_text_without_marker :
  Str.contains MARKER Samples.no_cell = false ∧
  prepend_markdown Samples.no_cell (py "Warning") ≠ Samples.no_cell.
Proof. split; [vm_compute; reflexivity | differ]. Qed.

(** C1 on a notebook that ends in the entry-point guard and has its
    import cell first: the order of the cells is left as it is, yet the
    text changes, and it changes again when the function is applied to
    its own result. *)
Theorem move_imports_to_top_guarded_notebook :
  (∃ pre cells post,
     _parse_notebook Samples.sorted_nb = (pre, cells, post) ∧
     reorder cells = cells) ∧
  move_imports_to_top Samples.sorted_nb ≠ Samples.sorted_nb ∧
  move_imports_to_top (move_imports_to_top Samples.sorted_nb) ≠
    move_imports_to_top Samples.sorted_nb.
Proof.
  split_and!; [|differ..].
  destruct (_parse_notebook Samples.sorted_nb) as [[pre cells] post] eqn:E.
  exists pre, cells, post. split; [done|].
  vm_compute in E. injection E as _ <- _. vm_compute. reflexivity.
Qed.

(** C2, amended.  Let the markdown hold no cell marker and, when the
    notebook has no cell, no guard text; let the postamble of the
    notebook be empty or follow an empty line after the last cell.
    Then the output of [prepend_markdown] parses into the same preamble
    and postamble and into the new cells followed by the cells of the
    notebook, the last of which may have lost its final line break: one
    new cell when a cell imports the runtime module as [mo], two
    otherwise, the markdown being in the last new cell. *)
Theorem prepend_markdown_reparse content md pre cells post :
  _parse_notebook content = (pre, cells, post) →
  Str.contains MARKER md = false →
  (cells = [] → Str.contains GUARD md = false) →
  (post ≠ [] → content = (pre ++ Str.concat cells) ++ nl :: post ∧
               ∃ t, Str.concat cells = t ++ [nl]) →
  ∃ cells',
    _parse_notebook (prepend_markdown content md) =
      (pre, new_cells cells md ++ cells', post) ∧
    Forall2 same_cell cells' cells ∧
    length (new_cells cells md ++ cells') =
      length cells + (if has_mo_import cells then 1 else 2) ∧
    last (new_cells cells md) = Some (display_cell md).
Proof.
  intros Hparse Hmd Hguard Hpost.
  destruct (parse_notebook_decomp content) as (pre0 & ps & Hc & Hpre & Hch & _ & Hp).
  rewrite Hparse in Hp. injection Hp as <- Hcells Hpost'.
  assert (parse_cells [] (parts_of ps) = (cells, post)) as Hpc.
  { rewrite Hcells, Hpost'. by destruct (parse_cells [] (parts_of ps)). }
  destruct (tail_stable ps cells post Hch Hpc)
    as (ps' & cells' & Hflat & Hch' & Hparse' & Hsame & Hnil).
  { intros Hne. destruct (Hpost Hne) as [Hcontent Ht]. split; [|done].
    rewrite Hc, <- (assoc_L (++)) in Hcontent. by apply app_inv_head in Hcontent. }
  exists cells'. split_and!.
  - rewrite (prepend_markdown_eq _ _ _ _ _ Hparse).
    replace (pre ++ Str.concat (new_cells cells md) ++ Str.concat cells ++ post)
      with (pre ++ flat (new_pairs cells md ++ ps'))
      by (by rewrite flat_app, Hflat, flat_concat, new_pairs_cells).
    unfold _parse_notebook.
    rewrite split_chain by (by apply chain_new_pairs || done). cbn [head tail default].
    destruct ps' as [|p' ps'].
    + destruct Hnil as [-> ->]; [done|]. injection Hparse' as <-.
      rewrite !app_nil_r. destruct (new_pairs_last [] md) as [qs Hqs].
      rewrite Hqs, parse_cells_app by done. cbn [app].
      rewrite parse_cells_last_noguard by (by apply display_body_no_guard, Hguard).
      by rewrite <- new_pairs_cells, Hqs, fmap_app.
    + rewrite parse_cells_app by done. cbn [app].
      by rewrite parse_cells_acc, Hparse', new_pairs_cells.
  - done.
  - rewrite length_app, (Forall2_length _ _ _ Hsame). unfold new_cells.
    destruct (has_mo_import cells); simpl; lia.
  - unfold new_cells. by destruct (has_mo_import cells).
Qed.

Lemma prepend_markdown_reparse_witness :
  ∃ pre cells post cells',
    _parse_notebook Samples.plain_nb = (pre, cells, post) ∧
    _parse_notebook (prepend_markdown Samples.plain_nb (py "Test")) =
      (pre, new_cells cells (py "Test") ++ cells', post) ∧
    length (new_cells cells (py "Test") ++ cells') = length cells + 2.
Proof.
  destruct (_parse_notebook Samples.plain_nb) as [[pre cells] post] eqn:E.
  destruct (prepend_markdown_reparse Samples.plain_nb (py "Test") pre cells post)
    as (cells' & H1 & _ & H2 & _); [done | ..].
  - vm_compute. reflexivity.
  - intros _. vm_compute. reflexivity.
  - intros _. vm_compute in E. injection E as <- <- <-. split.
    + vm_compute. reflexivity.
    + apply (proj1 (last_Some _ _)). vm_compute. reflexivity.
  - exists pre, cells, post, cells'. split_and!; [done | done |].
    rewrite H2. vm_compute in E. injection E as _ <- _. reflexivity.
Defined.

(** C2 as stated fails in three ways: a cell marker in the markdown
    adds a cell; a postamble directly below the last line of the last
    cell is not found again; a guard text in the markdown of a notebook
    without cells is taken for the postamble. *)
Lemma prepend_markdown_reparse_fails :
  (∃ pre cells post pre' cells' post',
     _parse_notebook Samples.one_cell = (pre, cells, post) ∧
     _parse_notebook (prepend_markdown Samples.one_cell (py "@app.cell")) =
       (pre', cells', post') ∧
     has_mo_import cells = false ∧ length cells = 1 ∧ length cells' = 4) ∧
  (∃ pre cells post pre' cells' post',
     _parse_notebook Samples.tight_guard = (pre, cells, post) ∧
     _parse_notebook (prepend_markdown Samples.tight_guard (py "Note")) =
       (pre', cells', post') ∧
     post = Samples.main_guard ∧ post' = []) ∧
  (∃ pre cells post pre' cells' post',
     _parse_notebook Samples.no_cell = (pre, cells, post) ∧
     _parse_notebook (prepend_markdown Samples.no_cell (py "if __name__")) =
       (pre', cells', post') ∧
     post = [] ∧ post' ≠ []).
Proof.
  split_and!.
  - do 6 eexists. split_and!; [vm_compute; reflexivity..].
  - do 6 eexists. split_and!; [vm_compute; reflexivity..].
  - do 6 eexists. split_and!; [vm_compute; reflexivity.. | ]. discriminate.
Qed.

End TransformClaims.

(** ** The claims about the gallery integration *)

Module GalleryClaims.
Import Py Path FS World Gallery Notions StrFacts.

(** C7.  [detect_sphinx_gallery] returns [True] exactly when the
    gallery extension is among the configured extensions and the
    gallery configuration is not empty; the object is marked as
    detected exactly then. *)
Theorem detect_sphinx_gallery_spec self :
  ((detect_sphinx_gallery self).1 = true ↔
     (∃ exts, extensions (config (app self)) = Some exts ∧ GEN_GALLERY ∈ exts) ∧
     (∃ conf, sphinx_gallery_conf (config (app self)) = Some conf ∧ conf ≠ [])) ∧
  gallery_detected (detect_sphinx_gallery self).2 =
    gallery_detected self || (detect_sphinx_gallery self).1.
Proof.
  unfold detect_sphinx_gallery.
  destruct (extensions (config (app self))) as [exts|].
  2: { split; [|by rewrite orb_false_r]. split; [done|]. by intros [(? & ? & _) _]. }
  destruct (decide (GEN_GALLERY ∈ exts)) as [Hin|Hin].
  - rewrite bool_decide_eq_true_2 by done. cbn [negb].
    destruct (sphinx_gallery_conf (config (app self))) as [[|kv conf]|]; simpl.
    + split; [|by rewrite orb_false_r]. split; [done|].
      by intros [_ (? & [= <-] & ?)].
    + split; [|by rewrite orb_true_r]. split; [|done]. intros _. split; eauto.
    + split; [|by rewrite orb_false_r]. split; [done|]. by intros [_ (? & ? & _)].
  - rewrite bool_decide_eq_false_2 by done. cbn [negb].
    split; [|by rewrite orb_false_r]. split; [done|].
    by intros [(? & [= <-] & ?) _].
Qed.

Lemma starts_with_any_spec docname dirs :
  starts_with_any docname dirs = true ↔ ∃ d, d ∈ dirs ∧ d `prefix_of` docname.
Proof.
  induction dirs as [|d dirs IH]; simpl.
  - split; [done|]. intros (d & Hd & _). by apply elem_of_nil in Hd.
  - destruct (Str.startswith d docname) eqn:E.
    + split; [|done]. intros _. exists d. split; [by left|].
      by apply startswith_spec in E.
    + rewrite IH. split.
      * intros (d' & Hd' & Hp). exists d'. split; [by right | done].
      * intros (d' & [->|Hd']%elem_of_cons & Hp); [|by eauto].
        destruct Hp as [r Hr]. rewrite Hr, startswith_app_same in E. done.
Qed.

(** When [gallery_dirs] is a list of names, [should_inject_launcher]
    is true exactly for the documents that begin with one of them,
    provided the gallery was detected. *)
Lemma should_inject_launcher_list self docname dirs :
  dict_get (py "gallery_dirs")
    (default [] (sphinx_gallery_conf (config (app self)))) = Some (VList dirs) →
  ∃ b, should_inject_launcher self docname = Ok b ∧
       (b = true ↔ gallery_detected self = true ∧
                   ∃ d, d ∈ dirs ∧ d `prefix_of` docname).
Proof.
  intros Hdirs. unfold should_inject_launcher.
  destruct (gallery_detected self); cbn [negb].
  - rewrite Hdirs. simpl. eexists. split; [done|].
    rewrite starts_with_any_spec. split; [by intros H | by intros [_ H]].
  - exists false. split; [done|]. by split; [|intros [? _]].
Qed.

(** C6 on the configuration of the project's own documentation, where
    [gallery_dirs] is the text [auto_examples]: the loop goes through
    the characters of the text, and a document outside the gallery that
    begins with one of them gets a launcher. *)
Theorem should_inject_launcher_text_dirs :
  let self := Samples.ready Samples.docs_config in
  gallery_detected self = true ∧
  dict_get (py "gallery_dirs")
    (default [] (sphinx_gallery_conf (config (app self)))) =
    Some (VStr (py "auto_examples")) ∧
  should_inject_launcher self (py "api/functions") = Ok true ∧
  ¬ py "auto_examples" `prefix_of` py "api/functions".
Proof.
  split_and!; [vm_compute; reflexivity..|].
  intros [r Hr]. discriminate Hr.
Qed.

Section Manifest.

Context (json_dump : nat → json → str).
Context (json_load : str → option json).
Context (py_str : json → str).

Lemma parent_div dir child : parent (div dir child) = dir.
Proof.
  unfold parent, div. rewrite length_app. simpl.
  replace (length dir + 1 - 1) with (length dir) by lia.
  by rewrite take_app_length.
Qed.

Lemma div_not_nil dir child : div dir child ≠ [].
Proof. unfold div. by destruct dir. Qed.

Lemma write_text_div t dir child s :
  is_dir t dir = true → t !! div dir child ≠ Some Dir →
  write_text t (div dir child) s = Ok (<[div dir child := File s]> t).
Proof.
  intros Hdir Hfile. unfold write_text. rewrite parent_div, Hdir.
  pose proof (div_not_nil dir child).
  destruct (div dir child) as [|c p]; [done|].
  by destruct (t !! (c :: p)) as [[]|].
Qed.

Lemma dict_get_entries k (d : dict str) :
  dict_get k ((λ kv, (kv.1, JStr kv.2)) <$> d) = JStr <$> dict_get k d.
Proof.
  induction d as [|[k' v] d IH]; [done|]. simpl. by destruct (decide (k = k')).
Qed.

(** C5.  In an existing output directory [_save_gallery_manifest]
    writes the serialization of
    [{"gallery_notebooks": mapping, "total_count": len(mapping)}]; if
    the JSON library reads its own serialization of that document back,
    the file holds a document whose count is the number of entries of
    the mapping and whose entries are those of the mapping. *)
Theorem manifest_round_trip self converted dir w :
  marimo_gallery_dir self = Some dir →
  is_dir (files w) dir = true →
  files w !! div dir MANIFEST ≠ Some Dir →
  json_load (json_dump 2 (manifest_doc converted)) = Some (manifest_doc converted) →
  ∃ w' text doc entries,
    _save_gallery_manifest json_dump self converted w = (Ok (), w') ∧
    read_text (files w') (div dir MANIFEST) = Ok text ∧
    text = json_dump 2 (manifest_doc converted) ∧
    json_load text = Some (JDict doc) ∧
    dict_get (py "total_count") doc = Some (JInt (Z.of_nat (length converted))) ∧
    dict_get (py "gallery_notebooks") doc = Some (JDict entries) ∧
    ∀ k, dict_get k entries = JStr <$> dict_get k converted.
Proof.
  intros Hdir Hexists Hfile Hjson.
  exists (set_files (<[div dir MANIFEST :=
                        File (json_dump 2 (manifest_doc converted))]> (files w)) w),
    (json_dump 2 (manifest_doc converted)),
    [(py "gallery_notebooks", JDict ((λ kv, (kv.1, JStr kv.2)) <$> converted));
     (py "total_count", JInt (Z.of_nat (length converted)))],
    ((λ kv, (kv.1, JStr kv.2)) <$> converted).
  split_and!.
  - unfold _save_gallery_manifest, mbind, M_bind. rewrite Hdir.
    unfold mret, M_ret, on_files. by rewrite write_text_div.
  - unfold read_text. cbn [files set_files]. by rewrite lookup_insert_eq.
  - done.
  - exact Hjson.
  - done.
  - done.
  - intros k. apply dict_get_entries.
Qed.

End Manifest.

Lemma manifest_round_trip_witness :
  ∃ w' doc entries,
    _save_gallery_manifest RefJson.dump (Samples.ready Samples.test_config)
      Samples.two_notebooks (Samples.empty_world Samples.directories) = (Ok (), w') ∧
    (text ← read_text (files w') (div Samples.gallery_dir MANIFEST);
     mret (RefJson.load text)) = Ok (Some (JDict doc)) ∧
    dict_get (py "total_count") doc = Some (JInt 2) ∧
    dict_get (py "gallery_notebooks") doc = Some (JDict entries) ∧
    dict_get (py "example1") entries = Some (JStr (py "marimo/gallery/example1.html")) ∧
    dict_get (py "example2") entries = Some (JStr (py "marimo/gallery/example2.html")).
Proof.
  destruct (manifest_round_trip RefJson.dump RefJson.load
              (Samples.ready Samples.test_config) Samples.two_notebooks
              Samples.gallery_dir (Samples.empty_world Samples.directories))
    as (w' & text & doc & entries & H1 & H2 & H3 & H4 & H5 & H6 & H7).
  - reflexivity.
  - vm_compute. reflexivity.
  - vm_compute. discriminate.
  - vm_compute. reflexivity.
  - exists w', doc, entries. split_and!; [done | | done | done | ..].
    + rewrite H2. simpl. by rewrite H4.
    + by rewrite H7.
    + by rewrite H7.
Defined.

Section NotebookInfo.

Context (json_load : str → option json).
Context (py_str : json → str).

Lemma lookup_manifest_found t manifest_path name info :
  lookup_manifest json_load py_str t manifest_path name = Ok (Some info) →
  ∃ text doc entries v,
    t !! manifest_path = Some (File text) ∧
    json_load text = Some (JDict doc) ∧
    dict_get (py "gallery_notebooks") doc = Some (JDict entries) ∧
    dict_get name entries = Some v ∧
    info = {| notebook_name := name;
              notebook_url := py "/_static/" ++ format_value py_str v |}.
Proof.
  unfold lookup_manifest, read_text.
  destruct (t !! manifest_path) as [[text|]|]; [|done..].
  cbn [mbind result_bind].
  destruct (json_load text) as [[| | | | | |doc]|] eqn:Hload; try done.
  cbn [mbind result_bind json_index].
  destruct (dict_get (py "gallery_notebooks") doc) as [x|] eqn:Hx;
    cbn [default]; [|done].
  destruct x as [| | | |s|l|entries]; try done; simpl.
  - by destruct (Str.contains name s).
  - by destruct (existsb _ l).
  - destruct (dict_get name entries) as [v|] eqn:Hv.
    + rewrite bool_decide_eq_true_2 by eauto. simpl.
      intros [= <-]. by exists text, doc, entries, v.
    + rewrite bool_decide_eq_false_2; [done|]. by intros [??].
Qed.

Lemma lookup_manifest_unreadable t manifest_path name :
  t !! manifest_path = None ∨ t !! manifest_path = Some Dir ∨
  (∃ text, t !! manifest_path = Some (File text) ∧ json_load text = None) →
  ∃ e, lookup_manifest json_load py_str t manifest_path name = Raise e.
Proof.
  unfold lookup_manifest, read_text.
  intros [->|[->|(text & -> & Hload)]]; [by eexists..|].
  cbn [mbind result_bind]. rewrite Hload. by eexists.
Qed.

Lemma lookup_manifest_ext t t2 manifest_path name :
  t2 !! manifest_path = t !! manifest_path →
  lookup_manifest json_load py_str t2 manifest_path name =
  lookup_manifest json_load py_str t manifest_path name.
Proof. unfold lookup_manifest, read_text. by intros ->. Qed.

Lemma exists_ext (t t2 : fs) p : t2 !! p = t !! p → exists_ t2 p = exists_ t p.
Proof. unfold exists_. by intros ->. Qed.

Lemma get_notebook_info_eq self docname inject dir w :
  should_inject_launcher self docname = Ok inject →
  marimo_gallery_dir self = Some dir →
  get_notebook_info json_load py_str self docname w =
    if inject && exists_ (files w) (div dir MANIFEST) then
      match lookup_manifest json_load py_str (files w) (div dir MANIFEST)
              (name_of_text docname) with
      | Ok r => (Ok r, w)
      | Raise e =>
          (Ok None,
           World (files w)
             (log w ++ [(ERROR, py "Failed to load Gallery manifest: " ++ message e)])
             (cache w))
      end
    else (Ok None, w).
Proof.
  intros Hinject Hdir. unfold get_notebook_info. rewrite Hdir.
  unfold mbind, M_bind, lift, get_files, catch. rewrite Hinject.
  destruct inject; [|done]. cbn [negb andb].
  destruct (exists_ (files w) (div dir MANIFEST)); [|done]. cbn [negb].
  by destruct (lookup_manifest _ _ _ _ _).
Qed.

(** C8.  When [should_inject_launcher] answers, [get_notebook_info]
    returns without raising and leaves the files alone.  It returns a
    record only if the answer was [True] and the manifest on disk is a
    JSON object whose [gallery_notebooks] object has the base name of
    the document as a key; the record holds that name and the URL made
    of its entry.  A manifest that is missing, is a directory or does
    not parse gives [None].  The result is determined by the manifest
    file of the world the call runs in. *)
Theorem get_notebook_info_spec self docname inject w :
  should_inject_launcher self docname = Ok inject →
  ∃ r w',
    get_notebook_info json_load py_str self docname w = (Ok r, w') ∧
    files w' = files w ∧
    (∀ info, r = Some info →
       inject = true ∧
       ∃ dir text doc entries v,
         marimo_gallery_dir self = Some dir ∧
         files w !! div dir MANIFEST = Some (File text) ∧
         json_load text = Some (JDict doc) ∧
         dict_get (py "gallery_notebooks") doc = Some (JDict entries) ∧
         dict_get (name_of_text docname) entries = Some v ∧
         info = {| notebook_name := name_of_text docname;
                   notebook_url := py "/_static/" ++ format_value py_str v |}) ∧
    (∀ dir, marimo_gallery_dir self = Some dir →
       files w !! div dir MANIFEST = None ∨
       files w !! div dir MANIFEST = Some Dir ∨
       (∃ text, files w !! div dir MANIFEST = Some (File text) ∧
                json_load text = None) →
       r = None) ∧
    (∀ w2,
       (∀ dir, marimo_gallery_dir self = Some dir →
               files w2 !! div dir MANIFEST = files w !! div dir MANIFEST) →
       (get_notebook_info json_load py_str self docname w2).1 = Ok r).
Proof.
  intros Hinject.
  destruct (marimo_gallery_dir self) as [dir|] eqn:Hdir.
  2: { exists None, w. unfold get_notebook_info. rewrite Hdir.
       split_and!; done. }
  assert (∀ w2, files w2 !! div dir MANIFEST = files w !! div dir MANIFEST →
          (get_notebook_info json_load py_str self docname w2).1 =
          (get_notebook_info json_load py_str self docname w).1) as Hfresh.
  { intros w2 Hw2. rewrite !(get_notebook_info_eq _ _ _ _ _ Hinject Hdir).
    rewrite (exists_ext (files w)), (lookup_manifest_ext (files w)) by done.
    destruct (inject && _); [|done]. by destruct (lookup_manifest _ _ _ _ _). }
  rewrite (get_notebook_info_eq _ _ _ _ _ Hinject Hdir) in *.
  destruct inject; cbn [andb] in *.
  2: { exists None, w. split_and!; try done. intros w2 Hw2. by apply Hfresh, Hw2. }
  destruct (exists_ (files w) (div dir MANIFEST)) eqn:Hex.
  2: { exists None, w. split_and!; try done. intros w2 Hw2. by apply Hfresh, Hw2. }
  destruct (lookup_manifest json_load py_str (files w) (div dir MANIFEST)
              (name_of_text docname)) as [r|e] eqn:Hlook.
  - exists r, w. split_and!; try done.
    + intros info ->. split; [done|].
      apply lookup_manifest_found in Hlook
        as (text & doc & entries & v & H1 & H2 & H3 & H4 & H5).
      by exists dir, text, doc, entries, v.
    + intros dir' [= <-] Hbad.
      apply (lookup_manifest_unreadable _ _ (name_of_text docname)) in Hbad as [e He].
      congruence.
    + intros w2 Hw2. by apply Hfresh, Hw2.
  - eexists None, _. split_and!; try done. intros w2 Hw2. by apply Hfresh, Hw2.
Qed.

End NotebookInfo.

Lemma get_notebook_info_spec_witness :
  let self := Samples.ready Samples.test_config in
  (get_notebook_info RefJson.load RefJson.to_str self
     (py "auto_examples/plot_scatter")
     (Samples.empty_world Samples.with_manifest)).1 =
    Ok (Some {| notebook_name := py "plot_scatter";
                notebook_url := py "/_static/marimo/gallery/plot_scatter.html" |}) ∧
  (get_notebook_info RefJson.load RefJson.to_str self
     (py "auto_examples/plot_scatter")
     (Samples.empty_world Samples.directories)).1 = Ok None.
Proof.
  intros self. split.
  - destruct (get_notebook_info_spec RefJson.load RefJson.to_str self
                (py "auto_examples/plot_scatter") true
                (Samples.empty_world Samples.with_manifest))
      as (r & w' & Hrun & _); [vm_compute; reflexivity|].
    vm_compute. reflexivity.
  - destruct (get_notebook_info_spec RefJson.load RefJson.to_str self
                (py "auto_examples/plot_scatter") true
                (Samples.empty_world Samples.directories))
      as (r & w' & Hrun & _ & _ & Hnone & _); [vm_compute; reflexivity|].
    rewrite Hrun. cbn [fst]. f_equal.
    apply (Hnone Samples.gallery_dir); [reflexivity|]. left.
    vm_compute. reflexivity.
Defined.

(** *** One notebook of a batch *)

Section Batch.

Context (json_dump : nat → json → str).
Context (marimo : list str → fs → result (CompletedProcess * option str)).

Lemma bind_run {A B} (m : M A) (k : A → M B) w :
  (m ≫= k) w =
  match m w with
  | (Ok a, w') => k a w'
  | (Raise e, w') => (Raise e, w')
  end.
Proof. done. Qed.

Lemma div_ne dir child : div dir child ≠ dir.
Proof.
  unfold div. intros H. apply (f_equal length) in H.
  rewrite length_app in H. simpl in H. lia.
Qed.

Lemma div_inj dir a b : div dir a = div dir b → a = b.
Proof. unfold div. by intros [= ->]%app_inv_head. Qed.

Lemma is_dir_insert_file t p s d :
  p ≠ d → is_dir (<[p := File s]> t) d = is_dir t d.
Proof. intros H. unfold is_dir. destruct d; [done|]. by rewrite lookup_insert_ne. Qed.

Lemma is_dir_delete t p d : p ≠ d → is_dir (delete p t) d = is_dir t d.
Proof. intros H. unfold is_dir. destruct d; [done|]. by rewrite lookup_delete_ne. Qed.

Lemma writable_insert dir P t child s :
  writable dir P t → writable dir P (<[div dir child := File s]> t).
Proof.
  intros [Hdir Hno]. split.
  - rewrite is_dir_insert_file; [done | apply div_ne].
  - intros c Hc. destruct (decide (c = child)) as [->|Hne].
    + by rewrite lookup_insert_eq.
    + rewrite lookup_insert_ne; [by apply Hno|]. by intros ?%div_inj.
Qed.

Lemma writable_delete dir P t child :
  writable dir P t → writable dir P (delete (div dir child) t).
Proof.
  intros [Hdir Hno]. split.
  - rewrite is_dir_delete; [done | apply div_ne].
  - intros c Hc. destruct (decide (c = child)) as [->|Hne].
    + by rewrite lookup_delete_eq.
    + rewrite lookup_delete_ne; [by apply Hno|]. by intros ?%div_inj.
Qed.

Lemma writable_after_run dir P t child written :
  writable dir P t → writable dir P (after_run (div dir child) written t).
Proof. destruct written; [apply writable_insert | done]. Qed.

Lemma files_ok_writable dir P t : files_ok dir t → writable dir P t.
Proof. intros [? H]. split; [done|]. intros c _. apply H. Qed.

Lemma set_files_same w : set_files (files w) w = w.
Proof. by destruct w. Qed.

(** The removal of the stale intermediate file. *)
Lemma unlink_stale {B} p (k : M B) w :
  p ≠ [] → files w !! p ≠ Some Dir →
  (t ← get_files;
   (if exists_ t p then on_files (λ t, unlink t p) else mret ());;
   k) w = k (set_files (delete p (files w)) w).
Proof.
  intros Hnil Hno. rewrite bind_run. unfold get_files. rewrite bind_run.
  destruct (exists_ (files w) p) eqn:Hex.
  - unfold on_files, unlink. unfold exists_ in Hex. destruct p as [|c p]; [done|].
    apply bool_decide_eq_true in Hex as [[s|] Hs]; [by rewrite Hs | done].
  - unfold exists_ in Hex. destruct p as [|c p]; [done|].
    apply bool_decide_eq_false in Hex. apply eq_None_not_Some in Hex.
    rewrite delete_id by done. by rewrite set_files_same.
Qed.

Lemma subprocess_run_eq args out p written w :
  marimo args (files w) = Ok (p, written) →
  subprocess_run marimo args out w =
    (Ok p, set_files (after_run out written (files w)) w).
Proof.
  intros H. unfold subprocess_run. rewrite H.
  destruct written; [done|]. cbn [after_run]. by rewrite set_files_same.
Qed.

Lemma nonzero_test (n : Z) : n ≠ 0%Z → negb (n =? 0)%Z = true.
Proof. intros H. apply negb_true_iff, Z.eqb_neq, H. Qed.

(** The three records and the exception of a call that failed. *)
Lemma log_and_raise {B} hd p msg (k : unit → M B) w :
  ((logger ERROR hd;;
    logger ERROR (py "  stdout: " ++ stdout p);;
    logger ERROR (py "  stderr: " ++ stderr p);;
    raise (Exn RuntimeError msg)) ≫= k) w =
  (Raise (Exn RuntimeError msg),
   World (files w)
     (log w ++ [(ERROR, hd); (ERROR, py "  stdout: " ++ stdout p);
                (ERROR, py "  stderr: " ++ stderr p)])
     (cache w)).
Proof.
  cbv [mbind M_bind logger raise]. cbn [files log cache].
  by rewrite <- !(assoc_L (++)).
Qed.

(** [_convert_notebook_impl] when [convert] exits with a status that
    is not zero. *)
Lemma impl_convert_fails ipynb pyf htmlf pm mv w p written :
  pyf ≠ [] → files w !! pyf ≠ Some Dir →
  marimo (convert_args ipynb pyf) (delete pyf (files w)) = Ok (p, written) →
  returncode p ≠ 0%Z →
  _convert_notebook_impl marimo ipynb pyf htmlf pm mv w =
    (Raise (Exn RuntimeError (py "marimo convert failed for " ++ name ipynb)),
     World (after_run pyf written (delete pyf (files w)))
       (log w ++ convert_log ipynb p) (cache w)).
Proof.
  intros Hnil Hno Hm Hrc. unfold _convert_notebook_impl.
  rewrite (unlink_stale pyf) by done.
  rewrite bind_run, (subprocess_run_eq _ _ p written) by done.
  rewrite (nonzero_test _ Hrc). cbv iota. by rewrite log_and_raise.
Qed.

(** [_convert_notebook_impl] when [convert] exits with status zero
    and has written the intermediate file. *)
Lemma impl_exports dir ipynb pm mv w p1 s p2 out :
  let pyf := py_file dir ipynb in
  let htmlf := html_file dir ipynb in
  let t1 := delete pyf (files w) in
  let t2 := <[pyf := File (transformed pm mv s)]> t1 in
  is_dir (files w) dir = true → files w !! pyf ≠ Some Dir →
  marimo (convert_args ipynb pyf) t1 = Ok (p1, Some s) →
  returncode p1 = 0%Z →
  marimo (export_args pyf htmlf) t2 = Ok (p2, out) →
  _convert_notebook_impl marimo ipynb pyf htmlf pm mv w =
    if (returncode p2 =? 0)%Z
    then (Ok htmlf, set_files (after_run htmlf out t2) w)
    else (Raise (Exn RuntimeError (py "marimo export failed for " ++ name ipynb)),
          World (after_run htmlf out t2) (log w ++ export_log ipynb p2) (cache w)).
Proof.
  intros pyf htmlf t1 t2 Hd Hno Hconv Hrc1 Hexp.
  unfold _convert_notebook_impl.
  rewrite (unlink_stale pyf) by (done || apply div_not_nil). fold t1.
  rewrite bind_run, (subprocess_run_eq _ _ p1 (Some s)) by done.
  rewrite bind_run, Hrc1. cbn [Z.eqb negb]. unfold mret at 1, M_ret at 1.
  rewrite bind_run. cbn [files set_files after_run].
  assert ((if truthy pm || mv
           then transform_notebook pyf (Some pyf) pm mv;; mret ()
           else mret ())
            (set_files (<[pyf := File s]> t1) (set_files t1 w))
          = (Ok (), set_files t2 w)) as ->.
  { unfold t2, transformed. destruct (truthy pm || mv) eqn:Hopt.
    - rewrite bind_run. unfold transform_notebook.
      rewrite bind_run. unfold get_files. rewrite bind_run. unfold lift, read_text.
      cbn [files set_files]. rewrite lookup_insert_eq. cbn [default].
      rewrite bind_run. unfold on_files. cbn [files set_files].
      unfold id, pyf, py_file. rewrite write_text_div.
      + cbn [set_files files log cache mret M_ret]. by rewrite insert_insert_eq.
      + rewrite is_dir_insert_file by apply div_ne.
        unfold t1, pyf, py_file. rewrite is_dir_delete by apply div_ne. done.
      + by rewrite lookup_insert_eq.
    - apply orb_false_iff in Hopt as [Hpm ->].
      destruct pm as [md|]; [rewrite Hpm|]; done. }
  rewrite bind_run, (subprocess_run_eq _ _ p2 out) by done.
  cbn [files set_files].
  destruct (returncode p2 =? 0)%Z; cbn [negb]; [done|].
  by rewrite log_and_raise.
Qed.

(** [_convert_notebook_standalone] when nothing is stored for the
    call. *)
Lemma standalone_miss dir g memory pm mv w :
  (∀ store, memory = Some store →
     cache w !! (store, (g, py_file dir g, html_file dir g, pm, mv)) = None) →
  _convert_notebook_standalone marimo g (Some dir) memory pm mv w =
    match _convert_notebook_impl marimo g (py_file dir g) (html_file dir g) pm mv w with
    | (Ok p, w1) =>
        (Ok (g, Some p),
         match memory with
         | Some store =>
             World (files w1) (log w1)
               (<[(store, (g, py_file dir g, html_file dir g, pm, mv)) := p]> (cache w1))
         | None => w1
         end)
    | (Raise e, w1) =>
        (Ok (g, None),
         World (files w1)
           (log w1 ++ [(ERROR, py "Failed to convert " ++ name g ++ py ": " ++ message e)])
           (cache w1))
    end.
Proof.
  intros Hmiss. unfold _convert_notebook_standalone, catch. rewrite bind_run.
  unfold mret at 1, M_ret at 1. rewrite bind_run.
  fold (py_file dir g) (html_file dir g).
  destruct memory as [store|].
  - unfold cached. rewrite (Hmiss store eq_refl).
    by destruct (_convert_notebook_impl _ _ _ _ _ _ w) as [[p|e] w1].
  - by destruct (_convert_notebook_impl _ _ _ _ _ _ w) as [[p|e] w1].
Qed.

(** [_convert_notebook_standalone] for a notebook whose conversion
    fails and for which nothing is cached. *)
Lemma standalone_fails dir f memory pm mv w :
  let pyf := py_file dir f in
  let htmlf := html_file dir f in
  let t1 := delete pyf (files w) in
  is_dir (files w) dir = true → files w !! pyf ≠ Some Dir →
  cache_ok f w →
  convert_fails marimo dir f ∨ export_fails marimo dir f →
  ∃ p written t msg logged,
    ((marimo (convert_args f pyf) t1 = Ok (p, written) ∧
      t = after_run pyf written t1 ∧
      msg = py "marimo convert failed for " ++ name f ∧
      logged = convert_log f p) ∨
     (∃ p1 s,
        marimo (convert_args f pyf) t1 = Ok (p1, Some s) ∧
        returncode p1 = 0%Z ∧
        marimo (export_args pyf htmlf) (<[pyf := File (transformed pm mv s)]> t1) =
          Ok (p, written) ∧
        t = after_run htmlf written (<[pyf := File (transformed pm mv s)]> t1) ∧
        msg = py "marimo export failed for " ++ name f ∧
        logged = export_log f p)) ∧
    returncode p ≠ 0%Z ∧
    _convert_notebook_impl marimo f pyf htmlf pm mv w =
      (Raise (Exn RuntimeError msg), World t (log w ++ logged) (cache w)) ∧
    _convert_notebook_standalone marimo f (Some dir) memory pm mv w =
      (Ok (f, None),
       World t
         (log w ++ logged ++
          [(ERROR, py "Failed to convert " ++ name f ++ py ": " ++ msg)])
         (cache w)).
Proof.
  intros pyf htmlf t1 Hd Hno Hcache Hfail.
  assert (∀ store, memory = Some store →
            cache w !! (store, (f, pyf, htmlf, pm, mv)) = None) as Hmiss.
  { intros store _. destruct (cache w !! _) as [v|] eqn:Hv; [|done].
    by destruct (Hcache _ _ _ Hv) as [_ ?]. }
  pose proof (standalone_miss dir f memory pm mv w Hmiss) as Hs.
  fold pyf htmlf in Hs.
  destruct Hfail as [Hfail|[Hconv Hfail]].
  - destruct (Hfail t1) as (p & written & Hm & Hrc). fold pyf in Hm.
    pose proof (impl_convert_fails f pyf htmlf pm mv w p written
                  (div_not_nil _ _) Hno Hm Hrc) as Himpl.
    exists p, written, (after_run pyf written t1),
      (py "marimo convert failed for " ++ name f), (convert_log f p).
    split_and!; [by left | done | done |].
    rewrite Hs, Himpl. cbn [files log cache message].
    by rewrite <- (assoc_L (++)).
  - destruct (Hconv t1) as (p1 & s & Hm & Hrc1). fold pyf in Hm.
    destruct (Hfail (<[pyf := File (transformed pm mv s)]> t1))
      as (p & written & Hm' & Hrc'). fold pyf htmlf in Hm'.
    pose proof (impl_exports dir f pm mv w p1 s p written Hd Hno Hm Hrc1 Hm')
      as Himpl. fold pyf htmlf t1 in Himpl.
    rewrite (proj2 (Z.eqb_neq _ _) Hrc') in Himpl.
    exists p, written, (after_run htmlf written (<[pyf := File (transformed pm mv s)]> t1)),
      (py "marimo export failed for " ++ name f), (export_log f p).
    split_and!; [right; by exists p1, s | done | done |].
    rewrite Hs, Himpl. cbn [files log cache message].
    by rewrite <- (assoc_L (++)).
Qed.

(** [_convert_notebook_standalone] for a notebook both calls succeed
    for. *)
Lemma standalone_succeeds dir f g memory pm mv w :
  g ≠ f → is_dir (files w) dir = true → files w !! py_file dir g ≠ Some Dir →
  cache_ok f w →
  tool_succeeds marimo dir g →
  ∃ w1,
    _convert_notebook_standalone marimo g (Some dir) memory pm mv w =
      (Ok (g, Some (html_file dir g)), w1) ∧
    log w1 = log w ∧ cache_ok f w1 ∧
    ∀ P, writable dir P (files w) → writable dir P (files w1).
Proof.
  intros Hne Hd Hno Hcache [Hconv Hexp].
  destruct (Hconv (delete (py_file dir g) (files w))) as (p1 & s & Hm & Hrc1).
  destruct (Hexp (<[py_file dir g := File (transformed pm mv s)]>
                    (delete (py_file dir g) (files w))))
    as (p2 & out & Hm' & Hrc2).
  pose proof (impl_exports dir g pm mv w p1 s p2 out Hd Hno Hm Hrc1 Hm') as Himpl.
  rewrite Hrc2 in Himpl. cbn [Z.eqb] in Himpl.
  assert (∀ P, writable dir P (files w) →
            writable dir P
              (after_run (html_file dir g) out
                 (<[py_file dir g := File (transformed pm mv s)]>
                    (delete (py_file dir g) (files w))))) as Hw.
  { intros P HP. apply writable_after_run, writable_insert, writable_delete, HP. }
  assert (memory = None ∨ ∃ store, memory = Some store) as [->|[store ->]]
    by (destruct memory; eauto).
  { rewrite standalone_miss by done. rewrite Himpl.
    eexists. split_and!; [reflexivity | done | done | done]. }
  destruct (cache w !! (store, (g, py_file dir g, html_file dir g, pm, mv)))
    as [v|] eqn:Hv.
  - destruct (Hcache _ _ _ Hv) as [-> _]. exists w. split_and!; [|done..].
    unfold _convert_notebook_standalone, catch. rewrite bind_run.
    unfold mret at 1, M_ret at 1. rewrite bind_run.
    fold (py_file dir g) (html_file dir g). unfold cached. by rewrite Hv.
  - rewrite standalone_miss by (by intros ? [= <-]). rewrite Himpl.
    eexists. split_and!; [reflexivity | done | | done].
    intros store' key v. cbn [cache set_files].
    destruct (decide ((store, (g, py_file dir g, html_file dir g, pm, mv))
                      = (store', key))) as [[= <- <-]|Hk].
    + rewrite lookup_insert_eq. by intros [= <-].
    + rewrite lookup_insert_ne by done. apply Hcache.
Qed.

(** *** The loops over the batch *)

Lemma relative_to_app base r : relative_to (base ++ r) base = Ok r.
Proof.
  induction base as [|b base IH]; [done|]. simpl. by rewrite decide_True by done.
Qed.

Lemma dict_set_fresh {V} k (v : V) (d : dict V) :
  k ∉ d.*1 → dict_set k v d = d ++ [(k, v)].
Proof.
  induction d as [|[k' v'] d IH]; [done|]. simpl.
  intros [Hne Hk]%not_elem_of_cons.
  rewrite decide_False by done. by rewrite IH.
Qed.

Lemma dict_get_app_fresh {V} k (d d' : dict V) :
  k ∉ d.*1 → dict_get k (d ++ d') = dict_get k d'.
Proof.
  induction d as [|[k' v'] d IH]; [done|]. simpl.
  intros [Hne Hk]%not_elem_of_cons. rewrite decide_False by done. by apply IH.
Qed.

Lemma dict_get_None {V} k (d : dict V) : k ∉ d.*1 → dict_get k d = None.
Proof.
  intros H. rewrite <- (app_nil_r d). by rewrite dict_get_app_fresh.
Qed.

Lemma entries_fst sub l : (entry sub <$> l).*1 = stem <$> l.
Proof. induction l as [|g l IH]; [done|]. cbn [fmap list_fmap]. by rewrite IH. Qed.

Lemma foldl_set_entry sub acc l :
  NoDup (acc.*1 ++ (stem <$> l)) → foldl (set_entry sub) acc l = acc ++ (entry sub <$> l).
Proof.
  revert acc. induction l as [|g l IH]; intros acc Hnd.
  - simpl. by rewrite app_nil_r.
  - cbn [foldl fmap list_fmap]. unfold set_entry at 2.
    change (entry sub g) with (stem g, rel_str (sub ++ [stem g ++ py ".html"])).
    rewrite dict_set_fresh.
    + rewrite IH; [by rewrite <- (assoc_L (++))|].
      rewrite fmap_app, <- (assoc_L (++)). done.
    + apply NoDup_app in Hnd as (_ & Hd & _). intros Hin.
      apply (Hd _ Hin). simpl. by left.
Qed.

Lemma dict_get_entry sub l g :
  NoDup (stem <$> l) → g ∈ l →
  dict_get (stem g) (entry sub <$> l) = Some (entry sub g).2.
Proof.
  induction l as [|h l IH]; intros Hnd Hg; [by apply elem_of_nil in Hg|].
  apply NoDup_cons in Hnd as [Hh Hnd]. cbn [fmap list_fmap dict_get entry fst].
  apply elem_of_cons in Hg as [->|Hg]; [by rewrite decide_True|].
  rewrite decide_False; [by apply IH|].
  intros Heq. apply Hh. rewrite <- Heq. by apply list_elem_of_fmap_2.
Qed.

Lemma stem_filter_NoDup f (l : list path) : NoDup (stem <$> l) → NoDup (stem <$> filter (λ g, g ≠ f) l).
Proof.
  intros H. eapply sublist_NoDup; [exact H | apply fmap_sublist, sublist_filter].
Qed.

Lemma stem_not_in_others f (l : list path) :
  NoDup (stem <$> l) → f ∈ l → stem f ∉ stem <$> filter (λ g, g ≠ f) l.
Proof.
  induction l as [|h l IH]; intros Hnd Hf; [by apply elem_of_nil in Hf|].
  apply NoDup_cons in Hnd as [Hh Hnd]. rewrite filter_cons.
  apply elem_of_cons in Hf as [->|Hf].
  - rewrite decide_False by (by intros ?). intros Hin. apply Hh.
    eapply list_elem_of_fmap in Hin as (g & Hg & Hin).
    apply list_elem_of_filter in Hin as [_ Hin]. rewrite Hg.
    by apply list_elem_of_fmap_2.
  - destruct (decide (h ≠ f)) as [Hne|_]; [|by apply IH].
    cbn [fmap list_fmap]. apply not_elem_of_cons. split; [|by apply IH].
    intros Heq. apply Hh. rewrite <- Heq. by apply list_elem_of_fmap_2.
Qed.

Lemma filter_ne_absent (f : path) (l : list path) :
  f ∉ l → filter (λ g, g ≠ f) l = l.
Proof.
  induction l as [|h l IH]; [done|]. intros [Hne Hl]%not_elem_of_cons.
  rewrite filter_cons, decide_True by done. by rewrite IH.
Qed.

Lemma length_filter_ne (f : path) (l : list path) :
  NoDup l → f ∈ l → length (filter (λ g, g ≠ f) l) = length l - 1.
Proof.
  induction l as [|h l IH]; intros Hnd Hf; [by apply elem_of_nil in Hf|].
  apply NoDup_cons in Hnd as [Hh Hnd]. rewrite filter_cons.
  apply elem_of_cons in Hf as [->|Hf].
  - rewrite decide_False by (by intros ?). rewrite filter_ne_absent by done.
    simpl. lia.
  - rewrite decide_True by (by intros ->). simpl. rewrite IH by done.
    destruct l; [by apply elem_of_nil in Hf | simpl; lia].
Qed.

Section Loops.

Context (self : Integration) (dir : path) (sub : list str) (f : path).
Context (P : str → Prop).
Context (Hdir : marimo_gallery_dir self = Some dir).
Context (Hsub : dir = div (outdir (app self)) (py "_static") ++ sub).
Context (Hfail : convert_fails marimo dir f ∨ export_fails marimo dir f).

Lemma record_converted_html acc g :
  record_converted self acc g (Some (html_file dir g)) = Ok (set_entry sub acc g).
Proof.
  unfold record_converted, html_file, div. rewrite Hsub.
  unfold div. rewrite <- (assoc_L (++)), relative_to_app. done.
Qed.

(** One turn of either loop. *)
Lemma loop_turn g w :
  writable dir P (files w) → P (stem g ++ py ".py") → cache_ok f w →
  (g ≠ f → tool_succeeds marimo dir g) →
  ∃ r w1,
    _convert_notebook_standalone marimo g (marimo_gallery_dir self) (memory self)
      (prepend_markdown self) (move_imports_to_top self) w = (Ok (g, r), w1) ∧
    r = (if decide (g = f) then None else Some (html_file dir g)) ∧
    writable dir P (files w1) ∧ cache_ok f w1.
Proof.
  intros Hok HP Hcache Hsucc. rewrite Hdir.
  pose proof Hok as [Hd Hno]. specialize (Hno _ HP).
  destruct (decide (g = f)) as [->|Hne].
  - destruct (standalone_fails dir f (memory self) (prepend_markdown self)
                (move_imports_to_top self) w Hd Hno Hcache Hfail)
      as (p & written & t & msg & logged & Ht & _ & _ & Hs).
    eexists _, _. split_and!; [exact Hs | done | | done].
    cbn [files]. destruct Ht as [(_ & -> & _)|(p1 & s & _ & _ & _ & -> & _)].
    + by apply writable_after_run, writable_delete.
    + by apply writable_after_run, writable_insert, writable_delete.
  - destruct (standalone_succeeds dir f g (memory self) (prepend_markdown self)
                (move_imports_to_top self) w Hne Hd Hno Hcache (Hsucc Hne))
      as (w1 & Hs & _ & Hc1 & Hok1).
    exists (Some (html_file dir g)), w1. split_and!; [done | done | by apply Hok1 | done].
Qed.

Lemma parallel_loop_spec batch acc w :
  writable dir P (files w) → cache_ok f w →
  (∀ g, g ∈ batch → P (stem g ++ py ".py")) →
  (∀ g, g ∈ batch → g ≠ f → tool_succeeds marimo dir g) →
  ∃ w1,
    parallel_loop marimo self batch acc w =
      (Ok (foldl (set_entry sub) acc (filter (λ g, g ≠ f) batch)), w1) ∧
    writable dir P (files w1) ∧ cache_ok f w1.
Proof.
  revert acc w. induction batch as [|g batch IH]; intros acc w Hok Hcache HP Hsucc.
  - by exists w.
  - destruct (loop_turn g w Hok) as (r & w1 & Hs & -> & Hok1 & Hc1);
      [apply HP; by left | done | |].
    { intros Hne. apply Hsucc; [by left | done]. }
    cbn [parallel_loop]. rewrite bind_run, Hs. cbv beta iota.
    rewrite bind_run. unfold lift. rewrite filter_cons.
    destruct (decide (g = f)) as [->|Hne].
    + rewrite decide_False by (by intros ?). cbn [record_converted].
      apply IH; [done..| |]; intros h Hh; [apply HP | apply Hsucc]; by right.
    + rewrite decide_True by done. rewrite record_converted_html.
      cbn [foldl]. apply IH; [done..| |]; intros h Hh; [apply HP | apply Hsucc]; by right.
Qed.

Lemma convert_sequential_spec batch acc w :
  writable dir P (files w) → cache_ok f w →
  (∀ g, g ∈ batch → P (stem g ++ py ".py")) →
  (∀ g, g ∈ batch → g ≠ f → tool_succeeds marimo dir g) →
  ∃ w1,
    convert_sequential marimo self batch acc w =
      (Ok (foldl (set_entry sub) acc (filter (λ g, g ≠ f) batch)), w1) ∧
    writable dir P (files w1) ∧ cache_ok f w1.
Proof.
  revert acc w. induction batch as [|g batch IH]; intros acc w Hok Hcache HP Hsucc.
  - by exists w.
  - destruct (loop_turn g w Hok) as (r & w1 & Hs & -> & Hok1 & Hc1);
      [apply HP; by left | done | |].
    { intros Hne. apply Hsucc; [by left | done]. }
    cbn [convert_sequential]. rewrite bind_run. unfold catch at 1.
    rewrite bind_run, Hs. cbv beta iota. unfold lift. rewrite filter_cons.
    destruct (decide (g = f)) as [->|Hne].
    + rewrite decide_False by (by intros ?). cbn [record_converted].
      apply IH; [done..| |]; intros h Hh; [apply HP | apply Hsucc]; by right.
    + rewrite decide_True by done. rewrite record_converted_html.
      cbn [foldl]. apply IH; [done..| |]; intros h Hh; [apply HP | apply Hsucc]; by right.
Qed.

End Loops.

(** The workers are set up for any number of jobs but zero. *)
Lemma convert_parallel_jobs self batch acc w :
  n_jobs self ≠ 0%Z →
  convert_parallel marimo self batch acc w = parallel_loop marimo self batch acc w.
Proof.
  intros H. unfold convert_parallel, Parallel.
  by rewrite (proj2 (Z.eqb_neq _ _) H).
Qed.


(** C4.  In a batch one of whose notebooks makes [convert], or
    [export] after it, exit with a status that is not zero, while the
    calls for the others succeed, with a number of jobs that is not
    zero if the build is parallel: [convert_gallery_notebooks] returns
    and writes a manifest with exactly one entry per other notebook, so
    one entry less than there are notebooks.  For the failing notebook,
    in any such world, [_convert_notebook_impl] logs the output captured
    from the call of [marimo] that failed and raises a [RuntimeError],
    which [_convert_notebook_standalone] logs and turns into the pair
    of the source file and [None]. *)
Theorem failing_notebook_is_isolated self w nbdir dir sub batch f :
  gallery_detected self = true →
  gallery_notebooks_dir self = Some nbdir →
  marimo_gallery_dir self = Some dir →
  dir = div (outdir (app self)) (py "_static") ++ sub →
  (parallel_build self = true → n_jobs self ≠ 0%Z) →
  exists_ (files w) nbdir = true →
  rglob_ipynb (files w) nbdir = batch →
  NoDup (stem <$> batch) →
  writable dir (outputs batch) (files w) →
  cache_ok f w →
  f ∈ batch →
  convert_fails marimo dir f ∨ export_fails marimo dir f →
  (∀ g, g ∈ batch → g ≠ f → tool_succeeds marimo dir g) →
  (∃ converted w',
     convert_gallery_notebooks json_dump marimo self w = (Ok converted, w') ∧
     converted = entry sub <$> filter (λ g, g ≠ f) batch ∧
     length converted = length batch - 1 ∧
     dict_get (stem f) converted = None ∧
     (∀ g, g ∈ batch → g ≠ f → dict_get (stem g) converted = Some (entry sub g).2) ∧
     read_text (files w') (div dir MANIFEST) =
       Ok (json_dump 2 (manifest_doc converted))) ∧
  (∀ w0, writable dir (outputs batch) (files w0) → cache_ok f w0 →
     let pyf := py_file dir f in
     let htmlf := html_file dir f in
     let pm := prepend_markdown self in
     let mv := move_imports_to_top self in
     let t1 := delete pyf (files w0) in
     ∃ p written t msg logged,
       ((marimo (convert_args f pyf) t1 = Ok (p, written) ∧
         t = after_run pyf written t1 ∧
         msg = py "marimo convert failed for " ++ name f ∧
         logged = convert_log f p) ∨
        (∃ p1 s,
           marimo (convert_args f pyf) t1 = Ok (p1, Some s) ∧
           returncode p1 = 0%Z ∧
           marimo (export_args pyf htmlf) (<[pyf := File (transformed pm mv s)]> t1) =
             Ok (p, written) ∧
           t = after_run htmlf written (<[pyf := File (transformed pm mv s)]> t1) ∧
           msg = py "marimo export failed for " ++ name f ∧
           logged = export_log f p)) ∧
       returncode p ≠ 0%Z ∧
       _convert_notebook_impl marimo f pyf htmlf pm mv w0 =
         (Raise (Exn RuntimeError msg), World t (log w0 ++ logged) (cache w0)) ∧
       _convert_notebook_standalone marimo f (Some dir) (memory self) pm mv w0 =
         (Ok (f, None),
          World t
            (log w0 ++ logged ++
             [(ERROR, py "Failed to convert " ++ name f ++ py ": " ++ msg)])
            (cache w0))).
Proof.
  intros Hdet Hnb Hdir Hsub Hjobs Hex Hglob Hnd Hok Hcache Hf Hfail Hsucc.
  assert (∀ g, g ∈ batch → outputs batch (stem g ++ py ".py")) as HP.
  { intros g Hg. right. exists g. split; [done | by left]. }
  split.
  - set (converted := entry sub <$> filter (λ g, g ≠ f) batch).
    assert (foldl (set_entry sub) [] (filter (λ g, g ≠ f) batch) = converted) as Hfold.
    { apply (foldl_set_entry sub []). cbn [fmap list_fmap app].
      by apply stem_filter_NoDup. }
    assert (∃ w1,
      (if parallel_build self && bool_decide (0 < length batch)
       then convert_parallel marimo self batch []
       else convert_sequential marimo self batch []) w = (Ok converted, w1) ∧
      writable dir (outputs batch) (files w1)) as (w1 & Hloop & Hok1).
    { destruct (parallel_build self) eqn:Hpar; cbn [andb];
        [destruct (bool_decide (0 < length batch))|].
      - rewrite convert_parallel_jobs by (by apply Hjobs).
        destruct (parallel_loop_spec self dir sub f (outputs batch) Hdir Hsub Hfail
                    batch [] w) as (w1 & Hl & ? & _); [done..|].
        exists w1. by rewrite Hl, Hfold.
      - destruct (convert_sequential_spec self dir sub f (outputs batch) Hdir Hsub Hfail
                    batch [] w) as (w1 & Hl & ? & _); [done..|].
        exists w1. by rewrite Hl, Hfold.
      - destruct (convert_sequential_spec self dir sub f (outputs batch) Hdir Hsub Hfail
                    batch [] w) as (w1 & Hl & ? & _); [done..|].
        exists w1. by rewrite Hl, Hfold. }
    exists converted. eexists. split_and!.
    + unfold convert_gallery_notebooks. rewrite Hdet, Hnb.
      rewrite bind_run. unfold get_files. rewrite Hex. cbn [negb].
      rewrite Hglob, bind_run, Hloop. rewrite bind_run.
      unfold _save_gallery_manifest. rewrite Hdir. rewrite bind_run.
      unfold mret at 1, M_ret at 1. unfold on_files.
      destruct Hok1 as [Hd Hno]. rewrite write_text_div; [reflexivity | done |].
      apply Hno. by left.
    + done.
    + unfold converted. rewrite length_fmap. apply length_filter_ne; [|done].
      by apply NoDup_fmap_1 in Hnd.
    + apply dict_get_None. unfold converted. rewrite entries_fst.
      by apply stem_not_in_others.
    + intros g Hg Hne. apply dict_get_entry; [by apply stem_filter_NoDup|].
      by apply list_elem_of_filter.
    + unfold read_text. cbn [files set_files]. by rewrite lookup_insert_eq.
  - intros w0 [Hd0 Hno0] Hcache0.
    apply standalone_fails; [done | by apply Hno0, HP | done | done].
Qed.

End Batch.

Lemma sample_marimo_succeeds dir g :
  to_str g ≠ to_str (Samples.notebook "plot_c.ipynb") →
  tool_succeeds Samples.marimo dir g.
Proof.
  intros Hne. split; intros t.
  - eexists _, _. unfold convert_args, Samples.marimo.
    rewrite bool_decide_eq_false_2 by done. done.
  - by eexists _, _.
Qed.

Lemma sample_marimo_fails dir :
  convert_fails Samples.marimo dir (Samples.notebook "plot_c.ipynb").
Proof.
  intros t. eexists _, _. unfold convert_args, Samples.marimo.
  rewrite bool_decide_eq_true_2 by done. done.
Qed.

(** C4 as stated fails when two notebooks of the batch have the
    same stem: of five notebooks one fails and four are converted, but
    the manifest has three entries. *)
Lemma colliding_stems_share_an_entry :
  let self := Samples.ready Samples.test_config in
  let w := Samples.empty_world Samples.colliding_notebooks in
  let batch := rglob_ipynb (files w) [py "build"; py "_downloads"] in
  length batch = 5 ∧
  convert_fails Samples.marimo Samples.gallery_dir (Samples.notebook "plot_c.ipynb") ∧
  (∀ g, g ∈ batch → g ≠ Samples.notebook "plot_c.ipynb" →
        tool_succeeds Samples.marimo Samples.gallery_dir g) ∧
  (convert_gallery_notebooks RefJson.dump Samples.marimo self w).1 =
    Ok [(py "plot_a", py "marimo/gallery/plot_a.html");
        (py "plot_b", py "marimo/gallery/plot_b.html");
        (py "plot_d", py "marimo/gallery/plot_d.html")].
Proof.
  intros self w batch. split_and!.
  - vm_compute. reflexivity.
  - apply sample_marimo_fails.
  - intros g Hg Hne. apply sample_marimo_succeeds. vm_compute in Hg.
    repeat (apply elem_of_cons in Hg as [->|Hg]); try (by apply elem_of_nil in Hg);
      try done; by vm_compute.
  - vm_compute. reflexivity.
Qed.

Lemma failing_notebook_is_isolated_witness :
  let self := Samples.ready Samples.docs_config in
  let w := Samples.empty_world Samples.five_notebooks in
  let f := Samples.notebook "plot_c.ipynb" in
  parallel_build self = true ∧
  (∃ converted w',
     length (rglob_ipynb (files w) [py "build"; py "_downloads"]) = 5 ∧
     convert_gallery_notebooks RefJson.dump Samples.marimo self w = (Ok converted, w') ∧
     length converted = 4 ∧
     dict_get (py "plot_c") converted = None ∧
     dict_get (py "plot_d") converted = Some (py "marimo/gallery/plot_d.html")) ∧
  (∃ p w1,
     stderr p = py "not a notebook" ∧
     _convert_notebook_standalone Samples.marimo f (Some Samples.gallery_dir) None
       (Some (py "Note")) true w = (Ok (f, None), w1) ∧
     log w1 =
       convert_log f p ++
       [(ERROR, py "Failed to convert plot_c.ipynb: marimo convert failed for plot_c.ipynb")]).
Proof.
  intros self w f.
  assert (writable Samples.gallery_dir
            (outputs (rglob_ipynb (files w) [py "build"; py "_downloads"]))
            (files w)) as Hwr.
  { apply files_ok_writable.
    assert (map_Forall (λ p n, n = Dir → length p ≤ 4) Samples.five_notebooks) as Hdirs.
    { apply (bool_decide_unpack _). vm_compute. exact I. }
    split; [vm_compute; reflexivity|]. intros child Hchild.
    pose proof (Hdirs _ _ Hchild eq_refl) as Hlong.
    unfold div in Hlong. rewrite length_app in Hlong. simpl in Hlong. lia. }
  assert (cache_ok f w) as Hcache.
  { intros store key v. unfold w, Samples.empty_world. cbn [cache].
    by rewrite lookup_empty. }
  destruct (failing_notebook_is_isolated RefJson.dump Samples.marimo self w
              [py "build"; py "_downloads"] Samples.gallery_dir
              [py "marimo"; py "gallery"]
              (rglob_ipynb (files w) [py "build"; py "_downloads"]) f)
    as [(converted & w' & Hrun & _ & Hlen & Hc & Hd & _) Hone].
  - reflexivity.
  - reflexivity.
  - reflexivity.
  - reflexivity.
  - intros _. discriminate.
  - vm_compute. reflexivity.
  - reflexivity.
  - apply (bool_decide_unpack _). vm_compute. exact I.
  - exact Hwr.
  - exact Hcache.
  - apply (bool_decide_unpack _). vm_compute. exact I.
  - left. apply sample_marimo_fails.
  - intros g Hg Hne. apply sample_marimo_succeeds. vm_compute in Hg.
    repeat (apply elem_of_cons in Hg as [->|Hg]); try (by apply elem_of_nil in Hg);
      try done; by vm_compute.
  - split_and!.
    + reflexivity.
    + exists converted, w'. split_and!.
      * vm_compute. reflexivity.
      * exact Hrun.
      * rewrite Hlen. vm_compute. reflexivity.
      * exact Hc.
      * refine (Hd (Samples.notebook "plot_d.ipynb") _ _);
          [apply (bool_decide_unpack _); vm_compute; exact I | discriminate].
    + destruct (Hone w Hwr Hcache) as (p & written & t & msg & logged & Ht & _ & _ & Hs).
      assert (∀ t0, Samples.marimo (convert_args f (py_file Samples.gallery_dir f)) t0 =
                Ok ({| returncode := 1; stdout := []; stderr := py "not a notebook" |},
                    None)) as Hm.
      { intros t0. unfold convert_args, Samples.marimo.
        by rewrite bool_decide_eq_true_2. }
      destruct Ht as [(Hp & -> & -> & ->)|(p1 & s & Hp & _)];
        rewrite Hm in Hp; [|discriminate].
      injection Hp as <- <-.
      exists {| returncode := 1; stdout := []; stderr := py "not a notebook" |}.
      eexists. split_and!; [reflexivity | exact Hs | reflexivity].
Defined.

End GalleryClaims.

(** ** Further properties of the transformer *)

Module TransformProps.
Import Notions.
Import Str StrFacts Re ReFacts Cells Transform TransformFacts.

(** The three ways the text after the last marker is read: no guard
    line; a guard line below other lines; a guard line first. *)
Lemma parse_cells_cases ps :
  parse_cells [] (parts_of ps) = (cat <$> ps, []) ∨
  (∃ ps' d c a g rest,
     ps = ps' ++ [(d, c)] ∧ Str.split nl c = a ++ g :: rest ∧ a ≠ [] ∧
     Forall (λ l, is_guard_line l = false) a ∧ is_guard_line g = true ∧
     parse_cells [] (parts_of ps) =
       ((cat <$> ps') ++ [d ++ join [nl] a], join [nl] (g :: rest))) ∨
  (∃ ps' d c g rest,
     ps = ps' ++ [(d, c)] ∧ Str.split nl c = g :: rest ∧ is_guard_line g = true ∧
     parse_cells [] (parts_of ps) = (cat <$> ps', c)).
Proof.
  destruct ps as [|[d c] ps' _] using rev_ind; [by left|].
  rewrite parse_cells_app by done. cbn [app].
  destruct (span_guard (Str.split nl c)) as [a p] eqn:E.
  pose proof (span_guard_inv _ _ _ E) as (Hl & Ha & Hp).
  destruct Hp as [-> | (g & r & -> & Hg)].
  - left. rewrite parse_cells_last_plain by (by rewrite E). by rewrite fmap_app.
  - destruct a as [|a0 a].
    + right; right. exists ps', d, c, g, r. split_and!; [done..|].
      by apply parse_cells_last_dropped with g r.
    + right; left. exists ps', d, c, (a0 :: a), g, r. split_and!; [done..|].
      by apply parse_cells_last_guard.
Qed.

Lemma chain_markers ps :
  chain ps → Forall (λ p, ∃ args, p.1 = MARKER ++ args) ps.
Proof.
  induction 1 as [|d c ps H _ _ IH]; constructor; [|done].
  apply cell_marker_inv in H as (_ & args & -> & _). by exists args.
Qed.

Lemma concat_parts_of ps : Str.concat (parts_of ps) = flat ps.
Proof.
  induction ps as [|[d c] ps IH]; [done|].
  rewrite flat_cons, <- IH. unfold Str.concat. simpl. by rewrite <- ?app_assoc.
Qed.

Lemma contains_flat_false q ps :
  contains q (flat ps) = false → Forall (λ p, contains q (cat p) = false) ps.
Proof.
  induction ps as [|[d c] ps IH]; [constructor|].
  rewrite flat_cons, app_assoc. intros [H1 H2]%contains_app_false.
  constructor; [done | by apply IH].
Qed.

(** X1.  The parse of any text: the preamble is the text before the
    first cell marker, so it holds no marker and, when the text has a
    marker, is directly followed by one; every cell begins with a cell
    marker. *)
Theorem parse_notebook_shape content :
  ∃ pre cells post,
    _parse_notebook content = (pre, cells, post) ∧
    pre `prefix_of` content ∧
    contains MARKER pre = false ∧
    (contains MARKER content = true → (pre ++ MARKER) `prefix_of` content) ∧
    Forall (λ cell, startswith MARKER cell = true) cells.
Proof.
  destruct (parse_notebook_decomp content) as (pre & ps & Hc & Hpre & Hch & _ & Hp).
  eexists _, _, _. split; [exact Hp|]. split_and!.
  - by exists (flat ps).
  - done.
  - intros Hm. destruct Hch as [|d c ps H _ _].
    + rewrite Hc in Hm. unfold flat in Hm. simpl in Hm.
      rewrite app_nil_r in Hm. congruence.
    + apply cell_marker_inv in H as (_ & args & -> & _).
      rewrite Hc, flat_cons. exists (args ++ c ++ flat ps).
      by rewrite <- !app_assoc.
  - pose proof (chain_markers _ Hch) as Hm.
    assert (Forall (λ cell, startswith MARKER cell = true) (cat <$> ps)) as Hall.
    { apply Forall_fmap. eapply Forall_impl; [exact Hm|].
      intros [d c] [args Hd]. cbn [fst] in Hd. subst d. unfold cat. cbn [fst snd].
      apply startswith_spec. exists (args ++ c). cbn [fst snd].
      by rewrite <- app_assoc. }
    destruct (parse_cells_cases ps) as
      [-> | [(ps' & d & c & a & g & rest & -> & _ & _ & _ & _ & ->)
            | (ps' & d & c & g & rest & -> & _ & _ & ->)]]; cbn [fst].
    + done.
    + rewrite fmap_app in Hall. apply Forall_app in Hall as [H1 H2].
      apply Forall_app. split; [done|]. constructor; [|constructor].
      apply Forall_app in Hm as [_ Hd]. apply Forall_singleton in Hd as [args Hd].
      cbn [fst] in Hd. subst d. apply startswith_spec.
      exists (args ++ join [nl] a). by rewrite <- app_assoc.
    + rewrite fmap_app in Hall. by apply Forall_app in Hall as [H1 _].
Qed.

(** X2.  [re.split] with its capturing group gives an odd number of
    parts, which put together are the text again; so every marker has a
    text after it and the branch of [_parse_notebook] for a last
    decorator without content is never taken.  The number of cells is
    the number of markers, or one less when the last cell holds nothing
    but the guard, which then is the postamble. *)
Theorem parse_notebook_count content :
  ∃ markers pre cells post,
    _parse_notebook content = (pre, cells, post) ∧
    length (Re.split content) = 2 * markers + 1 ∧
    Str.concat (Re.split content) = content ∧
    (length cells = markers ∨ length cells + 1 = markers ∧ post ≠ []).
Proof.
  destruct (parse_notebook_decomp content) as (pre & ps & Hc & Hpre & Hch & Hs & Hp).
  exists (length ps). eexists _, _, _. split; [exact Hp|]. split_and!.
  - rewrite Hs. simpl. f_equal. clear. induction ps as [|[d c] ps IH]; simpl; [done|].
    change (parts_of ((d, c) :: ps)) with (d :: c :: parts_of ps). simpl. lia.
  - rewrite Hs, Hc, <- concat_parts_of. done.
  - destruct (parse_cells_cases ps) as
      [-> | [(ps' & d & c & a & g & rest & -> & _ & _ & _ & _ & ->)
            | (ps' & d & c & g & rest & -> & Hl & Hg & ->)]]; cbn [fst snd].
    + left. by rewrite length_fmap.
    + left. rewrite !length_app, length_fmap. done.
    + right. rewrite length_app, length_fmap. split; [done|].
      rewrite <- (join_split nl c), Hl. by apply guard_text_nonempty.
Qed.

(** The text in terms of its parse: nothing is lost when there is no
    postamble; otherwise a line break, or the marker of a cell that
    holds nothing but the guard, is missing from the parse. *)
Lemma parse_notebook_cases content :
  ∃ pre cells post,
    _parse_notebook content = (pre, cells, post) ∧
    ((post = [] ∧ content = pre ++ Str.concat cells) ∨
     (∃ g rest, post = join [nl] (g :: rest) ∧ is_guard_line g = true ∧
        (content = pre ++ Str.concat cells ++ nl :: post ∨
         ∃ d, d ≠ [] ∧ content = pre ++ Str.concat cells ++ d ++ post))).
Proof.
  destruct (parse_notebook_decomp content) as (pre & ps & Hc & Hpre & Hch & Hs & Hp).
  eexists _, _, _. split; [exact Hp|].
  destruct (parse_cells_cases ps) as
    [-> | [(ps' & d & c & a & g & rest & -> & Hl & Ha & Hng & Hg & ->)
          | (ps' & d & c & g & rest & -> & Hl & Hg & ->)]]; cbn [fst snd].
  - left. by rewrite <- flat_concat.
  - right. exists g, rest. split_and!; [done..|]. left.
    rewrite Hc, flat_snoc, concat_app, concat_singleton, <- flat_concat.
    rewrite <- (join_split nl c) at 1. rewrite Hl, join_app by done.
    by rewrite <- !app_assoc.
  - right. exists g, rest. split_and!; [by rewrite <- Hl, join_split | done |].
    right. exists d. split.
    + apply chain_last in Hch as [Hm _].
      apply cell_marker_inv in Hm as (_ & args & -> & _). done.
    + by rewrite Hc, flat_snoc, <- flat_concat, <- ?app_assoc.
Qed.

(** X3.  Writing a parse back, preamble, cells, postamble, gives the
    text again exactly when the postamble is empty, and never a longer
    text.  The postamble is empty when the text holds no [if __name__];
    a postamble that is not empty begins with a guard line. *)
Theorem parse_notebook_reassembly content :
  ∃ pre cells post,
    _parse_notebook content = (pre, cells, post) ∧
    (pre ++ Str.concat cells ++ post = content ↔ post = []) ∧
    (contains GUARD content = false → post = []) ∧
    length (pre ++ Str.concat cells ++ post) ≤ length content ∧
    (post ≠ [] → ∃ g rest, post = join [nl] (g :: rest) ∧ is_guard_line g = true).
Proof.
  destruct (parse_notebook_cases content) as (pre & cells & post & Hp & H).
  exists pre, cells, post. split; [done|].
  destruct H as [[-> Hc] | (g & rest & Hpost & Hg & H)].
  - rewrite app_nil_r, <- Hc. split_and!; done.
  - assert (post ≠ []) as Hne by (rewrite Hpost; by apply guard_text_nonempty).
    assert (length (pre ++ Str.concat cells ++ post) < length content) as Hlen.
    { destruct H as [-> | (d & Hd & ->)]; repeat (rewrite ?length_app; simpl);
        [lia|]. destruct d; [done | simpl; lia]. }
    split_and!.
    + split; [|done]. intros H'. rewrite H' in Hlen. lia.
    + intros Hfree. exfalso.
      assert (contains GUARD post = true) as Hin.
      { rewrite Hpost. destruct (join_head [nl] g rest) as [t ->].
        by apply contains_app_l, guard_line_contains. }
      assert (contains GUARD content = true); [|congruence].
      destruct H as [-> | (d & Hd & ->)].
      * apply contains_app_r, contains_app_r.
        by apply (contains_app_r _ [nl]).
      * by do 3 apply contains_app_r.
    + lia.
    + intros _. by exists g, rest.
Qed.

(** *** Cells in another order *)

Lemma marker_follow d x x' :
  cell_marker (d ++ x) = Some (d, x) →
  (d = MARKER → head x' = Some "(" → head x = Some "(" ∧ (")" ∈ x' → ")" ∈ x)) →
  cell_marker (d ++ x') = Some (d, x').
Proof.
  intros H Hx. apply cell_marker_inv in H as (_ & args & -> & H).
  apply cell_marker_intro. destruct args as [|a args].
  - cbn [app] in *. destruct x' as [|c t']; [done|].
    cbn [opt_args]. destruct (Ascii.eqb c "(") eqn:E; [|done].
    apply Ascii.eqb_eq in E as ->.
    destruct Hx as [Hh Hin]; [by rewrite app_nil_r | done |].
    destruct x as [|c0 t]; [done|]. injection Hh as ->.
    cbn [opt_args] in H. rewrite eqb_refl' in H.
    destruct (upto_close t) as [[m r]|] eqn:F; [done|].
    apply upto_close_None in F.
    assert (upto_close t' = None) as ->; [|done].
    apply upto_close_None. intros Ht'.
    assert (")" ∈ "(" :: t) as Hc by (apply Hin; by right).
    apply elem_of_cons in Hc as [?|?]; done.
  - cbn [app opt_args] in *. destruct (Ascii.eqb a "("); [|by injection H].
    destruct (upto_close (args ++ x)) as [[m r]|] eqn:F.
    + injection H as -> ->. by rewrite (upto_close_app _ _ x' F).
    + by injection H.
Qed.

Lemma chain_heads ps : chain ps → Forall (λ p, head (cat p) = Some "@") ps.
Proof.
  intros H. eapply Forall_impl; [by apply chain_markers|].
  intros [d c] [args Hd]. cbn [fst] in Hd. by subst d.
Qed.

Lemma heads_flat ps :
  Forall (λ p, head (cat p) = Some "@") ps → flat ps = [] ∨ head (flat ps) = Some "@".
Proof.
  destruct 1 as [|[d c] ps H _]; [by left|]. right.
  rewrite flat_cons. unfold cat in H. cbn [fst snd] in H.
  rewrite app_assoc. by destruct (d ++ c).
Qed.

Lemma flat_elem_sublist qs ps ch :
  qs `sublist_of` ps → ch ∈ flat qs → ch ∈ flat ps.
Proof.
  intros Hsub. unfold flat, Str.concat. rewrite !list_elem_of_join.
  intros (l & Hch & Hl). exists l. split; [done|].
  eapply elem_of_sublist; [done|]. by apply fmap_sublist.
Qed.

(** A part of the cells of a notebook, in their order, is split into
    the same cells. *)
Lemma chain_sublist qs ps : qs `sublist_of` ps → chain ps → chain qs.
Proof.
  induction 1 as [|p qs ps Hsub IH|p qs ps Hsub IH]; intros Hch.
  - constructor.
  - inversion Hch as [|d c ps' H Hc Hps]; subst.
    specialize (IH Hps). constructor; [|done|done].
    apply marker_follow with (c ++ flat ps); [done|].
    intros -> Hh. destruct c as [|c0 c].
    + exfalso. cbn [app] in Hh.
      destruct (chain_flat_start _ IH) as [E|E]; rewrite E in Hh; done.
    + split; [done|]. rewrite !elem_of_app. intros [?|Hin]; [by left|right].
      by apply (flat_elem_sublist qs).
  - inversion Hch; subst. by apply IH.
Qed.

Lemma chain_app_closed ps qs :
  chain ps → chain qs →
  (∀ p, p ∈ ps → open_cell p → ")" ∉ flat qs) →
  chain (ps ++ qs).
Proof.
  intros Hps Hqs. induction Hps as [|d c ps H Hc Hps IH]; intros Hopen; [done|].
  assert (chain (ps ++ qs)) as Hrest.
  { apply IH. intros p Hp. apply Hopen. by right. }
  cbn [app]. constructor; [|done|done].
  apply marker_follow with (c ++ flat ps); [done|].
  intros -> Hh. destruct c as [|c0 c].
  - exfalso. cbn [app] in Hh.
    destruct (chain_flat_start _ Hrest) as [E|E]; rewrite E in Hh; done.
  - split; [done|]. cbn [app head] in Hh. injection Hh as ->.
    rewrite flat_app, !elem_of_app. intros [?|[?|Hin]]; [by left | by right |].
    exfalso. revert Hin. apply (Hopen (MARKER, "(" :: c)); [by left | done].
Qed.

Lemma upto_close_skip X s :
  ")" ∉ X →
  upto_close (X ++ s) =
    match upto_close s with Some (m, r) => Some (X ++ m, r) | None => None end.
Proof.
  induction X as [|c X IH]; intros HX.
  - cbn [app]. by destruct (upto_close s) as [[??]|].
  - apply not_elem_of_cons in HX as [Hc HX]. cbn [app upto_close].
    assert (Ascii.eqb c ")" = false) as -> by (apply Ascii.eqb_neq; congruence).
    rewrite IH by done. by destruct (upto_close s) as [[??]|].
Qed.

(** The first closing parenthesis of a cell, and what is left of the
    cell after it. *)
Lemma chain_pair_close d c F :
  cell_marker (d ++ c ++ F) = Some (d, c ++ F) →
  contains MARKER c = false →
  ")" ∈ d ++ c →
  ∃ z1 z2, d ++ c = z1 ++ z2 ∧
    (∀ R, upto_close ((d ++ c) ++ R) = Some (z1, z2 ++ R)) ∧
    contains MARKER z2 = false.
Proof.
  intros H Hc Hin. apply cell_marker_inv in H as (_ & args & -> & H).
  assert (")" ∉ MARKER) as HM by not_in_literal.
  destruct args as [|a args].
  - rewrite app_nil_r in *. apply elem_of_app in Hin as [?|Hin]; [done|].
    destruct (upto_close c) as [[c1 c2]|] eqn:E;
      [|by apply upto_close_None in E].
    pose proof (upto_close_inv _ _ _ E) as [-> _].
    exists (MARKER ++ c1), c2. split_and!.
    + by rewrite <- app_assoc.
    + intros R. rewrite <- !app_assoc, upto_close_skip by done.
      by rewrite (upto_close_app _ _ (c2 ++ R) E).
    + by apply contains_app_false in Hc as [_ ?].
  - cbn [app opt_args] in H. destruct (Ascii.eqb a "(") eqn:Ea; [|by injection H].
    apply Ascii.eqb_eq in Ea as ->.
    destruct (upto_close (args ++ c ++ F)) as [[m r]|] eqn:E; [|by injection H].
    injection H as Hm Hr. subst m r.
    exists (MARKER ++ "(" :: args), c. split_and!; [done| |done].
    intros R. rewrite <- !app_assoc, upto_close_skip by done.
    cbn [app upto_close]. change (Ascii.eqb "(" ")") with false. cbn match.
    by rewrite (upto_close_app _ _ (c ++ R) E).
Qed.

Lemma first_such {A} (Q : A → Prop) `{!∀ x, Decision (Q x)} (l : list A) :
  Forall (λ x, ¬ Q x) l ∨
  ∃ l1 a l2, l = l1 ++ a :: l2 ∧ Forall (λ x, ¬ Q x) l1 ∧ Q a.
Proof.
  induction l as [|x l IH]; [by left|].
  destruct (decide (Q x)) as [Hx|Hx].
  - right. by exists [], x, l.
  - destruct IH as [IH|(l1 & a & l2 & -> & H1 & Ha)].
    + left. by constructor.
    + right. exists (x :: l1), a, l2. split_and!; [done | by constructor | done].
Qed.

Lemma flat_no_close ps : Forall (λ p, ")" ∉ cat p) ps → ")" ∉ flat ps.
Proof.
  intros H. unfold flat, Str.concat. rewrite list_elem_of_join.
  intros (l & Hl & Hin). apply list_elem_of_fmap in Hin as (p & -> & Hp).
  rewrite Forall_forall in H. by apply (H p).
Qed.


(** *** The import pattern and text put behind a cell *)

Lemma lstrip_app_nonempty s W : lstrip s ≠ [] → lstrip (s ++ W) = lstrip s ++ W.
Proof.
  induction s as [|c s IH]; cbn [lstrip app]; [done|].
  destruct (isspace c); [apply IH | done].
Qed.

Lemma import_here_app prev s W :
  (W = [] ∨ head W = Some "@") →
  import_marimo_here prev s = true → import_marimo_here prev (s ++ W) = true.
Proof.
  intros HW. unfold import_marimo_here.
  destruct (lit (py "import") s) as [s1|] eqn:E1; [|by rewrite andb_false_r].
  apply lit_spec in E1 as ->.
  rewrite <- app_assoc, !lit_app. cbn [app head].
  destruct s1 as [|sp s1]; [by rewrite andb_false_r|].
  cbn [spaces1 app]. destruct (isspace sp); [|done].
  destruct (lit (py "marimo") (lstrip s1)) as [s3|] eqn:E3; [|by rewrite andb_false_r].
  apply lit_spec in E3. rewrite lstrip_app_nonempty by (by rewrite E3).
  rewrite E3, <- app_assoc, lit_app.
  destruct s3 as [|c3 s3]; [|done]. cbn [app].
  by destruct HW as [->|HW]; [|destruct W as [|c W]; [|injection HW as ->]].
Qed.

Lemma search_from_app here prev s W :
  (∀ prev s, here prev s = true → here prev (s ++ W) = true) →
  search_from here prev s = true → search_from here prev (s ++ W) = true.
Proof.
  intros Hh. revert prev. induction s as [|c s IH]; intros prev.
  - cbn [search_from app]. rewrite orb_false_r. intros H%Hh. cbn [app] in H.
    destruct W; cbn [search_from]; by rewrite H.
  - cbn [search_from app]. rewrite !orb_true_iff. intros [H|H].
    + left. by apply (Hh prev (c :: s)).
    + right. by apply IH.
Qed.

Lemma is_import_cell_app cell W :
  (W = [] ∨ head W = Some "@") →
  is_import_cell cell = true → is_import_cell (cell ++ W) = true.
Proof.
  intros HW. apply search_from_app. intros prev s. by apply import_here_app.
Qed.

(** *** Parsing a text that is given by its cells *)

Lemma parse_chain pre qs :
  contains MARKER pre = false → chain qs →
  Forall (λ p, contains GUARD p.2 = false) qs →
  _parse_notebook (pre ++ flat qs) = (pre, cat <$> qs, []).
Proof.
  intros Hpre Hch Hg. unfold _parse_notebook. rewrite split_chain by done.
  cbn [head tail default].
  destruct qs as [|q qs _] using rev_ind; [done|].
  apply Forall_app in Hg as [_ Hq]. rewrite Forall_singleton in Hq.
  rewrite parse_cells_app by done. cbn [app].
  rewrite (parse_cells_last_noguard _ q Hq). by rewrite fmap_app.
Qed.

Lemma guard_free_bodies ps :
  Forall (λ p, contains GUARD (cat p) = false) ps →
  Forall (λ p, contains GUARD p.2 = false) ps.
Proof.
  intros H. eapply Forall_impl; [exact H|].
  intros [d c] H'. by apply contains_app_false in H' as [_ ?].
Qed.

Lemma filter_keep_all {A} (P : A → Prop) `{!∀ x, Decision (P x)} l :
  Forall P l → filter P l = l.
Proof.
  induction 1 as [|x l Hx _ IH]; [done|]. by rewrite filter_cons_True, IH.
Qed.

Lemma filter_drop_all {A} (P : A → Prop) `{!∀ x, Decision (P x)} l :
  Forall (λ x, ¬ P x) l → filter P l = [].
Proof.
  induction 1 as [|x l Hx _ IH]; [done|]. by rewrite filter_cons_False, IH.
Qed.

Lemma reorder_sorted a b :
  Forall (λ c, is_import_cell c = true) a →
  Forall (λ c, is_import_cell c ≠ true) b →
  reorder (a ++ b) = a ++ b.
Proof.
  intros Ha Hb. rewrite reorder_filter, !filter_app.
  rewrite (filter_keep_all _ a Ha), (filter_keep_all _ b Hb).
  rewrite (filter_drop_all _ b Hb), app_nil_r.
  rewrite (filter_drop_all (λ c, is_import_cell c ≠ true) a); [done|].
  eapply Forall_impl; [exact Ha|]. intros c Hc. by intros ?.
Qed.

Lemma filter_cat (P : str → Prop) `{!∀ x, Decision (P x)} (ps : list (str * str)) :
  filter P (cat <$> ps) = cat <$> filter (λ p, P (cat p)) ps.
Proof.
  induction ps as [|p ps IH]; [done|]. rewrite fmap_cons, !filter_cons, IH.
  by destruct (decide (P (cat p))).
Qed.

Lemma reorder_cat ps :
  reorder (cat <$> ps) =
    cat <$> (filter (λ p, is_import_cell (cat p) = true) ps ++
             filter (λ p, is_import_cell (cat p) ≠ true) ps).
Proof. by rewrite reorder_filter, fmap_app, !filter_cat. Qed.

(** The output of [move_imports_to_top] for a text without a guard
    parses into cells that are in order already. *)
Lemma reparse_sorted pre ps :
  contains MARKER pre = false → chain ps →
  Forall (λ p, contains GUARD (cat p) = false) ps →
  ∃ cells',
    _parse_notebook (pre ++ Str.concat (reorder (cat <$> ps))) = (pre, cells', []) ∧
    Str.concat cells' = Str.concat (reorder (cat <$> ps)) ∧
    reorder cells' = cells'.
Proof.
  intros Hpre Hch Hg. rewrite reorder_cat.
  set (I := filter (λ p, is_import_cell (cat p) = true) ps).
  set (N := filter (λ p, is_import_cell (cat p) ≠ true) ps).
  assert (chain I) as HI by (eapply chain_sublist; [apply sublist_filter | done]).
  assert (chain N) as HN by (eapply chain_sublist; [apply sublist_filter | done]).
  assert (Forall (λ p, is_import_cell (cat p) = true) I) as HIi.
  { apply Forall_forall. by intros p [? _]%list_elem_of_filter. }
  assert (Forall (λ p, is_import_cell (cat p) ≠ true) N) as HNn.
  { apply Forall_forall. by intros p [? _]%list_elem_of_filter. }
  assert (Forall (λ p, contains GUARD (cat p) = false) I) as HgI.
  { apply Forall_forall. intros p [_ Hp]%list_elem_of_filter.
    rewrite Forall_forall in Hg. by apply Hg. }
  assert (Forall (λ p, contains GUARD (cat p) = false) N) as HgN.
  { apply Forall_forall. intros p [_ Hp]%list_elem_of_filter.
    rewrite Forall_forall in Hg. by apply Hg. }
  clearbody I N. clear Hch Hg ps.
  assert (chain (I ++ N) →
    ∃ cells',
      _parse_notebook (pre ++ Str.concat (cat <$> I ++ N)) = (pre, cells', []) ∧
      Str.concat cells' = Str.concat (cat <$> I ++ N) ∧ reorder cells' = cells')
    as Hplain.
  { intros Hch. exists (cat <$> I ++ N). split_and!; [|done|].
    - rewrite <- flat_concat. apply parse_chain; [done..|].
      apply guard_free_bodies, Forall_app. by split.
    - rewrite fmap_app. apply reorder_sorted; by apply Forall_fmap. }
  destruct (first_such open_cell I) as [Hclosed|(I1 & A & I2 & -> & HI1 & HA)].
  { apply Hplain, chain_app_closed; [done..|]. intros p Hp Ho.
    rewrite Forall_forall in Hclosed. by destruct (Hclosed p Hp). }
  destruct (first_such (λ p, ")" ∈ cat p) N) as [Hnone|(N1 & Z & N2 & -> & HN1 & HZ)].
  { apply Hplain, chain_app_closed; [done..|]. intros _ _ _.
    by apply flat_no_close. }
  clear Hplain. destruct A as [dA cA], Z as [dZ cZ]. destruct HA as [HdA HcA].
  cbn [fst snd] in HdA, HcA. subst dA. destruct cA as [|? c']; [done|].
  injection HcA as ->. unfold cat in HZ. cbn [fst snd] in HZ.
  (* the text after the open parenthesis up to the cells that are not imports *)
  assert (")" ∉ c' ++ flat I2) as Hopen.
  { apply chain_app_r in HI. inversion HI as [|? ? ? Hm _ _]; subst.
    apply cell_marker_inv in Hm as (_ & args & Hargs & Hm).
    assert (args = []) as ->.
    { apply (f_equal length) in Hargs. rewrite length_app in Hargs.
      destruct args; [done | simpl in Hargs; lia]. }
    cbn [app opt_args] in Hm. rewrite eqb_refl' in Hm.
    destruct (upto_close (c' ++ flat I2)) as [[??]|] eqn:E; [done|].
    by apply upto_close_None in E. }
  assert (chain ((dZ, cZ) :: N2)) as HZN by (by apply chain_app_r in HN).
  inversion HZN as [|? ? ? HmZ HcZ HN2]; subst.
  destruct (chain_pair_close _ _ _ HmZ HcZ HZ) as (z1 & z2 & Hz & Hup & Hz2).
  set (m := c' ++ flat I2 ++ flat N1 ++ z1).
  assert (chain ((MARKER ++ "(" :: m, z2) :: N2)) as HM.
  { constructor; [|done|done]. apply cell_marker_intro.
    cbn [app opt_args]. rewrite eqb_refl'.
    assert (upto_close (m ++ z2 ++ flat N2) = Some (m, z2 ++ flat N2)) as ->; [|done].
    unfold m. replace ((c' ++ flat I2 ++ flat N1 ++ z1) ++ z2 ++ flat N2)
      with ((c' ++ flat I2 ++ flat N1) ++ (dZ ++ cZ) ++ flat N2)
      by (rewrite Hz, <- !app_assoc; done).
    rewrite upto_close_skip, Hup.
    - by rewrite <- !app_assoc.
    - rewrite app_assoc. rewrite elem_of_app. intros [?|Hin]; [done|].
      revert Hin. by apply flat_no_close. }
  assert (chain (I1 ++ (MARKER ++ "(" :: m, z2) :: N2)) as Hch.
  { apply chain_app_closed; [|done|].
    - eapply chain_sublist; [|exact HI]. by apply sublist_inserts_r.
    - intros p Hp Ho. rewrite Forall_forall in HI1. by destruct (HI1 p Hp). }
  assert (flat (I1 ++ (MARKER ++ "(" :: m, z2) :: N2) =
          flat ((I1 ++ (MARKER, "(" :: c') :: I2) ++ N1 ++ (dZ, cZ) :: N2)) as Hflat.
  { repeat (rewrite flat_app || rewrite flat_cons). unfold m.
    rewrite (app_assoc dZ cZ), Hz. rewrite <- !app_assoc. cbn [app].
    by rewrite <- !app_assoc. }
  exists (cat <$> I1 ++ (MARKER ++ "(" :: m, z2) :: N2). split_and!.
  - rewrite <- flat_concat, <- Hflat. apply parse_chain; [done..|].
    apply Forall_app in HgI as [HgI1 _]. apply Forall_app in HgN as [_ HgN2].
    apply Forall_cons in HgN2 as [HgZ HgN2].
    apply Forall_app. split; [by apply guard_free_bodies|].
    constructor; [|by apply guard_free_bodies].
    unfold cat in HgZ. cbn [fst snd] in *. rewrite Hz in HgZ.
    by apply contains_app_false in HgZ as [_ ?].
  - by rewrite <- !flat_concat.
  - rewrite fmap_app, fmap_cons, (cons_middle _ (cat <$> I1)), app_assoc.
    apply Forall_app in HIi as [HI1i HIi]. apply Forall_cons in HIi as [HAi HI2i].
    apply Forall_app in HNn as [_ HNn]. apply Forall_cons in HNn as [_ HN2n].
    apply reorder_sorted; [|by apply Forall_fmap].
    apply Forall_app. split; [by apply Forall_fmap|]. constructor; [|constructor].
    replace (cat (MARKER ++ "(" :: m, z2))
      with (cat (MARKER, "(" :: c') ++ flat (I2 ++ N1 ++ [(dZ, cZ)])).
    + apply is_import_cell_app; [|done]. apply heads_flat.
      apply chain_heads in HI, HN.
      apply Forall_app in HI as [_ HI]. apply Forall_cons in HI as [_ HI].
      apply Forall_app in HN as [HN1' HN]. apply Forall_cons in HN as [HZ' _].
      apply Forall_app. split; [done|]. apply Forall_app. split; [done|].
      by constructor.
    + unfold cat, m. cbn [fst snd].
      repeat (rewrite flat_app || rewrite flat_cons).
      change (flat []) with (@nil ascii).
      rewrite app_nil_r, Hz, <- !app_assoc. cbn [app].
      by rewrite <- !app_assoc.
Qed.


Lemma parse_guard_free content :
  contains GUARD content = false →
  ∃ pre ps, content = pre ++ flat ps ∧ contains MARKER pre = false ∧ chain ps ∧
    Forall (λ p, contains GUARD (cat p) = false) ps ∧
    _parse_notebook content = (pre, cat <$> ps, []).
Proof.
  intros Hg. destruct (split_decomp content) as (pre & ps & Hc & _ & Hpre & Hch).
  exists pre, ps. rewrite Hc in Hg. apply contains_app_false in Hg as [_ Hg].
  apply contains_flat_false in Hg. split_and!; [done..|].
  rewrite Hc. apply parse_chain; [done..|]. by apply guard_free_bodies.
Qed.

(** X4.  On a text that holds no [if __name__], [move_imports_to_top]
    is idempotent, and it returns the text itself when the cells that
    import the runtime module come first already. *)
Theorem move_imports_to_top_idempotent content :
  contains GUARD content = false →
  move_imports_to_top (move_imports_to_top content) = move_imports_to_top content ∧
  (∀ pre cells post, _parse_notebook content = (pre, cells, post) →
     reorder cells = cells → move_imports_to_top content = content).
Proof.
  intros Hg.
  destruct (parse_guard_free _ Hg) as (pre & ps & Hc & Hpre & Hch & Hgf & Hp).
  rewrite (move_imports_to_top_eq _ _ _ _ Hp), app_nil_r. split.
  - destruct (reparse_sorted pre ps Hpre Hch Hgf) as (cells' & Hp' & Hcat & Hs).
    rewrite (move_imports_to_top_eq _ _ _ _ Hp'), Hs, Hcat. by rewrite app_nil_r.
  - intros pre' cells post Hp'. rewrite Hp in Hp'. injection Hp' as <- <- <-.
    intros ->. by rewrite <- flat_concat.
Qed.

Lemma move_imports_to_top_idempotent_witness :
  move_imports_to_top (move_imports_to_top unsorted_nb) =
    move_imports_to_top unsorted_nb ∧
  move_imports_to_top unsorted_nb ≠ unsorted_nb.
Proof.
  split.
  - apply (move_imports_to_top_idempotent unsorted_nb). vm_compute. reflexivity.
  - apply (proj1 (bool_decide_eq_false _)). vm_compute. reflexivity.
Defined.

(** X5.  [move_imports_to_top] never returns a longer text, and on a
    text that holds no [if __name__] its result has the characters of
    the text, each as often as the text has it. *)
Theorem move_imports_to_top_keeps_text content :
  length (move_imports_to_top content) ≤ length content ∧
  (contains GUARD content = false → move_imports_to_top content ≡ₚ content).
Proof.
  destruct (parse_notebook_cases content) as (pre & cells & post & Hp & H).
  rewrite (move_imports_to_top_eq _ _ _ _ Hp).
  assert (Str.concat (reorder cells) ≡ₚ Str.concat cells) as Hperm.
  { unfold Str.concat. apply join_Permutation. rewrite reorder_filter.
    apply (filter_app_complement (λ c, is_import_cell c = true)). }
  split.
  - rewrite !length_app, (Permutation_length Hperm).
    destruct H as [[-> ->] | (g & rest & _ & _ & [-> | (d & _ & ->)])];
      repeat (rewrite ?length_app; simpl); lia.
  - intros Hg. destruct H as [[-> ->] | (g & rest & Hpost & Hgl & H)].
    + by rewrite app_nil_r, Hperm.
    + exfalso.
      assert (contains GUARD post = true) as Hin.
      { rewrite Hpost. destruct (join_head [nl] g rest) as [t ->].
        by apply contains_app_l, guard_line_contains. }
      assert (contains GUARD content = true); [|congruence].
      destruct H as [-> | (d & Hd & ->)].
      * apply contains_app_r, contains_app_r.
        by apply (contains_app_r _ [nl]).
      * by do 3 apply contains_app_r.
Qed.


(** *** The two import patterns *)

Lemma space_not_word c : isspace c = true → isword c = false.
Proof.
  destruct c as [[] [] [] [] [] [] [] []]; vm_compute; congruence.
Qed.

Lemma as_mo_here_import prev s :
  import_marimo_as_mo_here prev s = true → import_marimo_here prev s = true.
Proof.
  unfold import_marimo_as_mo_here, import_marimo_here.
  destruct (word_boundary prev (head s)); [|done]. cbn [andb].
  destruct (lit (py "import") s) as [s1|]; [|done].
  destruct (spaces1 s1) as [s2|]; [|done].
  destruct (lit (py "marimo") s2) as [s3|]; [|done].
  destruct (spaces1 s3) as [s4|] eqn:E; [|done]. intros _.
  destruct s3 as [|c s3]; [done|]. cbn [spaces1] in E. cbn [head].
  destruct (isspace c) eqn:Ec; [|done]. unfold word_boundary, is_word_opt.
  by rewrite (space_not_word _ Ec).
Qed.

Lemma search_from_mono (here here' : option ascii → str → bool) prev s :
  (∀ prev s, here prev s = true → here' prev s = true) →
  search_from here prev s = true → search_from here' prev s = true.
Proof.
  intros Hh. revert prev. induction s as [|c s IH]; intros prev;
    cbn [search_from]; rewrite !orb_true_iff.
  - intros [H|H]; [left; by apply Hh | done].
  - intros [H|H]; [left; by apply Hh | right; by apply IH].
Qed.

(** X6.  The pattern [prepend_markdown] looks for is a special case of
    the pattern of [move_imports_to_top]: a cell that imports the
    runtime module as [mo] is an import cell.  So when
    [prepend_markdown] finds an import to reuse, [move_imports_to_top]
    puts an import cell first; and the import cell that
    [prepend_markdown] writes is matched by both patterns. *)
Theorem reused_import_is_an_import_cell cells :
  (∀ cell, Re.search import_marimo_as_mo_here cell = true →
           is_import_cell cell = true) ∧
  (has_mo_import cells = true →
   ∃ cell rest, reorder cells = cell :: rest ∧ is_import_cell cell = true) ∧
  is_import_cell import_cell = true ∧
  has_mo_import [import_cell] = true.
Proof.
  assert (∀ cell, Re.search import_marimo_as_mo_here cell = true →
                  is_import_cell cell = true) as Himp.
  { intros cell. apply search_from_mono. intros prev s. apply as_mo_here_import. }
  split_and!; [done | | vm_compute; reflexivity..].
  unfold has_mo_import. intros (cell & Hin & Hm)%existsb_exists.
  apply Himp in Hm. rewrite reorder_filter.
  assert (cell ∈ filter (λ c, is_import_cell c = true) cells) as Hf.
  { apply list_elem_of_filter. split; [done|]. by apply list_elem_of_In. }
  destruct (filter (λ c, is_import_cell c = true) cells) as [|c0 l] eqn:E.
  - by apply elem_of_nil in Hf.
  - exists c0, (l ++ filter (λ c, is_import_cell c ≠ true) cells). split; [done|].
    assert (c0 ∈ filter (λ c, is_import_cell c = true) cells) as H0
      by (rewrite E; by left).
    by apply list_elem_of_filter in H0 as [? _].
Qed.

(** *** Prepending twice *)

Lemma lit_snoc p s r :
  p ≠ [] → nl ∉ p → lit p (s ++ [nl]) = Some r →
  ∃ r', r = r' ++ [nl] ∧ lit p s = Some r'.
Proof.
  intros Hp Hnl H. apply lit_spec in H.
  destruct r as [|c r _] using rev_ind.
  - rewrite app_nil_r in H. exfalso. apply Hnl. rewrite <- H.
    apply elem_of_app. right. by left.
  - rewrite app_assoc in H. apply app_inj_tail in H as [-> ->].
    exists r. split; [done|]. by apply lit_app.
Qed.

Lemma lstrip_snoc s :
  lstrip (s ++ [nl]) = match lstrip s with [] => [] | _ => lstrip s ++ [nl] end.
Proof.
  induction s as [|c s IH]; cbn [app lstrip].
  - done.
  - destruct (isspace c); [done|]. done.
Qed.

Lemma spaces1_snoc s r :
  spaces1 (s ++ [nl]) = Some r → r ≠ [] →
  ∃ r', r = r' ++ [nl] ∧ spaces1 s = Some r'.
Proof.
  destruct s as [|c s]; cbn [app spaces1].
  - change (isspace nl) with true. cbn match. by intros [= <-].
  - destruct (isspace c); [|done]. rewrite lstrip_snoc. intros [= <-] Hr.
    destruct (lstrip s); [done|]. by eexists.
Qed.

Lemma as_mo_here_snoc prev s :
  import_marimo_as_mo_here prev (s ++ [nl]) = true →
  import_marimo_as_mo_here prev s = true.
Proof.
  unfold import_marimo_as_mo_here.
  destruct (lit (py "import") (s ++ [nl])) as [r1|] eqn:E1;
    [|by rewrite andb_false_r].
  apply lit_snoc in E1 as (s1 & -> & E1); [|done|not_in_literal].
  rewrite E1. pose proof E1 as ->%lit_spec. cbn [app head].
  destruct (spaces1 (s1 ++ [nl])) as [r2|] eqn:E2; [|by rewrite andb_false_r].
  destruct (lit (py "marimo") r2) as [r3|] eqn:E3; [|by rewrite andb_false_r].
  apply spaces1_snoc in E2 as (s2 & -> & E2); [|by intros ->].
  rewrite E2.
  apply lit_snoc in E3 as (s3 & -> & E3); [|done|not_in_literal].
  rewrite E3.
  destruct (spaces1 (s3 ++ [nl])) as [r4|] eqn:E4; [|by rewrite andb_false_r].
  destruct (lit (py "as") r4) as [r5|] eqn:E5; [|by rewrite andb_false_r].
  apply spaces1_snoc in E4 as (s4 & -> & E4); [|by intros ->].
  rewrite E4.
  apply lit_snoc in E5 as (s5 & -> & E5); [|done|not_in_literal].
  rewrite E5.
  destruct (spaces1 (s5 ++ [nl])) as [r6|] eqn:E6; [|by rewrite andb_false_r].
  destruct (lit (py "mo") r6) as [r7|] eqn:E7; [|by rewrite andb_false_r].
  apply spaces1_snoc in E6 as (s6 & -> & E6); [|by intros ->].
  rewrite E6.
  apply lit_snoc in E7 as (s7 & -> & E7); [|done|not_in_literal].
  rewrite E7. by destruct s7.
Qed.

Lemma search_as_mo_snoc prev s :
  search_from import_marimo_as_mo_here prev (s ++ [nl]) = true →
  search_from import_marimo_as_mo_here prev s = true.
Proof.
  revert prev. induction s as [|c s IH]; intros prev.
  - cbn [app search_from]. unfold import_marimo_as_mo_here.
    change (lit (py "import") [nl]) with (@None str).
    change (lit (py "import") []) with (@None str).
    by rewrite !andb_false_r.
  - cbn [app search_from]. rewrite !orb_true_iff. intros [H|H].
    + left. by apply (as_mo_here_snoc prev (c :: s)).
    + right. by apply IH.
Qed.

Lemma has_mo_import_same cells' cells :
  Forall2 same_cell cells' cells → has_mo_import cells = true →
  has_mo_import cells' = true.
Proof.
  unfold has_mo_import. induction 1 as [|c' c cells' cells Hc _ IH]; [done|].
  cbn [existsb]. rewrite !orb_true_iff. intros [H|H]; [left | right; by apply IH].
  destruct Hc as [-> | ->]; [done | by apply search_as_mo_snoc].
Qed.

(** The output of [prepend_markdown], parsed again. *)
Lemma prepend_reparse content md pre cells post :
  _parse_notebook content = (pre, cells, post) →
  contains MARKER md = false →
  (cells = [] → contains GUARD md = false) →
  (post ≠ [] → content = (pre ++ Str.concat cells) ++ nl :: post ∧
               ∃ t, Str.concat cells = t ++ [nl]) →
  ∃ cells',
    _parse_notebook (prepend_markdown content md) =
      (pre, new_cells cells md ++ cells', post) ∧
    Forall2 same_cell cells' cells.
Proof.
  intros Hparse Hmd Hguard Hpost.
  destruct (parse_notebook_decomp content) as (pre0 & ps & Hc & Hpre & Hch & _ & Hp).
  rewrite Hparse in Hp. injection Hp as <- Hcells Hpost'.
  assert (parse_cells [] (parts_of ps) = (cells, post)) as Hpc.
  { rewrite Hcells, Hpost'. by destruct (parse_cells [] (parts_of ps)). }
  destruct (tail_stable ps cells post Hch Hpc)
    as (ps' & cells' & Hflat & Hch' & Hparse' & Hsame & Hnil).
  { intros Hne. destruct (Hpost Hne) as [Hcontent Ht]. split; [|done].
    rewrite Hc, <- (assoc_L (++)) in Hcontent. by apply app_inv_head in Hcontent. }
  exists cells'. split; [|done].
  rewrite (prepend_markdown_eq _ _ _ _ _ Hparse).
  replace (pre ++ Str.concat (new_cells cells md) ++ Str.concat cells ++ post)
    with (pre ++ flat (new_pairs cells md ++ ps'))
    by (by rewrite flat_app, Hflat, flat_concat, new_pairs_cells).
  unfold _parse_notebook.
  rewrite split_chain by (by apply chain_new_pairs || done). cbn [head tail default].
  destruct ps' as [|p' ps'].
  - destruct Hnil as [-> ->]; [done|]. injection Hparse' as <-.
    rewrite !app_nil_r. destruct (new_pairs_last [] md) as [qs Hqs].
    rewrite Hqs, parse_cells_app by done. cbn [app].
    rewrite parse_cells_last_noguard by (by apply display_body_no_guard, Hguard).
    by rewrite <- new_pairs_cells, Hqs, fmap_app.
  - rewrite parse_cells_app by done. cbn [app].
    by rewrite parse_cells_acc, Hparse', new_pairs_cells.
Qed.

(** X7.  Prepending twice: under the conditions of the re-parse, the
    second call finds the import of the runtime module, whether the
    first call wrote it or a cell of the notebook had it, and puts only
    its display cell in front of what the first call returned. *)
Theorem prepend_markdown_twice content md1 md2 pre cells post :
  _parse_notebook content = (pre, cells, post) →
  contains MARKER md1 = false →
  (cells = [] → contains GUARD md1 = false) →
  (post ≠ [] → content = (pre ++ Str.concat cells) ++ nl :: post ∧
               ∃ t, Str.concat cells = t ++ [nl]) →
  ∃ cells',
    Forall2 same_cell cells' cells ∧
    prepend_markdown (prepend_markdown content md1) md2 =
      pre ++ Str.concat (display_cell md2 :: new_cells cells md1 ++ cells') ++ post.
Proof.
  intros Hparse Hmd Hguard Hpost.
  destruct (prepend_reparse _ _ _ _ _ Hparse Hmd Hguard Hpost) as (cells' & Hp & Hsame).
  exists cells'. split; [done|].
  rewrite (prepend_markdown_eq _ _ _ _ _ Hp).
  assert (has_mo_import (new_cells cells md1 ++ cells') = true) as Hmo.
  { unfold has_mo_import. rewrite existsb_app. apply orb_true_iff.
    unfold new_cells. destruct (has_mo_import cells) eqn:E.
    - right. by apply (has_mo_import_same cells' cells).
    - left. cbn [existsb]. apply orb_true_iff. left. vm_compute. reflexivity. }
  unfold new_cells at 1. rewrite Hmo.
  rewrite concat_singleton.
  change (display_cell md2 :: new_cells cells md1 ++ cells')
    with ([display_cell md2] ++ new_cells cells md1 ++ cells').
  by rewrite (concat_app [display_cell md2]), concat_singleton, <- app_assoc.
Qed.

Lemma prepend_markdown_twice_witness :
  ∃ pre cells post cells',
    _parse_notebook Samples.plain_nb = (pre, cells, post) ∧
    prepend_markdown (prepend_markdown Samples.plain_nb (py "Test")) (py "More") =
      pre ++ Str.concat (display_cell (py "More") ::
                         new_cells cells (py "Test") ++ cells') ++ post.
Proof.
  destruct (_parse_notebook Samples.plain_nb) as [[pre cells] post] eqn:E.
  destruct (prepend_markdown_twice Samples.plain_nb (py "Test") (py "More")
              pre cells post) as (cells' & _ & H); [done | ..].
  - vm_compute. reflexivity.
  - intros _. vm_compute. reflexivity.
  - intros _. vm_compute in E. injection E as <- <- <-. split.
    + vm_compute. reflexivity.
    + apply (proj1 (last_Some _ _)). vm_compute. reflexivity.
  - by exists pre, cells, post, cells'.
Defined.

End TransformProps.

(** ** Further properties of the gallery integration *)

Module GalleryProps.
Import Py Path FS World Gallery Notions GalleryClaims.

Section Any.

Context (json_dump : nat → json → str).
Context (json_load : str → option json).
Context (py_str : json → str).
Context (marimo : list str → fs → result (CompletedProcess * option str)).

(** *** Computations that keep the output directory in order *)

Lemma tidy_ret {A} dir P (a : A) : tidy dir P (mret a).
Proof. intros w. by split. Qed.

Lemma tidy_raise {A} dir P e : tidy dir P (raise (A:=A) e).
Proof. intros w. by split. Qed.

Lemma tidy_bind {A B} dir P (m : M A) (k : A → M B) :
  tidy dir P m → (∀ a, tidy dir P (k a)) → tidy dir P (m ≫= k).
Proof.
  intros Hm Hk w. rewrite bind_run. destruct (Hm w) as [H1 H2].
  destruct (m w) as [[a|e] w1]; cbn [snd] in *; [|by split].
  destruct (Hk a w1) as [H3 H4]. split; [congruence | auto].
Qed.

Lemma tidy_logger dir P l msg : tidy dir P (logger l msg).
Proof. intros w. by split. Qed.

Lemma tidy_lift {A} dir P (r : result A) : tidy dir P (lift r).
Proof. intros w. by split. Qed.

Lemma tidy_get_files dir P : tidy dir P get_files.
Proof. intros w. by split. Qed.

Lemma tidy_unlink dir P child : tidy dir P (on_files (λ t, unlink t (div dir child))).
Proof.
  intros w. unfold on_files, unlink.
  destruct (files w !! div dir child) as [[s|]|]; cbn [snd files set_files cache];
    [|by split..].
  split; [done | apply writable_delete].
Qed.

Lemma write_text_inv t p s t' : write_text t p s = Ok t' → t' = <[p := File s]> t.
Proof.
  unfold write_text. destruct (is_dir t (parent p)); [|done].
  destruct p as [|c p]; [done|]. destruct (t !! (c :: p)) as [[?|]|]; congruence.
Qed.

Lemma tidy_write dir P child s :
  tidy dir P (on_files (λ t, write_text t (div dir child) s)).
Proof.
  intros w. unfold on_files.
  destruct (write_text (files w) (div dir child) s) as [t|e] eqn:E;
    cbn [snd files set_files cache]; [|by split].
  apply write_text_inv in E as ->. split; [done | apply writable_insert].
Qed.

Lemma tidy_subprocess dir P child args :
  tidy dir P (subprocess_run marimo args (div dir child)).
Proof.
  intros w. unfold subprocess_run.
  destruct (marimo args (files w)) as [[p [s|]]|e]; cbn [snd files set_files cache];
    [|by split..].
  split; [done | apply writable_insert].
Qed.

Lemma tidy_transform dir P child pm mv :
  tidy dir P (transform_notebook (div dir child) (Some (div dir child)) pm mv).
Proof.
  unfold transform_notebook. apply tidy_bind; [apply tidy_get_files|]. intros t.
  apply tidy_bind; [apply tidy_lift|]. intros content. cbn [default].
  apply tidy_bind; [apply tidy_write|]. intros _. apply tidy_ret.
Qed.

Lemma tidy_impl dir P ipynb pm mv :
  tidy dir P (_convert_notebook_impl marimo ipynb (py_file dir ipynb)
                (html_file dir ipynb) pm mv).
Proof.
  unfold _convert_notebook_impl, py_file, html_file.
  apply tidy_bind; [apply tidy_get_files|]. intros t.
  apply tidy_bind. { destruct (exists_ _ _); [apply tidy_unlink | apply tidy_ret]. }
  intros _. apply tidy_bind; [apply tidy_subprocess|]. intros p1.
  apply tidy_bind.
  { destruct (negb _); [|apply tidy_ret].
    repeat (apply tidy_bind; [apply tidy_logger | intros _]). apply tidy_raise. }
  intros _. apply tidy_bind.
  { destruct (_ || _); [|apply tidy_ret].
    apply tidy_bind; [apply tidy_transform | intros _; apply tidy_ret]. }
  intros _. apply tidy_bind; [apply tidy_subprocess|]. intros p2.
  apply tidy_bind.
  { destruct (negb _); [|apply tidy_ret].
    repeat (apply tidy_bind; [apply tidy_logger | intros _]). apply tidy_raise. }
  intros _. apply tidy_ret.
Qed.

Lemma bind_ok {A B} (m : M A) (k : A → M B) w b w' :
  (m ≫= k) w = (Ok b, w') → ∃ a w1, m w = (Ok a, w1) ∧ k a w1 = (Ok b, w').
Proof.
  rewrite bind_run. destruct (m w) as [[a|e] w1]; [|done]. intros H. by exists a, w1.
Qed.

(** What [_convert_notebook_impl] returns, when it returns, is the
    path it was given for the exported file. *)
Lemma impl_returns ipynb pyf htmlf pm mv w p w' :
  _convert_notebook_impl marimo ipynb pyf htmlf pm mv w = (Ok p, w') → p = htmlf.
Proof.
  unfold _convert_notebook_impl. intros H.
  repeat (apply bind_ok in H as (? & ? & _ & H)). by injection H as <- _.
Qed.

(** [_convert_notebook_standalone] never raises: it returns the
    notebook with the exported file or with [None], and removes nothing
    from the cache. *)
Lemma standalone_any dir g memory pm mv w :
  cache_sound w →
  ∃ r w1,
    _convert_notebook_standalone marimo g (Some dir) memory pm mv w = (Ok (g, r), w1) ∧
    (r = None ∨ r = Some (html_file dir g)) ∧
    cache_sound w1 ∧
    ∀ P, writable dir P (files w) → writable dir P (files w1).
Proof.
  intros Hcache.
  assert (∀ P, writable dir P (files w) →
            writable dir P
              (files (_convert_notebook_impl marimo g (py_file dir g)
                        (html_file dir g) pm mv w).2)) as Hw.
  { intros P. apply (tidy_impl dir P g pm mv w). }
  destruct (tidy_impl dir (λ _, True) g pm mv w) as [Hc1 _].
  assert (memory = None ∨ ∃ store, memory = Some store) as [->|[store ->]]
    by (destruct memory; eauto).
  { rewrite standalone_miss by done.
    destruct (_convert_notebook_impl _ _ _ _ _ _ w) as [[p|e] w1] eqn:Himpl;
      cbn [snd] in *.
    - apply impl_returns in Himpl as ->. eexists _, _.
      split_and!; [reflexivity | by right | | done].
      intros store' key v. rewrite Hc1. apply Hcache.
    - eexists _, _. split_and!; [reflexivity | by left | | done].
      intros store' key v. cbn [cache]. rewrite Hc1. apply Hcache. }
  destruct (cache w !! (store, (g, py_file dir g, html_file dir g, pm, mv)))
    as [v|] eqn:Hv.
  - exists (Some (html_file dir g)), w. split_and!; [|by right | done | done].
    unfold _convert_notebook_standalone, catch. rewrite bind_run.
    unfold mret at 1, M_ret at 1. rewrite bind_run.
    fold (py_file dir g) (html_file dir g). unfold cached. rewrite Hv.
    by apply Hcache in Hv as ->.
  - rewrite standalone_miss by (by intros ? [= <-]).
    destruct (_convert_notebook_impl _ _ _ _ _ _ w) as [[p|e] w1] eqn:Himpl;
      cbn [snd] in *.
    + apply impl_returns in Himpl as ->. eexists _, _.
      split_and!; [reflexivity | by right | | done].
      intros store' key v. cbn [cache]. rewrite Hc1.
      destruct (decide ((store, (g, py_file dir g, html_file dir g, pm, mv))
                        = (store', key))) as [[= <- <-]|Hk].
      * rewrite lookup_insert_eq. by intros [= <-].
      * rewrite lookup_insert_ne by done. apply Hcache.
    + eexists _, _. split_and!; [reflexivity | by left | | done].
      intros store' key v. cbn [cache]. rewrite Hc1. apply Hcache.
Qed.

(** [_convert_notebook_standalone] for a notebook both calls of
    [marimo] succeed for. *)
Lemma standalone_success dir g memory pm mv w :
  is_dir (files w) dir = true → files w !! py_file dir g ≠ Some Dir →
  cache_sound w → tool_succeeds marimo dir g →
  (_convert_notebook_standalone marimo g (Some dir) memory pm mv w).1 =
    Ok (g, Some (html_file dir g)).
Proof.
  intros Hd Hno Hcache [Hconv Hexp].
  destruct (Hconv (delete (py_file dir g) (files w))) as (p1 & s & Hm & Hrc1).
  destruct (Hexp (<[py_file dir g := File (transformed pm mv s)]>
                    (delete (py_file dir g) (files w))))
    as (p2 & out & Hm' & Hrc2).
  pose proof (impl_exports marimo dir g pm mv w p1 s p2 out Hd Hno Hm Hrc1 Hm') as Himpl.
  rewrite Hrc2 in Himpl. cbn [Z.eqb] in Himpl.
  assert (memory = None ∨ ∃ store, memory = Some store) as [->|[store ->]]
    by (destruct memory; eauto).
  { rewrite standalone_miss by done. by rewrite Himpl. }
  destruct (cache w !! (store, (g, py_file dir g, html_file dir g, pm, mv)))
    as [v|] eqn:Hv.
  - unfold _convert_notebook_standalone, catch. rewrite bind_run.
    unfold mret at 1, M_ret at 1. rewrite bind_run.
    fold (py_file dir g) (html_file dir g). unfold cached. rewrite Hv.
    by apply Hcache in Hv as ->.
  - rewrite standalone_miss by (by intros ? [= <-]). by rewrite Himpl.
Qed.


(** *** The mapping built by the loops *)

Lemma dict_get_set {V} k k' (v : V) (d : dict V) :
  dict_get k' (dict_set k v d) = if decide (k' = k) then Some v else dict_get k' d.
Proof.
  induction d as [|[k0 v0] d IH]; cbn [dict_set dict_get].
  - done.
  - destruct (decide (k = k0)) as [->|Hk]; cbn [dict_get].
    + by destruct (decide (k' = k0)).
    + destruct (decide (k' = k0)) as [->|Hk'].
      * by rewrite decide_False by done.
      * done.
Qed.

Lemma dict_set_keys {V} k (v : V) (d : dict V) :
  fst <$> dict_set k v d = fst <$> d ∨
  (k ∉ fst <$> d) ∧ fst <$> dict_set k v d = (fst <$> d) ++ [k].
Proof.
  induction d as [|[k0 v0] d IH]; cbn [dict_set].
  - right. split; [apply not_elem_of_nil | done].
  - destruct (decide (k = k0)) as [->|Hk]; [by left|].
    rewrite !fmap_cons. cbn [fst].
    destruct IH as [IH|[Hn IH]]; rewrite IH.
    + by left.
    + right. split; [|done]. by apply not_elem_of_cons.
Qed.

Lemma dict_set_NoDup {V} k (v : V) (d : dict V) :
  NoDup (fst <$> d) → NoDup (fst <$> dict_set k v d).
Proof.
  intros H. destruct (dict_set_keys k v d) as [->|[Hn ->]]; [done|].
  apply NoDup_app. split_and!; [done | | apply NoDup_singleton].
  intros x Hx ->%list_elem_of_singleton. done.
Qed.

Lemma dict_set_length {V} k (v : V) (d : dict V) :
  length (dict_set k v d) ≤ S (length d).
Proof.
  induction d as [|[k0 v0] d IH]; cbn [dict_set]; [done|].
  destruct (decide (k = k0)); simpl; lia.
Qed.

Lemma fold_entries sub (batch : list path) acc :
  NoDup (fst <$> acc) →
  let converted := foldl (set_entry sub) acc batch in
  NoDup (fst <$> converted) ∧
  length converted ≤ length acc + length batch ∧
  (∀ g, g ∈ batch → dict_get (stem g) converted = Some (entry sub g).2) ∧
  (∀ k v, dict_get k converted = Some v →
     dict_get k acc = Some v ∨ ∃ g, g ∈ batch ∧ (k, v) = entry sub g).
Proof.
  revert acc. induction batch as [|g batch IH] using rev_ind; intros acc Hnd; cbn zeta.
  - cbn [foldl]. split_and!; [done | lia | | by left].
    intros g Hg. by apply elem_of_nil in Hg.
  - rewrite foldl_app. cbn [foldl]. destruct (IH acc Hnd) as (H1 & H2 & H3 & H4).
    unfold set_entry at 1 3 5 7. split_and!.
    + by apply dict_set_NoDup.
    + rewrite length_app. cbn [length].
      pose proof (dict_set_length (stem g) (rel_str (sub ++ [stem g ++ py ".html"]))
                    (foldl (set_entry sub) acc batch)). lia.
    + intros g' Hg'. rewrite dict_get_set.
      destruct (decide (stem g' = stem g)) as [Heq|Hne];
        [unfold entry; cbn [snd]; by rewrite Heq|].
      apply elem_of_app in Hg' as [Hg'|Hg'%list_elem_of_singleton]; [|by subst].
      by apply H3.
    + intros k v. rewrite dict_get_set. destruct (decide (k = stem g)) as [->|Hne].
      * intros [= <-]. right. exists g. split; [|done].
        apply elem_of_app. right. by left.
      * intros [?|(g' & Hg' & Hkv)]%H4; [by left|]. right. exists g'.
        split; [|done]. apply elem_of_app. by left.
Qed.

Lemma with_path_None g rs : with_path ((g, None) :: rs) = with_path rs.
Proof.
  unfold with_path. rewrite filter_cons. cbn [snd].
  by rewrite decide_False by (by intros [? ?]).
Qed.

Lemma with_path_Some g p rs : with_path ((g, Some p) :: rs) = g :: with_path rs.
Proof.
  unfold with_path. rewrite filter_cons. cbn [snd].
  by rewrite decide_True by (by eexists).
Qed.

Lemma with_path_sublist rs : with_path rs `sublist_of` fst <$> rs.
Proof. unfold with_path. apply fmap_sublist, sublist_filter. Qed.

Lemma elem_of_with_path g rs : g ∈ with_path rs ↔ ∃ p, (g, Some p) ∈ rs.
Proof.
  unfold with_path. rewrite list_elem_of_fmap. split.
  - intros ([g' r] & -> & [[p Hp] Hin]%list_elem_of_filter). cbn [fst snd] in *.
    subst r. by exists p.
  - intros [p Hin]. exists (g, Some p). split; [done|].
    apply list_elem_of_filter. split; [by eexists | done].
Qed.

Section AnyLoop.

Context (self : Integration) (dir : path) (sub : list str).
Context (Hdir : marimo_gallery_dir self = Some dir).
Context (Hsub : dir = div (outdir (app self)) (py "_static") ++ sub).

(** The results of the workers: one for each notebook of the batch. *)
Lemma results_any batch w :
  cache_sound w →
  fst <$> (results marimo self batch w).1 = batch ∧
  (∀ g p, (g, Some p) ∈ (results marimo self batch w).1 → p = html_file dir g) ∧
  cache_sound (results marimo self batch w).2 ∧
  ∀ P, writable dir P (files w) →
       writable dir P (files (results marimo self batch w).2).
Proof.
  revert w. induction batch as [|g batch IH]; intros w Hcache.
  - split_and!; [done | | done | done]. intros g p Hin. by apply elem_of_nil in Hin.
  - destruct (standalone_any dir g (memory self) (prepend_markdown self)
                (move_imports_to_top self) w Hcache)
      as (r & w1 & Hrun & Hr & Hcache1 & Hw1).
    cbn [results]. rewrite Hdir, Hrun.
    destruct (IH w1 Hcache1) as (Hfst & Hhtml & Hcache2 & Hw2).
    destruct (results marimo self batch w1) as [rs w2]. cbn [fst snd] in *.
    split_and!.
    + by rewrite fmap_cons, Hfst.
    + intros g' p [[= -> Hp]|Hin]%elem_of_cons; [|by apply Hhtml].
      destruct Hr as [->| ->]; congruence.
    + done.
    + intros P HP. by apply Hw2, Hw1.
Qed.

(** The loop over the results of the workers sets an entry for each
    result with a path. *)
Lemma parallel_loop_any batch acc w :
  cache_sound w →
  parallel_loop marimo self batch acc w =
    (Ok (foldl (set_entry sub) acc (with_path (results marimo self batch w).1)),
     (results marimo self batch w).2).
Proof.
  revert acc w. induction batch as [|g batch IH]; intros acc w Hcache; [done|].
  destruct (standalone_any dir g (memory self) (prepend_markdown self)
              (move_imports_to_top self) w Hcache)
    as (r & w1 & Hrun & Hr & Hcache1 & _).
  cbn [parallel_loop results]. rewrite bind_run, Hdir, Hrun. rewrite bind_run.
  specialize (IH (match r with Some _ => set_entry sub acc g | None => acc end)
                w1 Hcache1).
  destruct (results marimo self batch w1) as [rs w2]. cbn [fst snd] in *.
  destruct Hr as [-> | ->].
  - cbn [record_converted]. unfold lift at 1. by rewrite with_path_None.
  - rewrite (record_converted_html self dir sub Hsub). unfold lift at 1.
    by rewrite with_path_Some.
Qed.

(** The sequential loop does what the loop over the workers does: its
    [try] never has anything to catch. *)
Lemma loops_agree batch acc w :
  cache_sound w →
  convert_sequential marimo self batch acc w =
  parallel_loop marimo self batch acc w.
Proof.
  revert acc w. induction batch as [|g batch IH]; intros acc w Hcache; [done|].
  destruct (standalone_any dir g (memory self) (prepend_markdown self)
              (move_imports_to_top self) w Hcache)
    as (r & w1 & Hrun & Hr & Hcache1 & _).
  cbn [convert_sequential parallel_loop].
  rewrite !bind_run. unfold catch. rewrite bind_run, Hdir, Hrun. rewrite bind_run.
  destruct Hr as [-> | ->].
  - cbn [record_converted]. unfold lift. by apply IH.
  - rewrite (record_converted_html self dir sub Hsub). unfold lift. by apply IH.
Qed.

(** A notebook both calls of [marimo] succeed for has a result with
    its exported file. *)
Lemma results_success batch g w :
  g ∈ batch → tool_succeeds marimo dir g →
  is_dir (files w) dir = true → files w !! py_file dir g ≠ Some Dir →
  cache_sound w →
  (g, Some (html_file dir g)) ∈ (results marimo self batch w).1.
Proof.
  intros Hg Hsucc. revert w.
  induction batch as [|h batch IH]; intros w Hd Hno Hcache;
    [by apply elem_of_nil in Hg|].
  destruct (standalone_any dir h (memory self) (prepend_markdown self)
              (move_imports_to_top self) w Hcache)
    as (r & w1 & Hrun & Hr & Hcache1 & Hw1).
  assert (writable dir (λ c, c = stem g ++ py ".py") (files w1)) as [Hd1 Hno1].
  { apply Hw1. split; [done|]. by intros c ->. }
  cbn [results]. rewrite Hdir, Hrun.
  destruct (decide (g = h)) as [->|Hne].
  - pose proof (standalone_success dir h (memory self) (prepend_markdown self)
                  (move_imports_to_top self) w Hd Hno Hcache Hsucc) as Hs.
    rewrite Hrun in Hs. injection Hs as ->.
    destruct (results marimo self batch w1) as [rs w2]. by left.
  - apply elem_of_cons in Hg as [?|Hg]; [done|].
    specialize (IH Hg w1 Hd1 (Hno1 _ eq_refl) Hcache1).
    destruct (results marimo self batch w1) as [rs w2]. by right.
Qed.

End AnyLoop.

(** X10.  Whatever [marimo] does for each notebook, exit status,
    output or exception, [convert_gallery_notebooks] returns and writes
    the manifest, given a number of jobs that is not zero if the build
    is parallel, an output directory below [_static] that exists, a
    manifest path that is not a directory, and a cache that holds for
    each stored call the path of its HTML file.  Every worker returns a
    result; the keys of the mapping are exactly the stems of the
    notebooks whose worker returned a path, the value for a stem being
    the place of its HTML file; a notebook both calls of [marimo]
    succeed for, with an intermediate path that is not a directory, has
    its entry; no key occurs twice; there are at most as many entries
    as notebooks; and the only change after the last worker is the
    manifest, which holds this mapping. *)
Theorem batch_is_never_aborted self w nbdir dir sub :
  let batch := rglob_ipynb (files w) nbdir in
  let rs := (results marimo self batch w).1 in
  let w1 := (results marimo self batch w).2 in
  gallery_detected self = true →
  gallery_notebooks_dir self = Some nbdir →
  marimo_gallery_dir self = Some dir →
  dir = div (outdir (app self)) (py "_static") ++ sub →
  (parallel_build self = true → n_jobs self ≠ 0%Z) →
  exists_ (files w) nbdir = true →
  is_dir (files w) dir = true →
  files w !! div dir MANIFEST ≠ Some Dir →
  cache_sound w →
  ∃ converted,
    convert_gallery_notebooks json_dump marimo self w =
      (Ok converted,
       set_files (<[div dir MANIFEST := File (json_dump 2 (manifest_doc converted))]>
                    (files w1)) w1) ∧
    fst <$> rs = batch ∧
    (∀ g p, (g, Some p) ∈ rs → p = html_file dir g) ∧
    (∀ k v, dict_get k converted = Some v ↔
            ∃ g p, (g, Some p) ∈ rs ∧ (k, v) = entry sub g) ∧
    (∀ g, g ∈ batch → tool_succeeds marimo dir g →
          files w !! py_file dir g ≠ Some Dir →
          dict_get (stem g) converted = Some (entry sub g).2) ∧
    NoDup (fst <$> converted) ∧
    length converted ≤ length batch.
Proof.
  intros batch rs w1 Hdet Hnb Hdir Hsub Hjobs Hex Hd Hno Hcache.
  destruct (results_any self dir Hdir batch w Hcache) as (Hfst & Hhtml & _ & Hw).
  fold rs w1 in Hfst, Hhtml, Hw.
  destruct (fold_entries sub (with_path rs) []) as (Hnd & Hlen & Hget & Hinv);
    [constructor|].
  exists (foldl (set_entry sub) [] (with_path rs)).
  assert ((if parallel_build self && bool_decide (0 < length batch)
           then convert_parallel marimo self batch []
           else convert_sequential marimo self batch []) w
          = (Ok (foldl (set_entry sub) [] (with_path rs)), w1)) as Hloop.
  { unfold rs, w1.
    rewrite <- (parallel_loop_any self dir sub Hdir Hsub batch [] w Hcache).
    destruct (parallel_build self) eqn:Hpar; cbn [andb];
      [destruct (bool_decide (0 < length batch))|].
    - apply convert_parallel_jobs. by apply Hjobs.
    - by apply (loops_agree self dir sub Hdir Hsub).
    - by apply (loops_agree self dir sub Hdir Hsub). }
  split_and!.
  - unfold convert_gallery_notebooks. rewrite Hdet, Hnb.
    rewrite bind_run. unfold get_files. rewrite Hex. cbn [negb].
    fold batch. rewrite bind_run, Hloop. rewrite bind_run.
    unfold _save_gallery_manifest. rewrite Hdir.
    rewrite bind_run. unfold mret at 1, M_ret at 1. unfold on_files.
    destruct (Hw (λ c, c = MANIFEST)) as [Hd1 Hno1]; [split; [done | by intros c ->]|].
    by rewrite write_text_div by auto.
  - done.
  - done.
  - intros k v. split.
    + intros [H|(g & [p Hg]%elem_of_with_path & Hkv)]%Hinv; [done|]. by exists g, p.
    + intros (g & p & Hg & [= -> ->]). apply Hget, elem_of_with_path. by exists p.
  - intros g Hg Hsucc Hpy. apply Hget, elem_of_with_path.
    exists (html_file dir g).
    by apply (results_success self dir Hdir).
  - done.
  - etrans; [exact Hlen|]. cbn [length]. rewrite <- Hfst, length_fmap.
    rewrite <- (length_fmap fst rs). apply sublist_length, with_path_sublist.
Qed.



(** *** Nothing to convert *)

(** X13.  As long as no gallery has been detected, the integration
    does nothing: no launcher is injected, no directory is set up,
    nothing is converted and no manifest is written, and no notebook is
    found for any document. *)
Theorem undetected_gallery_is_inert self docname w :
  gallery_detected self = false →
  should_inject_launcher self docname = Ok false ∧
  setup_gallery_directories self w = (Ok self, w) ∧
  convert_gallery_notebooks json_dump marimo self w = (Ok [], w) ∧
  get_notebook_info json_load py_str self docname w = (Ok None, w).
Proof.
  intros H.
  assert (should_inject_launcher self docname = Ok false) as Hinj
    by (unfold should_inject_launcher; by rewrite H).
  split_and!; [done | ..].
  - unfold setup_gallery_directories. by rewrite H.
  - unfold convert_gallery_notebooks. by rewrite H.
  - unfold get_notebook_info. destruct (marimo_gallery_dir self); [|done].
    by rewrite Hinj.
Qed.

Lemma get_notebook_info_files self docname w w2 :
  files w2 = files w →
  (get_notebook_info json_load py_str self docname w2).1 =
  (get_notebook_info json_load py_str self docname w).1.
Proof.
  intros H. unfold get_notebook_info.
  destruct (marimo_gallery_dir self) as [dir|]; [|done].
  rewrite !bind_run. unfold lift.
  destruct (should_inject_launcher self docname) as [[|]|e]; cbn [negb]; [|done..].
  rewrite !bind_run. unfold get_files. rewrite H.
  destruct (exists_ (files w) (div dir MANIFEST)); cbn [negb]; [|done].
  unfold catch. by destruct (lookup_manifest _ _ _ _ _).
Qed.

(** X14.  Nothing to convert, after detection.  When the directory of
    the gallery notebooks does not exist, [convert_gallery_notebooks]
    logs one warning, returns the empty mapping and writes nothing, so
    that a manifest of an earlier build stays and [get_notebook_info]
    goes on answering from it.  When the directory exists and holds no
    notebook, the empty mapping is returned and a manifest with no
    entry and the count zero is written; nothing else changes. *)
Theorem nothing_to_convert self nbdir dir w :
  gallery_detected self = true →
  gallery_notebooks_dir self = Some nbdir →
  marimo_gallery_dir self = Some dir →
  (exists_ (files w) nbdir = false →
   ∃ w',
     convert_gallery_notebooks json_dump marimo self w = (Ok [], w') ∧
     files w' = files w ∧ cache w' = cache w ∧
     log w' = log w ++ [(WARNING, py "Gallery notebooks directory not found: "
                                  ++ to_str nbdir)] ∧
     ∀ docname,
       (get_notebook_info json_load py_str self docname w').1 =
       (get_notebook_info json_load py_str self docname w).1) ∧
  (exists_ (files w) nbdir = true →
   rglob_ipynb (files w) nbdir = [] →
   is_dir (files w) dir = true →
   files w !! div dir MANIFEST ≠ Some Dir →
   convert_gallery_notebooks json_dump marimo self w =
     (Ok [],
      set_files
        (<[div dir MANIFEST :=
             File (json_dump 2
                     (JDict [(py "gallery_notebooks", JDict []);
                             (py "total_count", JInt 0)]))]> (files w)) w)).
Proof.
  intros Hdet Hnb Hdir. split.
  - intros Hex. eexists. split_and!.
    + unfold convert_gallery_notebooks.
      rewrite Hdet, Hnb, bind_run. unfold get_files. rewrite Hex. reflexivity.
    + done.
    + done.
    + done.
    + intros docname. by apply get_notebook_info_files.
  - intros Hex Hglob Hd Hno. unfold convert_gallery_notebooks.
    rewrite Hdet, Hnb, bind_run. unfold get_files. rewrite Hex, Hglob. cbn [negb].
    rewrite andb_false_r. cbn [convert_sequential]. rewrite bind_run.
    unfold mret at 1, M_ret at 1. rewrite bind_run.
    unfold _save_gallery_manifest. rewrite Hdir. rewrite bind_run.
    unfold mret at 1, M_ret at 1. unfold on_files.
    by rewrite write_text_div.
Qed.

(** *** The directories of the gallery *)

Lemma mkdir_from_spec todo : ∀ done t,
  (∀ q s, q `prefix_of` todo → q ≠ [] → t !! (done ++ q) ≠ Some (File s)) →
  ∃ t', mkdir_from t done todo = Ok t' ∧
    (∀ q, q `prefix_of` todo → q ≠ [] → t' !! (done ++ q) = Some Dir) ∧
    (∀ q, t' !! q = t !! q ∨ t !! q = None ∧ t' !! q = Some Dir).
Proof.
  induction todo as [|c todo IH]; intros done t Hfree.
  - exists t. split_and!; [done | | by left].
    intros q Hq Hne. by apply prefix_nil_inv in Hq.
  - assert (∀ q, q `prefix_of` c :: todo → q ≠ [] →
              ∃ q', q = c :: q' ∧ q' `prefix_of` todo) as Hinv.
    { intros [|c' q'] Hq Hne; [done|].
      pose proof (prefix_cons_inv_1 _ _ _ _ Hq) as ->.
      exists q'. split; [done|]. by apply prefix_cons_inv_2 in Hq. }
    assert (∀ q, done ++ c :: q = (done ++ [c]) ++ q) as Hshift
      by (intros q; by rewrite <- app_assoc).
    assert (∀ t0,
      (∀ q s, q `prefix_of` todo → q ≠ [] → t0 !! ((done ++ [c]) ++ q) ≠ Some (File s)) →
      t0 !! (done ++ [c]) = Some Dir →
      ∃ t', mkdir_from t0 (done ++ [c]) todo = Ok t' ∧
        (∀ q, q `prefix_of` c :: todo → q ≠ [] → t' !! (done ++ q) = Some Dir) ∧
        (∀ q, t' !! q = t0 !! q ∨ t0 !! q = None ∧ t' !! q = Some Dir)) as Hstep.
    { intros t0 Hfree0 Hp. destruct (IH (done ++ [c]) t0 Hfree0) as (t' & Hrun & Hdirs & Hsame).
      exists t'. split_and!; [done | | done].
      intros q Hq Hne. destruct (Hinv q Hq Hne) as (q' & -> & Hq').
      destruct q' as [|c' q'].
      - destruct (Hsame (done ++ [c])) as [E|[E _]]; congruence.
      - rewrite Hshift. by apply Hdirs. }
    cbn [mkdir_from].
    destruct (t !! (done ++ [c])) as [[s|]|] eqn:Hp.
    + exfalso. apply (Hfree [c] s); [by apply prefix_cons, prefix_nil | done | done].
    + apply Hstep; [|done]. intros q s Hq Hne. rewrite <- Hshift.
      apply Hfree; [by apply prefix_cons | done].
    + destruct (Hstep (<[done ++ [c] := Dir]> t)) as (t' & Hrun & Hdirs & Hsame).
      * intros q s Hq Hne. rewrite lookup_insert_ne.
        -- rewrite <- Hshift. apply Hfree; [by apply prefix_cons | done].
        -- intros E. apply (f_equal length) in E. rewrite !length_app in E.
           destruct q; [done | simpl in E; lia].
      * by rewrite lookup_insert_eq.
      * exists t'. split_and!; [done | done |].
        intros q. destruct (decide (q = done ++ [c])) as [->|Hq].
        -- right. split; [done|].
           destruct (Hsame (done ++ [c])) as [E|[E _]];
             rewrite lookup_insert_eq in E; congruence.
        -- destruct (Hsame q) as [E|[E1 E2]]; rewrite lookup_insert_ne in * by done;
             [by left | by right].
Qed.

(** X15.  [setup_gallery_directories] after detection, when no file is
    in the way: the two directories of the object are set, the output
    directory and every directory above it exist afterwards, and the
    only change to the files is that missing directories are created. *)
Theorem setup_gallery_directories_creates_output self w :
  let static := div (outdir (app self)) (py "_static") in
  let out := div (div static (py "marimo")) (py "gallery") in
  gallery_detected self = true →
  (∀ q s, q `prefix_of` out → files w !! q ≠ Some (File s)) →
  ∃ w',
    setup_gallery_directories self w =
      (Ok (set_directories self (div (outdir (app self)) (py "_downloads")) out), w') ∧
    (∀ q, q `prefix_of` out → is_dir (files w') q = true) ∧
    (∀ q, files w' !! q = files w !! q ∨
          files w !! q = None ∧ files w' !! q = Some Dir) ∧
    log w' = log w ∧ cache w' = cache w.
Proof.
  intros static out Hdet Hfree. unfold setup_gallery_directories.
  rewrite Hdet. cbn [negb]. fold static. fold out.
  destruct (mkdir_from_spec out [] (files w)) as (t' & Hrun & Hdirs & Hsame).
  { intros q s Hq _. by apply Hfree. }
  rewrite bind_run. unfold on_files, mkdir_parents. rewrite Hrun.
  eexists. split_and!; [reflexivity | | done..].
  intros q Hq. cbn [files set_files]. unfold is_dir.
  destruct q as [|c q]; [done|].
  specialize (Hdirs (c :: q) Hq ltac:(done)).
  change ([] ++ c :: q) with (c :: q) in Hdirs. by rewrite Hdirs.
Qed.


(** *** The launcher *)

Lemma starts_with_any_chars docname s :
  starts_with_any docname ((λ c, [c]) <$> s) =
    match docname with
    | c :: _ => bool_decide (c ∈ s)
    | [] => false
    end.
Proof.
  induction s as [|a s IH]; cbn [fmap list_fmap starts_with_any].
  - destruct docname; [done|]. symmetry. apply bool_decide_eq_false, not_elem_of_nil.
  - fold (fmap (M:=list) (λ c : ascii, [c]) s). rewrite IH.
    destruct docname as [|c docname]; cbn [Str.startswith]; [done|].
    rewrite andb_true_r. destruct (Ascii.eqb a c) eqn:E.
    + apply Ascii.eqb_eq in E as ->. symmetry. apply bool_decide_eq_true. by left.
    + apply Ascii.eqb_neq in E. apply bool_decide_ext. rewrite elem_of_cons.
      split; [by right | by intros [->|?]].
Qed.

(** X16.  When [gallery_dirs] is a text, the loop of
    [should_inject_launcher] goes through its characters: after
    detection the launcher is injected exactly for the documents whose
    name begins with a character of that text. *)
Theorem text_valued_gallery_dirs self docname s :
  gallery_detected self = true →
  dict_get (py "gallery_dirs")
    (default [] (sphinx_gallery_conf (config (app self)))) = Some (VStr s) →
  should_inject_launcher self docname =
    Ok (match docname with
        | c :: _ => bool_decide (c ∈ s)
        | [] => false
        end).
Proof.
  intros Hdet Hconf. unfold should_inject_launcher. rewrite Hdet, Hconf.
  cbn [negb default]. unfold id. cbn [iterate mbind result_bind].
  by rewrite starts_with_any_chars.
Qed.

(** X17.  When [gallery_dirs] is a list of texts, or is not set,
    [should_inject_launcher] returns, and returns [True] exactly after
    detection for a document name that begins with one of the listed
    texts; an empty text in the list matches every document, and an
    empty or missing list matches none. *)
Theorem listed_gallery_dirs self docname dirs :
  dict_get (py "gallery_dirs")
      (default [] (sphinx_gallery_conf (config (app self)))) = Some (VList dirs) ∨
  dict_get (py "gallery_dirs")
      (default [] (sphinx_gallery_conf (config (app self)))) = None ∧ dirs = [] →
  ∃ b, should_inject_launcher self docname = Ok b ∧
       (b = true ↔ gallery_detected self = true ∧
                   ∃ d, d ∈ dirs ∧ d `prefix_of` docname) ∧
       (gallery_detected self = true → [] ∈ dirs → b = true) ∧
       (dirs = [] → b = false).
Proof.
  intros H.
  assert (∃ b, should_inject_launcher self docname = Ok b ∧
               (b = true ↔ gallery_detected self = true ∧
                           ∃ d, d ∈ dirs ∧ d `prefix_of` docname))
    as (b & Hb & Hiff).
  { destruct H as [H|[H ->]]; [by apply should_inject_launcher_list|].
    exists false. unfold should_inject_launcher. rewrite H.
    split; [by destruct (gallery_detected self)|].
    split; [done|]. intros [_ (d & Hd & _)]. by apply elem_of_nil in Hd. }
  exists b. split_and!; [done..| |].
  - intros Hdet Hin. apply Hiff. split; [done|]. exists []. split; [done|].
    apply prefix_nil.
  - intros ->. destruct b; [|done]. destruct Hiff as [Hiff _].
    destruct (Hiff eq_refl) as [_ (d & Hd & _)]. by apply elem_of_nil in Hd.
Qed.

(** *** From the conversion to the launcher *)

Lemma exists_div t dir child x : t !! div dir child = Some x → exists_ t (div dir child) = true.
Proof.
  intros H. unfold exists_. pose proof (div_not_nil dir child).
  destruct (div dir child); [done|]. apply bool_decide_eq_true. by rewrite H.
Qed.

Lemma lookup_saved_manifest converted t dir name :
  t !! div dir MANIFEST = Some (File (json_dump 2 (manifest_doc converted))) →
  json_load (json_dump 2 (manifest_doc converted)) = Some (manifest_doc converted) →
  lookup_manifest json_load py_str t (div dir MANIFEST) name =
    Ok ((λ v, {| notebook_name := name; notebook_url := py "/_static/" ++ v |})
          <$> dict_get name converted).
Proof.
  intros Hfile Hload. unfold lookup_manifest, read_text. rewrite Hfile.
  cbn [mbind result_bind]. rewrite Hload. unfold manifest_doc.
  cbn [mbind result_bind dict_get json_index].
  rewrite !decide_True by done. cbn [default]. unfold id.
  cbn [json_contains mbind result_bind]. rewrite dict_get_entries.
  destruct (dict_get name converted) as [v|] eqn:Hv.
  - rewrite bool_decide_eq_true_2 by (by eexists).
    cbn [mbind result_bind json_index].
    by rewrite dict_get_entries, Hv.
  - rewrite bool_decide_eq_false_2; [done|]. by intros [? ?].
Qed.

(** X18.  From the conversion to the launcher: whenever
    [convert_gallery_notebooks] has returned a mapping for an existing
    directory of notebooks, the manifest on disk is the serialization of
    that mapping, and, for a JSON library that reads it back,
    [get_notebook_info] finds for a gallery document exactly the entry
    of the mapping under the last component of the document name, and
    nothing when there is none; the world is left as it is. *)
Theorem converted_notebooks_are_found self w nbdir dir converted w' docname :
  gallery_detected self = true →
  gallery_notebooks_dir self = Some nbdir →
  marimo_gallery_dir self = Some dir →
  exists_ (files w) nbdir = true →
  convert_gallery_notebooks json_dump marimo self w = (Ok converted, w') →
  json_load (json_dump 2 (manifest_doc converted)) = Some (manifest_doc converted) →
  should_inject_launcher self docname = Ok true →
  read_text (files w') (div dir MANIFEST) = Ok (json_dump 2 (manifest_doc converted)) ∧
  get_notebook_info json_load py_str self docname w' =
    (Ok (info_for docname <$> dict_get (name_of_text docname) converted), w').
Proof.
  intros Hdet Hnb Hdir Hex Hrun Hload Hinj.
  assert (files w' !! div dir MANIFEST =
            Some (File (json_dump 2 (manifest_doc converted)))) as Hfile.
  { unfold convert_gallery_notebooks in Hrun. rewrite Hdet, Hnb, bind_run in Hrun.
    unfold get_files in Hrun. rewrite Hex in Hrun. cbn [negb] in Hrun.
    apply bind_ok in Hrun as (c & w1 & _ & Hrun).
    apply bind_ok in Hrun as ([] & w2 & Hsave & Hrun).
    injection Hrun as <- <-.
    unfold _save_gallery_manifest in Hsave. rewrite Hdir, bind_run in Hsave.
    unfold mret at 1, M_ret at 1 in Hsave. unfold on_files in Hsave.
    destruct (write_text _ _ _) as [t|e] eqn:Hw; [|done].
    injection Hsave as <-. apply write_text_inv in Hw as ->.
    cbn [files set_files]. by rewrite lookup_insert_eq. }
  split; [unfold read_text; by rewrite Hfile|].
  rewrite (get_notebook_info_eq json_load py_str self docname true dir w' Hinj Hdir).
  rewrite (exists_div _ _ _ _ Hfile). cbn [andb].
  by rewrite (lookup_saved_manifest converted).
Qed.

(** *** The key of a notebook *)

Lemma rsplit_dot_None s : "." ∉ s → rsplit_dot s = None.
Proof.
  induction s as [|c s IH]; [done|]. intros [Hc Hs]%not_elem_of_cons.
  cbn [rsplit_dot]. rewrite IH by done.
  by assert (Ascii.eqb c "." = false) as -> by (apply Ascii.eqb_neq; congruence).
Qed.

Lemma rsplit_dot_app a b : "." ∉ b → rsplit_dot (a ++ "." :: b) = Some (a, b).
Proof.
  intros Hb. induction a as [|c a IH].
  - rewrite app_nil_l. cbn [rsplit_dot]. by rewrite rsplit_dot_None by done.
  - rewrite <- app_comm_cons. cbn [rsplit_dot]. by rewrite IH.
Qed.

Lemma split_snoc sep d n :
  sep ∉ n → Str.split sep (d ++ sep :: n) = Str.split sep d ++ [n].
Proof.
  intros Hn. induction d as [|c d IH].
  - rewrite app_nil_l. cbn [Str.split].
    rewrite StrFacts.eqb_refl'. by rewrite StrFacts.split_line.
  - rewrite <- app_comm_cons. cbn [Str.split].
    rewrite IH. destruct (Ascii.eqb c sep); [done|].
    pose proof (StrFacts.split_nonempty sep d). by destruct (Str.split sep d).
Qed.

(** X19.  The key under which a notebook [n.ipynb] is stored, the stem
    of its file name, is the key [get_notebook_info] looks up for a
    document [n] or [dir/n], the last component of its name. *)
Theorem manifest_key_is_document_name (ipynb_file : path) (docdir n : str) :
  n ≠ [] → n ≠ py "." → "/" ∉ n →
  name ipynb_file = n ++ py ".ipynb" →
  stem ipynb_file = n ∧
  name_of_text (docdir ++ "/" :: n) = n ∧
  name_of_text n = n.
Proof.
  intros Hne Hdot Hslash Hname. split_and!.
  - unfold stem, stem_of. rewrite Hname.
    change (py ".ipynb") with ("." :: py "ipynb").
    rewrite rsplit_dot_app by StrFacts.not_in_literal. by destruct n.
  - unfold name_of_text. rewrite split_snoc by done.
    rewrite filter_app, filter_cons_True by done. cbn [filter list_filter].
    by rewrite last_snoc.
  - unfold name_of_text. rewrite StrFacts.split_line by done.
    by rewrite filter_cons_True by done.
Qed.

(** *** What is exported *)



End Any.

(** *** The cache *)

Section Grows.

Context {A : Type}.







End Grows.





Section GrowsCalls.

Context (json_dump : nat → json → str).
Context (json_load : str → option json).
Context (py_str : json → str).
Context (marimo : list str → fs → result (CompletedProcess * option str)).







End GrowsCalls.



(** *** Writing the transformed notebook *)


(** *** Concrete runs *)


Lemma empty_cache_sound t : cache_sound (Samples.empty_world t).
Proof. intros store key v. unfold Samples.empty_world. cbn [cache]. by rewrite lookup_empty. Qed.

Lemma batch_is_never_aborted_witness :
  let self := Samples.ready Samples.test_config in
  let w := Samples.empty_world Samples.five_notebooks in
  ∃ converted w',
    convert_gallery_notebooks RefJson.dump Samples.marimo self w = (Ok converted, w') ∧
    dict_get (py "plot_a") converted = Some (py "marimo/gallery/plot_a.html") ∧
    NoDup (fst <$> converted) ∧
    length converted ≤ length (rglob_ipynb (files w) [py "build"; py "_downloads"]) ∧
    read_text (files w') (div Samples.gallery_dir MANIFEST) =
      Ok (RefJson.dump 2 (manifest_doc converted)).
Proof.
  intros self w.
  destruct (batch_is_never_aborted RefJson.dump Samples.marimo self w
              [py "build"; py "_downloads"] Samples.gallery_dir
              [py "marimo"; py "gallery"])
    as (converted & Hrun & _ & _ & _ & Hsucc & Hnd & Hlen).
  - reflexivity.
  - reflexivity.
  - reflexivity.
  - reflexivity.
  - intros H. discriminate H.
  - vm_compute. reflexivity.
  - vm_compute. reflexivity.
  - vm_compute. discriminate.
  - apply empty_cache_sound.
  - exists converted. eexists. split_and!.
    + exact Hrun.
    + refine (Hsucc (Samples.notebook "plot_a.ipynb") _ _ _).
      * apply (bool_decide_unpack _). vm_compute. exact I.
      * apply sample_marimo_succeeds. vm_compute. discriminate.
      * vm_compute. discriminate.
    + exact Hnd.
    + exact Hlen.
    + cbn [files set_files]. unfold read_text. rewrite lookup_insert_eq. reflexivity.
Defined.



Lemma undetected_gallery_is_inert_witness :
  let self := init {| config := Samples.docs_config; outdir := Samples.outdir |}
                None None None in
  let w := Samples.empty_world Samples.five_notebooks in
  should_inject_launcher self (py "auto_examples/plot_a") = Ok false ∧
  convert_gallery_notebooks RefJson.dump Samples.marimo self w = (Ok [], w).
Proof.
  intros self w.
  destruct (undetected_gallery_is_inert RefJson.dump RefJson.load RefJson.to_str
              Samples.marimo self (py "auto_examples/plot_a") w)
    as (H1 & _ & H3 & _); [reflexivity|]. by split.
Defined.

Lemma nothing_to_convert_witness :
  let self := Samples.ready Samples.test_config in
  (∃ w',
     convert_gallery_notebooks RefJson.dump Samples.marimo self
       (Samples.empty_world ∅) = (Ok [], w') ∧
     files w' = ∅ ∧
     log w' =
       [(WARNING, py "Gallery notebooks directory not found: /build/_downloads")]) ∧
  (∃ w',
     convert_gallery_notebooks RefJson.dump Samples.marimo self
       (Samples.empty_world Samples.directories) = (Ok [], w') ∧
     (text ← read_text (files w') (div Samples.gallery_dir MANIFEST);
      mret (RefJson.load text)) =
       Ok (Some (JDict [(py "gallery_notebooks", JDict []);
                        (py "total_count", JInt 0)]))).
Proof.
  intros self. split.
  - destruct (nothing_to_convert RefJson.dump RefJson.load RefJson.to_str
                Samples.marimo self [py "build"; py "_downloads"] Samples.gallery_dir
                (Samples.empty_world ∅)) as [H _]; [reflexivity..|].
    destruct H as (w' & Hrun & Hfiles & _ & Hlog & _); [reflexivity|].
    exists w'. split_and!; [exact Hrun | exact Hfiles | exact Hlog].
  - destruct (nothing_to_convert RefJson.dump RefJson.load RefJson.to_str
                Samples.marimo self [py "build"; py "_downloads"] Samples.gallery_dir
                (Samples.empty_world Samples.directories)) as [_ H]; [reflexivity..|].
    eexists. split.
    + apply H; vm_compute; (reflexivity || discriminate).
    + vm_compute. reflexivity.
Defined.

Lemma setup_gallery_directories_creates_output_witness :
  let self := Samples.ready Samples.test_config in
  ∃ w', (setup_gallery_directories self (Samples.empty_world ∅)).2 = w' ∧
        is_dir (files w') Samples.gallery_dir = true ∧
        is_dir (files w') [py "build"; py "_static"] = true.
Proof.
  intros self.
  destruct (setup_gallery_directories_creates_output self (Samples.empty_world ∅))
    as (w' & Hrun & Hdirs & _).
  - reflexivity.
  - intros q s _. unfold Samples.empty_world. cbn [files]. by rewrite lookup_empty.
  - exists w'. split_and!.
    + by rewrite Hrun.
    + apply Hdirs. done.
    + apply Hdirs. by exists [py "marimo"; py "gallery"].
Defined.

Lemma text_valued_gallery_dirs_witness :
  let self := Samples.ready Samples.docs_config in
  should_inject_launcher self (py "about") = Ok true ∧
  should_inject_launcher self (py "index") = Ok false.
Proof.
  intros self. split.
  - rewrite (text_valued_gallery_dirs self (py "about") (py "auto_examples"));
      [vm_compute; reflexivity | reflexivity | reflexivity].
  - rewrite (text_valued_gallery_dirs self (py "index") (py "auto_examples"));
      [vm_compute; reflexivity | reflexivity | reflexivity].
Defined.

Lemma listed_gallery_dirs_witness :
  let self := Samples.ready Samples.test_config in
  should_inject_launcher self (py "auto_examples/plot_a") = Ok true ∧
  should_inject_launcher self (py "api/functions") = Ok false.
Proof.
  intros self. split.
  - destruct (listed_gallery_dirs self (py "auto_examples/plot_a") [py "auto_examples"])
      as (b & Hb & Hiff & _); [by left|].
    rewrite Hb. f_equal. apply Hiff. split; [reflexivity|].
    exists (py "auto_examples"). split; [by left | by exists (py "/plot_a")].
  - destruct (listed_gallery_dirs self (py "api/functions") [py "auto_examples"])
      as (b & Hb & Hiff & _); [by left|].
    rewrite Hb. f_equal. destruct b; [|done].
    destruct Hiff as [Hiff _]. destruct (Hiff eq_refl) as [_ (d & Hd & Hp)].
    apply list_elem_of_singleton in Hd as ->. by destruct Hp as [k Hk].
Defined.

Lemma converted_notebooks_are_found_witness :
  let self := Samples.ready Samples.test_config in
  let w := Samples.empty_world Samples.five_notebooks in
  let run := convert_gallery_notebooks RefJson.dump Samples.marimo self w in
  get_notebook_info RefJson.load RefJson.to_str self (py "auto_examples/plot_a") run.2 =
    (Ok (Some {| notebook_name := py "plot_a";
                 notebook_url := py "/_static/marimo/gallery/plot_a.html" |}), run.2) ∧
  get_notebook_info RefJson.load RefJson.to_str self (py "auto_examples/plot_c") run.2 =
    (Ok None, run.2).
Proof.
  intros self w run.
  set (converted := [(py "plot_e", py "marimo/gallery/plot_e.html");
                     (py "plot_a", py "marimo/gallery/plot_a.html");
                     (py "plot_b", py "marimo/gallery/plot_b.html");
                     (py "plot_d", py "marimo/gallery/plot_d.html")]).
  assert (run = (Ok converted, run.2)) as Hrun.
  { assert (run.1 = Ok converted) as H1 by (vm_compute; reflexivity).
    rewrite <- H1. apply surjective_pairing. }
  split.
  - destruct (converted_notebooks_are_found RefJson.dump RefJson.load RefJson.to_str
                Samples.marimo self w [py "build"; py "_downloads"] Samples.gallery_dir
                converted run.2 (py "auto_examples/plot_a")) as [_ H];
      [reflexivity | reflexivity | reflexivity | vm_compute; reflexivity | exact Hrun
      | vm_compute; reflexivity | vm_compute; reflexivity |].
    rewrite H. reflexivity.
  - destruct (converted_notebooks_are_found RefJson.dump RefJson.load RefJson.to_str
                Samples.marimo self w [py "build"; py "_downloads"] Samples.gallery_dir
                converted run.2 (py "auto_examples/plot_c")) as [_ H];
      [reflexivity | reflexivity | reflexivity | vm_compute; reflexivity | exact Hrun
      | vm_compute; reflexivity | vm_compute; reflexivity |].
    rewrite H. reflexivity.
Defined.

Lemma manifest_key_is_document_name_witness :
  stem (Samples.notebook "plot_a.ipynb") = py "plot_a" ∧
  name_of_text (py "auto_examples/plot_a") = py "plot_a".
Proof.
  destruct (manifest_key_is_document_name (Samples.notebook "plot_a.ipynb")
              (py "auto_examples") (py "plot_a")) as (H1 & H2 & _);
    [done | done | StrFacts.not_in_literal | reflexivity |].
  split; [exact H1 | exact H2].
Defined.


End GalleryProps.

(** ** Properties of the directive *)

Module DirectiveProps.
Import Str StrFacts ReFacts Directive.

Lemma replace_char a b s :
  replace [a] [b] s = (λ c, if Ascii.eqb a c then b else c) <$> s.
Proof.
  unfold replace. induction s as [|c s IH]; [done|].
  cbn [replace_from startswith length Nat.sub fmap list_fmap app].
  rewrite andb_true_r. fold (fmap (M:=list) (λ c, if Ascii.eqb a c then b else c) s).
  rewrite <- IH. by destruct (Ascii.eqb a c).
Qed.

Lemma replace_from_removes old skip s ch :
  ch ∈ replace_from old [] skip s → ch ∈ s.
Proof.
  revert skip. induction s as [|c s IH]; intros skip; cbn [replace_from]; [done|].
  destruct skip as [|k].
  - destruct (startswith old (c :: s)); cbn [app].
    + intros H%IH. by right.
    + intros [->|H%IH]%elem_of_cons; [by left | by right].
  - intros H%IH. by right.
Qed.

(** X20.  The name [run] derives from the path of a notebook holds no
    slash: the frame and the container of a notebook are named by a
    single path component. *)
Theorem notebook_name_is_one_component notebook_path :
  "/" ∉ notebook_name notebook_path.
Proof.
  unfold notebook_name, replace at 1. intros H%replace_from_removes.
  change (py "/") with ["/"] in H. change (py "_") with ["_"] in H.
  rewrite replace_char in H. apply list_elem_of_fmap in H as (c & Hc & _).
  destruct (Ascii.eqb "/" c) eqn:E; [done|]. apply Ascii.eqb_neq in E. congruence.
Qed.

(** X21.  The name does not tell a slash from an underscore: two paths
    that differ only there get the same name, and with it the same
    frame source. *)
Theorem notebook_name_collisions a b :
  notebook_name (a ++ py "/" ++ b) = notebook_name (a ++ py "_" ++ b).
Proof.
  unfold notebook_name. f_equal.
  change (py "/") with ["/"]. change (py "_") with ["_"].
  by rewrite !replace_char, !fmap_app.
Qed.

Lemma digits_no_dash d : "-" ∉ py (NilEmpty.string_of_uint d).
Proof.
  induction d; cbn [NilEmpty.string_of_uint py list_ascii_of_string];
    [apply not_elem_of_nil | apply not_elem_of_cons; split; [done | exact IHd]..].
Qed.

Lemma str_of_nat_inj n m : str_of_nat n = str_of_nat m → n = m.
Proof.
  unfold str_of_nat, py. intros H.
  apply (f_equal string_of_list_ascii) in H.
  rewrite !string_of_list_ascii_of_string in H.
  apply (f_equal NilEmpty.uint_of_string) in H. rewrite !NilEmpty.usu in H.
  injection H as H. apply (f_equal Nat.of_uint) in H.
  by rewrite !Unsigned.of_to in H.
Qed.

Lemma last_field (sep : ascii) a b x y :
  sep ∉ x → sep ∉ y → a ++ sep :: x = b ++ sep :: y → x = y.
Proof.
  intros Hx Hy. revert b. induction a as [|c a IH]; intros [|c' b] H.
  - by injection H.
  - injection H as -> ->. exfalso. apply Hx, elem_of_app. right. by left.
  - injection H as <- <-. exfalso. apply Hy, elem_of_app. right. by left.
  - injection H as _ H. by apply (IH b).
Qed.

(** X22.  The container of the second of two directives that [run]
    handles one after the other has an id different from that of the
    first, whatever the two notebooks are: ids with different serial
    numbers differ. *)
Theorem successive_container_ids_differ path1 options1 path2 options2 config serialno :
  let first := run path1 options1 config serialno in
  let second := run path2 options2 config first.2 in
  (∃ css_class theme width height,
     second.1 = html css_class (container_id path2 first.2) (notebook_name path2)
                  theme width height) ∧
  container_id path1 serialno ≠ container_id path2 first.2 ∧
  (∀ serial1 serial2, serial1 ≠ serial2 →
     container_id path1 serial1 ≠ container_id path2 serial2).
Proof.
  intros first second.
  assert (∀ serial1 serial2, serial1 ≠ serial2 →
            container_id path1 serial1 ≠ container_id path2 serial2) as Hids.
  { intros serial1 serial2 Hne. unfold container_id. intros H.
    apply app_inv_head in H. apply Hne, str_of_nat_inj.
    change (py "-") with ["-"] in H. cbn [app] in H.
    eapply last_field; [| |exact H]; apply digits_no_dash. }
  split_and!; [by eexists _, _, _, _ | | done].
  apply Hids. cbn [first run snd]. lia.
Qed.

Lemma startswith_py_border c t :
  contains (py ".py") (c :: t) = false →
  startswith (py ".py") ((c :: t) ++ py ".py") = false.
Proof.
  intros H. destruct t as [|d [|e t]].
  - cbn. by rewrite andb_false_r.
  - cbn. by rewrite !andb_false_r.
  - apply contains_startswith in H. revert H. cbn. done.
Qed.

(** X23.  For the path of a script whose only [.py] is its suffix, the
    name is the path without the suffix, every slash replaced by an
    underscore. *)
Theorem notebook_name_of_script notebook_path :
  contains (py ".py") notebook_path = false →
  notebook_name (notebook_path ++ py ".py") =
    (λ c, if Ascii.eqb "/" c then "_" else c) <$> notebook_path.
Proof.
  intros Hfree. unfold notebook_name.
  change (py "/") with ["/"]. change (py "_") with ["_"].
  rewrite replace_char, fmap_app.
  set (f := λ c, if Ascii.eqb "/" c then "_" else c).
  assert (∀ s, contains (py ".py") s = false → contains (py ".py") (f <$> s) = false)
    as Hmap.
  { assert (∀ s, startswith (py ".py") (f <$> s) = startswith (py ".py") s) as Hsw.
    { intros s. destruct s as [|c1 [|c2 [|c3 s]]]; cbn;
        unfold f; repeat match goal with
                         | |- context [Ascii.eqb "/" ?c] =>
                             destruct (Ascii.eqb "/" c) eqn:?
                         end;
        rewrite ?Ascii.eqb_eq in *; subst; try done; cbn;
        by rewrite ?andb_false_r. }
    induction s as [|c s IH]; [done|]. intros H.
    change (f <$> c :: s) with (f c :: (f <$> s)).
    cbn [contains] in *. apply orb_false_iff in H as [H1 H2].
    change (f c :: (f <$> s)) with (f <$> c :: s). rewrite Hsw, H1. cbn [orb].
    by apply IH. }
  specialize (Hmap _ Hfree). clear Hfree. unfold replace.
  change (f <$> py ".py") with (py ".py").
  induction (f <$> notebook_path) as [|c t IH]; [done|].
  rewrite <- app_comm_cons. cbn [replace_from]. rewrite app_comm_cons.
  rewrite startswith_py_border by done. rewrite IH; [done|].
  cbn [contains] in Hmap. by apply orb_false_iff in Hmap as [_ ?].
Qed.

Lemma notebook_name_of_script_witness :
  notebook_name (py "demos/intro.py") = py "demos_intro".
Proof.
  apply (notebook_name_of_script (py "demos/intro")). vm_compute. reflexivity.
Defined.

End DirectiveProps.
